(** * zipper.py: a shallow embedding and its verified properties

    The development follows [zipper.py] top-down: Python values and
    exceptions, binary64 arithmetic (through the Standard Library's
    [SpecFloat], the executable IEEE-754 specification), fixed-point
    formatting, [human_size], the exclusion set, [os.walk] over a directory
    tree, [pathlib] paths, [create_zip] and [main] in a state-and-exception
    monad, the script's top-level handler, and the two printers
    [print_stats] and [progress_bar]. *)

From Stdlib Require Import ZArith Ascii String Floats.SpecFloat.
From stdpp Require Import base decidable option list strings pretty gmap.

Local Open Scope Z_scope.

(** ** Python exceptions and results *)

(** The exceptions that the modelled part of the script can raise.
    [SystemExit] and [KeyboardInterrupt] derive from [BaseException] only;
    the others derive from [Exception].  [NotModelled] marks the one Python
    operation left out of the model ([str] of a float). *)
Inductive exn : Type :=
| SystemExit (code : Z)
| KeyboardInterrupt
| ZeroDivisionError
| OverflowError
| ValueError
| PermissionError (filename : string)
| FileNotFoundError (filename : string)
| NotModelled.

Global Instance exn_eq_dec : EqDecision exn.
Proof. solve_decision. Defined.

(** [isinstance(e, Exception)] *)
Definition is_Exception (e : exn) : bool :=
  match e with
  | SystemExit _ | KeyboardInterrupt => false
  | _ => true
  end.

Inductive result (A : Type) : Type :=
| Ok (a : A)
| Raise (e : exn).
Global Arguments Ok {A} a.
Global Arguments Raise {A} e.

Global Instance result_ret : MRet result := λ A a, Ok a.
Global Instance result_bind : MBind result := λ A B f r,
  match r with
  | Ok a => f a
  | Raise e => Raise e
  end.

(** ** binary64 arithmetic *)

Module Float.

Definition prec : Z := 53.
Definition emax : Z := 1024.

Definition is_infinity (x : spec_float) : bool :=
  match x with S754_infinity _ => true | _ => false end.

Definition is_zero (x : spec_float) : bool :=
  match x with S754_zero _ => true | _ => false end.

(** An integer as an exact, not necessarily canonical, operand. *)
Definition exact_int (z : Z) : spec_float :=
  match z with
  | Z0 => S754_zero false
  | Zpos p => S754_finite false p 0
  | Zneg p => S754_finite true p 0
  end.

(** [float(z)]: the nearest double, ties to even; [OverflowError] when
    the integer is too large. *)
Definition of_int (z : Z) : result spec_float :=
  let x := binary_normalize prec emax z 0 false in
  if is_infinity x then Raise OverflowError else Ok x.

(** [a / b] on two ints: the correctly rounded quotient. *)
Definition int_truediv (a b : Z) : result spec_float :=
  if b =? 0 then Raise ZeroDivisionError
  else
    let x := SFdiv prec emax (exact_int a) (exact_int b) in
    if is_infinity x then Raise OverflowError else Ok x.

(** [x / y] on two floats. *)
Definition truediv (x y : spec_float) : result spec_float :=
  if is_zero y then Raise ZeroDivisionError else Ok (SFdiv prec emax x y).

Definition sub := SFsub prec emax.
Definition mul := SFmul prec emax.
Definition ltb := SFltb.

(** *** [format(x, '.<digits>f')] *)

(** The integer nearest to [a / b], ties to even ([0 <= a], [0 < b]). *)
Definition div_half_even (a b : Z) : Z :=
  let q := a / b in
  match 2 * (a mod b) ?= b with
  | Lt => q
  | Gt => q + 1
  | Eq => if Z.even q then q else q + 1
  end.

(** [m * 2^e * 10^digits] rounded to an integer. *)
Definition scaled (digits : nat) (m : positive) (e : Z) : Z :=
  if 0 <=? e then Zpos m * 2 ^ e * 10 ^ Z.of_nat digits
  else div_half_even (Zpos m * 10 ^ Z.of_nat digits) (2 ^ (- e)).

Fixpoint zeros (n : nat) : string :=
  match n with O => "" | S n' => "0" +:+ zeros n' end.

(** The last [digits] decimal digits of [n], zero-padded on the left. *)
Definition fraction (digits : nat) (n : Z) : string :=
  let s := pretty (n mod 10 ^ Z.of_nat digits) in
  zeros (digits - String.length s) +:+ s.

Definition fixed (digits : nat) (n : Z) : string :=
  pretty (n / 10 ^ Z.of_nat digits) +:+
  match digits with O => "" | _ => "." +:+ fraction digits n end.

Definition sign (s : bool) : string := if s then "-" else "".

Definition format_f (digits : nat) (x : spec_float) : string :=
  match x with
  | S754_nan => "nan"
  | S754_infinity s => sign s +:+ "inf"
  | S754_zero s => sign s +:+ fixed digits 0
  | S754_finite s m e => sign s +:+ fixed digits (scaled digits m e)
  end.

End Float.

(** ** Python numbers: [int] or [float] *)

Inductive num : Type :=
| PyInt (z : Z)
| PyFloat (x : spec_float).

(** [a < b] for an int [b] that a double holds exactly (here 1024). *)
Definition py_lt (a : num) (b : Z) : bool :=
  match a with
  | PyInt z => z <? b
  | PyFloat x => Float.ltb x (binary_normalize Float.prec Float.emax b 0 false)
  end.

(** [a / b] for an int [b]. *)
Definition py_truediv (a : num) (b : Z) : result num :=
  match a with
  | PyInt z => x ← Float.int_truediv z b; Ok (PyFloat x)
  | PyFloat x => y ← Float.of_int b; q ← Float.truediv x y; Ok (PyFloat q)
  end.

(** [format(a, '.<digits>f')]; an int is converted to a float first. *)
Definition py_format_f (digits : nat) (a : num) : result string :=
  match a with
  | PyInt z => x ← Float.of_int z; Ok (Float.format_f digits x)
  | PyFloat x => Ok (Float.format_f digits x)
  end.

(** [str(a)]; the shortest-round-trip printing of floats is not modelled. *)
Definition py_str (a : num) : result string :=
  match a with
  | PyInt z => Ok (pretty z)
  | PyFloat _ => Raise NotModelled
  end.

(** ** [human_size] *)

Definition units : list string := ["B"; "KB"; "MB"; "GB"].

(** The [for unit in ...] loop of [human_size]; [Ok None] is the implicit
    [return None] after a loop that ran out of units. *)
Fixpoint human_size_loop (us : list string) (size_bytes : num)
  : result (option string) :=
  match us with
  | [] => Ok None
  | unit :: us' =>
      if py_lt size_bytes 1024 || String.eqb unit "GB" then
        if negb (String.eqb unit "B") then
          s ← py_format_f 2 size_bytes; Ok (Some (s +:+ " " +:+ unit))
        else
          s ← py_str size_bytes; Ok (Some (s +:+ " B"))
      else
        q ← py_truediv size_bytes 1024; human_size_loop us' q
  end.

Definition human_size (size_bytes : Z) : result (option string) :=
  human_size_loop units (PyInt size_bytes).

(** ** The compression ratio of the statistics table

    [f"{(1 - zip_size/total_size)*100:.1f}%"] *)
Definition compression_ratio (zip_size total_size : Z) : result string :=
  q ← Float.int_truediv zip_size total_size;
  one ← Float.of_int 1;
  hundred ← Float.of_int 100;
  Ok (Float.format_f 1 (Float.mul (Float.sub one q) hundred) +:+ "%").

(** ** Strings: [str.split], [str.join] and friends *)

(** [s.split(sep)] for a one-character separator. *)
Fixpoint str_split (sep : Ascii.ascii) (s : string) : list string :=
  match s with
  | EmptyString => [""]
  | String c s' =>
      if Ascii.eqb c sep then "" :: str_split sep s'
      else match str_split sep s' with
           | [] => [String c ""]
           | w :: ws => String c w :: ws
           end
  end.

(** [sep.join(l)] *)
Definition str_join (sep : string) (l : list string) : string := String.concat sep l.

(** [sep in s] for a one-character [sep]. *)
Fixpoint contains (sep : Ascii.ascii) (s : string) : bool :=
  match s with
  | EmptyString => false
  | String c s' => Ascii.eqb c sep || contains sep s'
  end.

Definition startswith_slash (s : string) : bool :=
  match s with String c _ => Ascii.eqb c "/" | EmptyString => false end.

(** [s[1:]] *)
Definition drop1 (s : string) : string :=
  match s with String _ s' => s' | EmptyString => "" end.

Fixpoint endswith_slash (s : string) : bool :=
  match s with
  | EmptyString => false
  | String c EmptyString => Ascii.eqb c "/"%char
  | String _ s' => endswith_slash s'
  end.

(** [s.zfill(width)] for the digit strings of [strftime]. *)
Definition zfill (width : nat) (s : string) : string :=
  Float.zeros (width - String.length s) +:+ s.

(** ** The exclusion set *)

Definition default_patterns : list string :=
  [".git"; ".github"; "node_modules"; ".DS_Store"; "__MACOSX";
   ".gitignore"; ".env"; ".vscode"; ".idea"; ".zip"; "Thumbs.db";
   "desktop.ini"; "package-lock.json"; "yarn.lock"].

Definition get_excluded_patterns : gset string := list_to_set default_patterns.

(** [get_excluded_patterns().union(set(exclude or []))] *)
Definition exclude_patterns (exclude : option (list string)) : gset string :=
  get_excluded_patterns ∪ list_to_set (default [] exclude).

(** ** [os.path] and [pathlib] (POSIX flavour) *)

(** [os.path.join(a, b)] *)
Definition os_path_join (a b : string) : string :=
  if startswith_slash b then b
  else if bool_decide (a = "") || endswith_slash a then a +:+ b
  else a +:+ "/" +:+ b.

(** A parsed [PurePosixPath]: its anchor (empty, one slash or two) and the
    components after it ([parts] without the anchor). *)
Record Path : Type := { anchor : string; segments : list string }.

Global Instance Path_eq_dec : EqDecision Path.
Proof. solve_decision. Defined.

(** [posixpath.splitroot] without the (always empty) drive: no leading
    slash; one, or three and more; exactly two. *)
Definition splitroot (p : string) : string * string :=
  if negb (startswith_slash p) then ("", p)
  else if negb (startswith_slash (drop1 p)) || startswith_slash (drop1 (drop1 p))
  then ("/", drop1 p)
  else ("//", drop1 (drop1 p)).

Definition proper_component (x : string) : bool :=
  negb (String.eqb x "") && negb (String.eqb x ".").

(** [Path(s)] *)
Definition Path_of (s : string) : Path :=
  let '(r, rel) := splitroot s in
  {| anchor := r; segments := filter (λ x, proper_component x = true) (str_split "/" rel) |}.

(** [p / key] *)
Definition Path_div (p : Path) (key : string) : Path :=
  let q := Path_of key in
  if bool_decide (anchor q = "") then {| anchor := anchor p; segments := segments p ++ segments q |}
  else q.

(** [p.name] *)
Definition Path_name (p : Path) : string := List.last (segments p) "".

(** [p.parent] *)
Definition Path_parent (p : Path) : Path :=
  {| anchor := anchor p; segments := removelast (segments p) |}.

(** [str(p)] *)
Definition Path_str (p : Path) : string :=
  match anchor p, segments p with
  | EmptyString, [] => "."
  | r, t => r +:+ str_join "/" t
  end.

Fixpoint is_prefix (l1 l2 : list string) : bool :=
  match l1, l2 with
  | [], _ => true
  | x :: l1', y :: l2' => String.eqb x y && is_prefix l1' l2'
  | _ :: _, [] => false
  end.

(** [p.relative_to(other)] *)
Definition relative_to (p : Path) (other : string) : result Path :=
  let o := Path_of other in
  if String.eqb (anchor p) (anchor o) && is_prefix (segments o) (segments p)
  then Ok {| anchor := ""; segments := drop (length (segments o)) (segments p) |}
  else Raise ValueError.

(** [os.path.normpath] *)
Definition normpath_step (initial_slashes : bool) (new_comps : list string)
    (comp : string) : list string :=
  if String.eqb comp "" || String.eqb comp "." then new_comps
  else if negb (String.eqb comp "..")
          || (negb initial_slashes && bool_decide (new_comps = []))
          || String.eqb (List.last new_comps "") ".."
       then new_comps ++ [comp]
       else removelast new_comps.

Definition normpath (path : string) : string :=
  if String.eqb path "" then "."
  else
    let '(r, _) := splitroot path in
    let comps := fold_left (normpath_step (negb (String.eqb r ""))) (str_split "/" path) [] in
    let path' := r +:+ str_join "/" comps in
    if String.eqb path' "" then "." else path'.

Fixpoint lstrip_slashes (s : string) : string :=
  match s with
  | String c s' => if Ascii.eqb c "/" then lstrip_slashes s' else s
  | EmptyString => s
  end.

(** The entry name [ZipInfo.from_file] derives from [arcname] for a
    regular file. *)
Definition zip_arcname (arcname : string) : string :=
  lstrip_slashes (normpath arcname).

(** ** The directory tree under [source_dir]

    Regular files and directories, each directory listing its entries in
    the order [os.scandir] returns them.  [readable] tells whether opening
    the file for reading succeeds.  The tree holds what the walk can
    enter and [stat]: a directory that cannot be scanned (which [os.walk]
    passes over in silence), a symbolic link and an entry whose [stat]
    fails have no node of their own. *)
#[warnings="-register-all"]
Inductive node : Type :=
| File (name : string) (st_size : Z) (readable : bool)
| Dir (name : string) (entries : list node).

Definition node_name (n : node) : string :=
  match n with File name _ _ | Dir name _ => name end.

Definition dir_name (n : node) : option string :=
  match n with Dir name _ => Some name | File _ _ _ => None end.

Definition file_name (n : node) : option string :=
  match n with File name _ _ => Some name | Dir _ _ => None end.

(** The entry called [name] of a directory listing. *)
Fixpoint find_child (name : string) (es : list node) : option node :=
  match es with
  | [] => None
  | child :: es' =>
      if String.eqb (node_name child) name then Some child
      else find_child name es'
  end.

(** The node reached from [n] along the components [parts]. *)
Fixpoint resolve (n : node) (parts : list string) : option node :=
  match parts with
  | [] => Some n
  | p :: ps =>
      match n with
      | File _ _ _ => None
      | Dir _ es => child ← find_child p es; resolve child ps
      end
  end.

(** ** The run: environment, observable state, and the monad *)

Record datetime : Type := {
  year : Z; month : Z; day : Z; hour : Z; minute : Z; second : Z
}.

(** What the run reads from outside: the node that [source_dir] names (if
    any), the wall clock, the size the finished archive has on disk
    (deflate is not modelled) and the elapsed seconds shown at the end. *)
Record env : Type := {
  source : option node;
  now : datetime;
  zip_st_size : Z;
  elapsed : spec_float
}.

(** The table of [print_stats], in insertion order. *)
Definition stats_table : Type := list (string * string).

(** What the script prints, without colours and spinner frames.
    [Created p] is the success line followed by the line that shows
    [p.resolve()]: the message holds [p] as [create_zip] built it, before
    it is resolved against the working directory. *)
Inductive message : Type :=
| Banner
| Discovering
| Found (count : nat)
| NoFilesFound
| StartingCompression
| Compressing (i total : nat) (rel_path : string)
| Created (zip_path : string)
| Stats (stats : stats_table)
| Error (e : exn)
| Cancelled.

Global Instance message_eq_dec : EqDecision message.
Proof. solve_decision. Defined.

(** The observable state: the output so far, the directories made, the
    archives on disk (path to entry names, in the order written), and
    [pending_sigint], the number of checkpoints the run still passes
    before a Ctrl-C reaches it ([None]: no Ctrl-C). *)
Record world : Type := {
  stdout : list message;
  made_dirs : list string;
  archives : gmap string (list string);
  pending_sigint : option nat
}.

Definition M (A : Type) : Type := world → result A * world.

Global Instance M_ret : MRet M := λ A a w, (Ok a, w).
Global Instance M_bind : MBind M := λ A B f m w,
  match m w with
  | (Ok a, w') => f a w'
  | (Raise e, w') => (Raise e, w')
  end.

Definition raise {A} (e : exn) : M A := λ w, (Raise e, w).

(** A result computed without effects, run inside [M]. *)
Definition lift {A} (r : result A) : M A := λ w, (r, w).

Definition print (msg : message) : M unit := λ w,
  (Ok (), {| stdout := stdout w ++ [msg]; made_dirs := made_dirs w;
             archives := archives w; pending_sigint := pending_sigint w |}).

(** A point at which the interpreter delivers a pending signal. *)
Definition checkpoint : M unit := λ w,
  match pending_sigint w with
  | None => (Ok (), w)
  | Some (S k) =>
      (Ok (), {| stdout := stdout w; made_dirs := made_dirs w;
                 archives := archives w; pending_sigint := Some k |})
  | Some O =>
      (Raise KeyboardInterrupt,
       {| stdout := stdout w; made_dirs := made_dirs w;
          archives := archives w; pending_sigint := None |})
  end.

(** [sys.exit(code)] *)
Definition sys_exit {A} (code : Z) : M A := raise (SystemExit code).

(** [try: m  except Exception as e: h e] *)
Definition try_except_Exception {A} (m : M A) (h : exn → M A) : M A := λ w,
  match m w with
  | (Raise e, w') => if is_Exception e then h e w' else (Raise e, w')
  | r => r
  end.

(** [try: m  except KeyboardInterrupt: h] *)
Definition try_except_KeyboardInterrupt {A} (m : M A) (h : M A) : M A := λ w,
  match m w with
  | (Raise KeyboardInterrupt, w') => h w'
  | r => r
  end.

(** [for x in l: s = body x s] *)
Fixpoint for_each {A S} (body : A → S → M S) (l : list A) (s : S) : M S :=
  match l with
  | [] => mret s
  | x :: l' => s' ← body x s; for_each body l' s'
  end.

(** [p.parent.mkdir(parents=True, exist_ok=True)], taken to succeed.
    [made_dirs] records the directory each call is made on; the missing
    ancestors that [parents=True] makes with it are not listed. *)
Definition mkdir (p : Path) : M unit := λ w,
  (Ok (), {| stdout := stdout w; made_dirs := made_dirs w ++ [Path_str p];
             archives := archives w; pending_sigint := pending_sigint w |}).

(** [zipfile.ZipFile(zip_path, 'w', ...)], taken to succeed: a new, empty
    archive in the place of whatever was there. *)
Definition ZipFile_w (zip_path : Path) : M unit := λ w,
  (Ok (), {| stdout := stdout w; made_dirs := made_dirs w;
             archives := <[Path_str zip_path := []]> (archives w);
             pending_sigint := pending_sigint w |}).

Definition append_entry (zip_path : Path) (entry : string) : M unit := λ w,
  (Ok (), {| stdout := stdout w; made_dirs := made_dirs w;
             archives := <[Path_str zip_path :=
                            default [] (archives w !! Path_str zip_path) ++ [entry]]>
                         (archives w);
             pending_sigint := pending_sigint w |}).

Section run.
Variable ENV : env.
Variable source_dir : string.

(** The node a path under [source_dir] names. *)
Definition fs_lookup (p : Path) : option node :=
  match relative_to p source_dir, source ENV with
  | Ok rel, Some src => resolve src (segments rel)
  | _, _ => None
  end.

(** [p.stat().st_size]; a directory counts one block. *)
Definition stat_size (p : Path) : M Z :=
  match fs_lookup p with
  | Some (File _ sz _) => mret sz
  | Some (Dir _ _) => mret 4096
  | None => raise (FileNotFoundError (Path_str p))
  end.

(** [zipf.write(file_path, arcname)] *)
Definition zipf_write (zip_path file_path arcname : Path) : M unit :=
  match fs_lookup file_path with
  | Some (File _ _ true) => append_entry zip_path (zip_arcname (Path_str arcname))
  | Some (File _ _ false) => raise (PermissionError (Path_str file_path))
  | Some (Dir _ _) => append_entry zip_path (zip_arcname (Path_str arcname) +:+ "/")
  | None => raise (FileNotFoundError (Path_str file_path))
  end.

End run.

(** ** [os.walk]

    The generator yields [(top, dirs, files)] and, once the loop body
    has run, descends into the directories still listed in [dirs]: the
    body hands back the list as it left it.  A [top] that cannot be
    scanned yields nothing ([onerror] is [None]). *)
Section walk.
Context {S : Type}.
Variable body : string → list string → list string → S → M (list string * S).

Fixpoint os_walk (top : string) (n : node) (s : S) {struct n} : M S :=
  match n with
  | File _ _ _ => mret s
  | Dir _ es =>
      '(dirs, s1) ← body top (omap dir_name es) (omap file_name es) s;
      (fix each (ds : list string) (s : S) {struct ds} : M S :=
         match ds with
         | [] => mret s
         | d :: ds' =>
             s' ← (fix find (es : list node) {struct es} : M S :=
                     match es with
                     | [] => mret s
                     | child :: es' =>
                         if String.eqb (node_name child) d
                         then os_walk (os_path_join top d) child s
                         else find es'
                     end) es;
             each ds' s'
         end) dirs s1
  end.
End walk.

(** ** [create_zip] *)

(** One file of the discovery loop. *)
Definition discover_file (ENV : env) (source_dir : string) (E : gset string)
    (root file : string) (s : list Path * Z) : M (list Path * Z) :=
  let '(file_paths, total_size) := s in
  checkpoint;;
  if bool_decide (file ∉ E) then
    let path := Path_div (Path_of root) file in
    let file_paths := file_paths ++ [path] in
    sz ← stat_size ENV source_dir path;
    print (Found (length file_paths));;
    mret (file_paths, total_size + sz)
  else mret (file_paths, total_size).

(** The body of [for root, dirs, files in os.walk(source_dir)]; the first
    component of the result is [dirs] after [dirs[:] = ...]. *)
Definition discover_step (ENV : env) (source_dir : string) (E : gset string)
    (root : string) (dirs files : list string) (s : list Path * Z)
  : M (list string * (list Path * Z)) :=
  checkpoint;;
  s' ← for_each (discover_file ENV source_dir E root) files s;
  mret (filter (λ d, d ∉ E) dirs, s').

(** The discovery phase: the files found, in order, and their total size. *)
Definition discover (ENV : env) (source_dir : string) (E : gset string)
  : M (list Path * Z) :=
  match source ENV with
  | Some src => os_walk (discover_step ENV source_dir E) source_dir src ([], 0)
  | None => mret ([], 0)
  end.

(** [custom_name or Path(source_dir).name] *)
Definition base_name (custom_name : option string) (source_dir : string) : string :=
  match custom_name with
  | Some name => if String.eqb name "" then Path_name (Path_of source_dir) else name
  | None => Path_name (Path_of source_dir)
  end.

(** [t.strftime("%Y%m%d_%H%M%S")], for a four-digit year. *)
Definition strftime (t : datetime) : string :=
  zfill 4 (pretty (year t)) +:+ zfill 2 (pretty (month t)) +:+
  zfill 2 (pretty (day t)) +:+ "_" +:+ zfill 2 (pretty (hour t)) +:+
  zfill 2 (pretty (minute t)) +:+ zfill 2 (pretty (second t)).

Definition zip_filename (base : string) (use_timestamp : bool) (t : datetime)
  : string :=
  if use_timestamp then base +:+ "_" +:+ strftime t +:+ ".zip"
  else base +:+ ".zip".

(** [Path(output_path) / zip_filename] *)
Definition zip_path_of (source_dir output_path : string)
    (custom_name : option string) (use_timestamp : bool) (t : datetime) : Path :=
  Path_div (Path_of output_path)
    (zip_filename (base_name custom_name source_dir) use_timestamp t).

(** One file of the compression loop; [i] counts from 1. *)
Definition write_file (ENV : env) (source_dir : string) (zip_path : Path)
    (total : nat) (file_path : Path) (i : nat) : M nat :=
  checkpoint;;
  rel_path ← lift (relative_to file_path source_dir);
  zipf_write ENV source_dir zip_path file_path rel_path;;
  print (Compressing i total (Path_str rel_path));;
  mret (S i).

(** [str(v)] for a value that is a string or [None]. *)
Definition str_or_None (v : option string) : string := default "None" v.

(** The [stats] dictionary; its values are computed in this order. *)
Definition make_stats (ENV : env) (source_dir : string) (file_paths : list Path)
    (total_size : Z) : result stats_table :=
  let zip_size := zip_st_size ENV in
  original ← human_size total_size;
  compressed ← human_size zip_size;
  ratio ← compression_ratio zip_size total_size;
  Ok [("Source Directory", Path_name (Path_of source_dir));
      ("Total Files", pretty (length file_paths));
      ("Original Size", str_or_None original);
      ("Compressed Size", str_or_None compressed);
      ("Compression Ratio", ratio);
      ("Processing Time", Float.format_f 2 (elapsed ENV) +:+ "s")].

Definition create_zip (ENV : env) (source_dir output_path : string)
    (custom_name : option string) (exclude : option (list string))
    (use_timestamp : bool) : M unit :=
  let E := exclude_patterns exclude in
  print Discovering;;
  '(file_paths, total_size) ← discover ENV source_dir E;
  (if bool_decide (file_paths = []) then print NoFilesFound;; sys_exit 1
   else mret ());;
  let zip_path :=
    zip_path_of source_dir output_path custom_name use_timestamp (now ENV) in
  mkdir (Path_parent zip_path);;
  try_except_Exception
    (print StartingCompression;;
     ZipFile_w zip_path;;
     for_each (write_file ENV source_dir zip_path (length file_paths)) file_paths 1%nat;;
     stats ← lift (make_stats ENV source_dir file_paths total_size);
     print (Created (Path_str zip_path));;
     print (Stats stats))
    (λ e, print (Error e);; sys_exit 1).

(** ** [main] and the script's top level *)

(** The namespace [parse_args] returns. *)
Record args : Type := {
  arg_source : string;
  arg_output : string;
  arg_name : option string;
  arg_exclude : string;
  arg_no_timestamp : bool
}.

(** [args.exclude.split(',') if args.exclude else []] *)
Definition parse_exclude (exclude : string) : list string :=
  if String.eqb exclude "" then [] else str_split "," exclude.

(** [main] from the point where [parse_args] has returned the namespace
    [a]; the exits of [argparse] itself (a command line it refuses, [-h])
    come before that point. *)
Definition main (ENV : env) (a : args) : M unit :=
  print Banner;;
  create_zip ENV (arg_source a) (arg_output a) (arg_name a)
    (Some (parse_exclude (arg_exclude a))) (negb (arg_no_timestamp a)).

(** The [if __name__ == "__main__"] block. *)
Definition script (ENV : env) (a : args) : M unit :=
  try_except_KeyboardInterrupt (main ENV a) (print Cancelled;; sys_exit 0).

(** The status the interpreter exits with. *)
Definition exit_code (r : result unit) : Z :=
  match r with
  | Ok _ => 0
  | Raise (SystemExit code) => code
  | Raise _ => 1
  end.

(** A world before the run: nothing printed, the archives [disk] already
    there, and a Ctrl-C due after [sigint] checkpoints, if any. *)
Definition initial (disk : gmap string (list string)) (sigint : option nat) : world :=
  {| stdout := []; made_dirs := []; archives := disk; pending_sigint := sigint |}.

Definition run (ENV : env) (a : args) (w : world) : Z * world :=
  let '(r, w') := script ENV a w in (exit_code r, w').

(** ** Specification-side definitions *)

(** A name [os.scandir] can return: not empty, not a dot entry, no slash. *)
Definition proper_name (x : string) : bool :=
  negb (String.eqb x "") && negb (String.eqb x ".") &&
  negb (String.eqb x "..") && negb (contains "/" x).

(** Proper names, and no name twice in one directory. *)
Fixpoint wf_node (n : node) : bool :=
  match n with
  | File name _ _ => proper_name name
  | Dir name es =>
      proper_name name && forallb wf_node es &&
      bool_decide (NoDup (map node_name es))
  end.

(** Whether the node that [source_dir] names is a well-formed tree; the
    name of the root itself is not looked at. *)
Definition wf_source (src : option node) : bool :=
  match src with
  | Some (Dir _ es) => forallb wf_node es && bool_decide (NoDup (map node_name es))
  | _ => true
  end.

(** What the discovery loop meets, in order: a directory yielded by
    [os.walk], or one of its file names. *)
Inductive event : Type :=
| Yield
| Entry (root file : string).

(** The events of walking [n] as [top] when the loop body keeps the
    directories that [keep] accepts. *)
Fixpoint walk_events (keep : string → bool) (top : string) (n : node)
  : list event :=
  match n with
  | File _ _ _ => []
  | Dir _ es =>
      Yield :: map (Entry top) (omap file_name es) ++
      (fix each (ds : list string) : list event :=
         match ds with
         | [] => []
         | d :: ds' =>
             (fix find (es : list node) : list event :=
                match es with
                | [] => []
                | child :: es' =>
                    if String.eqb (node_name child) d
                    then walk_events keep (os_path_join top d) child
                    else find es'
                end) es ++ each ds'
         end) (filter (λ d, keep d = true) (omap dir_name es))
  end.

(** What the discovery loop does at one event. *)
Definition visit (ENV : env) (source_dir : string) (E : gset string)
    (ev : event) (s : list Path * Z) : M (list Path * Z) :=
  match ev with
  | Yield => checkpoint;; mret s
  | Entry root file => discover_file ENV source_dir E root file s
  end.

(** The loop body's pruning, as a test on one directory name. *)
Definition kept (E : gset string) (d : string) : bool := bool_decide (d ∉ E).

(** The events below the directory [d] of a listing. *)
Definition walk_child (keep : string → bool) (top : string) (es : list node)
    (d : string) : list event :=
  match find_child d es with
  | Some child => walk_events keep (os_path_join top d) child
  | None => []
  end.

(** The descent of [os.walk] into the directory [d] of a listing. *)
Definition walk_into {S : Type}
    (body : string → list string → list string → S → M (list string * S))
    (top : string) (es : list node) (d : string) (s : S) : M S :=
  match find_child d es with
  | Some child => os_walk body (os_path_join top d) child s
  | None => mret s
  end.

(** The double 1024.0. *)
Definition f1024 : spec_float := S754_finite false 4503599627370496 (-42).

(** The double of [n * 2^-t], for [0 < n < 2^53]: the mantissa of [n]
    shifted left to 53 bits. *)
Definition aligned (n t : Z) : spec_float :=
  S754_finite false (Z.to_pos (n * 2 ^ (53 - Zdigits2 n))) (Zdigits2 n - 53 - t).

(** A computation through which a pending Ctrl-C can only disappear by
    being raised. *)
Definition ki_safe {A} (m : M A) : Prop :=
  ∀ w r w', m w = (r, w') → is_Some (pending_sigint w) →
    pending_sigint w' = None → r = Raise KeyboardInterrupt.

(** A computation every step of which relates the worlds by [R]. *)
Definition preserves {A} (R : relation world) (m : M A) : Prop :=
  ∀ w r w', m w = (r, w') → R w w'.

(** The disk is as it was. *)
Definition same_disk : relation world := λ w w',
  archives w' = archives w ∧ made_dirs w' = made_dirs w.

(** No Ctrl-C appears from nowhere. *)
Definition calm : relation world := λ w w',
  pending_sigint w = None → pending_sigint w' = None.

(** An archive that exists keeps existing. *)
Definition keeps (zip_path : string) : relation world := λ w w',
  is_Some (archives w !! zip_path) → is_Some (archives w' !! zip_path).

(** The path [rel] below the source directory. *)
Definition below (source_dir : string) (rel : list string) : Path :=
  {| anchor := anchor (Path_of source_dir);
     segments := segments (Path_of source_dir) ++ rel |}.

(** A directory whose entries are well formed and differently named. *)
Definition wf_dir (n : node) : bool :=
  match n with
  | Dir _ es => forallb wf_node es && bool_decide (NoDup (map node_name es))
  | File _ _ _ => true
  end.

(** The path the discovery loop appends at an event, if any. *)
Definition entry_path (E : gset string) (ev : event) : option Path :=
  match ev with
  | Entry root file =>
      if kept E file then Some (Path_div (Path_of root) file) else None
  | Yield => None
  end.

(** The relative paths of the files of [n] that no pattern of [E]
    excludes: the files of a directory first, then directory by directory. *)
Fixpoint found (E : gset string) (n : node) : list (list string) :=
  match n with
  | File _ _ _ => []
  | Dir _ es =>
      map (λ f, [f]) (filter (λ f, kept E f = true) (omap file_name es)) ++
      flat_map (λ c, match c with
                     | Dir d _ => if kept E d then map (cons d) (found E c) else []
                     | File _ _ _ => []
                     end) es
  end.

(** Whether every file of the tree can be opened for reading. *)
Fixpoint readable_node (n : node) : bool :=
  match n with
  | File _ _ r => r
  | Dir _ es => forallb readable_node es
  end.

Definition readable_source (src : option node) : bool :=
  match src with Some n => readable_node n | None => true end.

(** A clock reading with a four-digit year. *)
Definition valid_datetime (t : datetime) : Prop :=
  1000 ≤ year t ≤ 9999 ∧ 1 ≤ month t ≤ 12 ∧ 1 ≤ day t ≤ 31 ∧
  0 ≤ hour t ≤ 23 ∧ 0 ≤ minute t ≤ 59 ∧ 0 ≤ second t ≤ 59.

Definition is_digit (c : Ascii.ascii) : bool :=
  (48 <=? Ascii.nat_of_ascii c)%nat && (Ascii.nat_of_ascii c <=? 57)%nat.

Fixpoint all_digits (s : string) : bool :=
  match s with
  | EmptyString => true
  | String c s' => is_digit c && all_digits s'
  end.

(** The world in which discovery starts: the banner and the first
    message are out, nothing else has happened. *)
Definition discovering (disk : gmap string (list string)) (sigint : option nat)
  : world :=
  {| stdout := [Banner; Discovering]; made_dirs := []; archives := disk;
     pending_sigint := sigint |}.

(** The exclusion set that [main] hands to the discovery. *)
Definition main_patterns (a : args) : gset string :=
  exclude_patterns (Some (parse_exclude (arg_exclude a))).

(** The archive path of a run. *)
Definition main_zip_path (ENV : env) (a : args) : Path :=
  zip_path_of (arg_source a) (arg_output a) (arg_name a)
    (negb (arg_no_timestamp a)) (now ENV).

(** The double that [human_size] holds after [k] divisions by 1024
    ([1 <= k]): an int division first, float divisions after it. *)
Definition divided (n : Z) (k : nat) : spec_float :=
  Nat.iter (k - 1) (λ x, SFdiv Float.prec Float.emax x f1024)
    (SFdiv Float.prec Float.emax (Float.exact_int n) (Float.exact_int 1024)).

(** ** Sample inputs *)

Module Sample.

Definition clock : datetime :=
  {| year := 2024; month := 1; day := 2; hour := 3; minute := 4; second := 5 |}.

Definition env_of (src : option node) (zip_size : Z) : env :=
  {| source := src; now := clock; zip_st_size := zip_size;
     elapsed := S754_finite false 1 (-2) |}.

(** [a.txt] of 10 bytes beside [.git/config] and [node_modules/x.js]. *)
Definition project : node :=
  Dir "proj"
    [File "a.txt" 10 true;
     Dir ".git" [File "config" 5 true];
     Dir "node_modules" [File "x.js" 5 true];
     Dir "src" [File "main.py" 2000 true; File "b" 3 true]].

(** Nothing but excluded entries. *)
Definition only_excluded : node :=
  Dir "proj" [File ".env" 7 true; Dir ".git" [File "config" 5 true]].

(** One empty file. *)
Definition one_empty_file : node := Dir "proj" [File "empty" 0 true].

(** Names that contain a default pattern without being one. *)
Definition lookalikes : node :=
  Dir "proj"
    [File "notes.zip" 4 true; File ".zip" 4 true;
     Dir ".github_old" [File "x" 1 true]; Dir ".github" [File "y" 1 true]].

Definition arguments (exclude : string) (no_timestamp : bool) : args :=
  {| arg_source := "/home/u/proj"; arg_output := "out"; arg_name := None;
     arg_exclude := exclude; arg_no_timestamp := no_timestamp |}.

End Sample.

(** ** Further specification-side definitions *)

(** The size that [stat] reports for the path [rel] below the node [n]. *)
Definition size_at (n : node) (rel : list string) : Z :=
  match resolve n rel with
  | Some (File _ sz _) => sz
  | Some (Dir _ _) => 4096
  | None => 0
  end.

(** The same, for a path of the run. *)
Definition st_size_of (ENV : env) (source_dir : string) (p : Path) : Z :=
  match fs_lookup ENV source_dir p with
  | Some (File _ sz _) => sz
  | Some (Dir _ _) => 4096
  | None => 0
  end.

Definition sum_sizes (l : list Z) : Z := foldr Z.add 0 l.

(** The world [w] once the messages [msgs] are out. *)
Definition said (msgs : list message) (w : world) : world :=
  {| stdout := stdout w ++ msgs; made_dirs := made_dirs w;
     archives := archives w; pending_sigint := pending_sigint w |}.

(** The spinner lines [Found (k+1)], ..., [Found (k+n)]. *)
Definition counters (k n : nat) : list message := map Found (seq (S k) n).

(** Whether [rel] names a file below [n] that can be opened for reading. *)
Definition readable_at (n : node) (rel : list string) : bool :=
  match resolve n rel with
  | Some (File _ _ r) => r
  | _ => false
  end.

(** The progress lines of the files [rels], the first of them numbered [i]. *)
Fixpoint progress_lines (total i : nat) (rels : list (list string))
  : list message :=
  match rels with
  | [] => []
  | rel :: rels' =>
      Compressing i total (str_join "/" rel) :: progress_lines total (S i) rels'
  end.

(** Nothing is written but the archive [zip_path] and the directory [dir]. *)
Definition confined (zip_path dir : string) : relation world := λ w w',
  (∀ p, p ≠ zip_path → archives w' !! p = archives w !! p) ∧
  ∃ n, made_dirs w' = made_dirs w ++ replicate n dir.

(** ** Further sample inputs *)

Module Cases.

(** [b.txt] cannot be opened for reading. *)
Definition locked : node :=
  Dir "proj"
    [File "a.txt" 10 true; File "b.txt" 20 false; File "c.txt" 30 true].

(** A file that cannot be opened, inside a directory that is excluded. *)
Definition locked_git : node :=
  Dir "proj"
    [File "a.txt" 10 true; Dir ".git" [File "config" 5 false];
     Dir "src" [File "main.py" 2000 true]].

(** New Year's Eve, one second before midnight. *)
Definition eve : datetime :=
  {| year := 1999; month := 12; day := 31; hour := 23; minute := 59;
     second := 59 |}.

End Cases.

(** A result that is not a [SystemExit], or is [SystemExit 1]. *)
Definition exits_1 {A} (r : result A) : Prop :=
  ∀ c, r = Raise (SystemExit c) → c = 1.

(** A computation that can only end the program with status 1. *)
Definition exits_with_1 {A} (m : M A) : Prop := ∀ w, exits_1 (m w).1.

(** A result that, when it raises, raises an [Exception]. *)
Definition raises_Exception {A} (r : result A) : Prop :=
  ∀ e, r = Raise e → is_Exception e = true.

(** ** [FancyPrinter.print_stats]

    The lines of the table, without the colour codes: the title, a rule
    of so many copies of the rule character, and one row per entry with
    the blanks before the key and before the value. *)
Inductive stats_line : Type :=
| Title
| Rule (width : Z)
| Row (key_padding : Z) (key : string) (value_padding : Z) (value : string).

(** [len(s)] *)
Definition len (s : string) : Z := Z.of_nat (String.length s).

(** [max(xs)]: [ValueError] when there is nothing to compare. *)
Definition py_max (xs : list Z) : result Z :=
  match xs with
  | [] => Raise ValueError
  | x :: xs' => Ok (foldl Z.max x xs')
  end.

Definition print_stats (stats : stats_table) : result (list stats_line) :=
  let clean_stats := map (λ kv, (kv.1, len kv.1)) stats in
  max_key_len ← py_max (map snd clean_stats);
  max_value_len ← py_max (map (λ kv, len kv.2) stats);
  let key_column_width := max_key_len + 2 in
  let value_column_width := max_value_len + 2 in
  Ok ([Title; Rule (key_column_width + value_column_width + 1)] ++
      map (λ kv, let key_padding := key_column_width - (len kv.1 + 1) in
                 let value_padding := value_column_width - len kv.2 in
                 Row key_padding kv.1 value_padding kv.2) stats ++
      [Rule (key_column_width + value_column_width + 1)]).

(** [' ' * n]: nothing for a negative [n]. *)
Definition spaces (n : Z) : string := Nat.iter (Z.to_nat n) (String " ") "".

(** A row as the terminal shows it. *)
Definition row_text (l : stats_line) : string :=
  match l with
  | Row key_padding key value_padding value =>
      spaces key_padding +:+ key +:+ ":" +:+ spaces value_padding +:+ value
  | _ => ""
  end.

(** A row whose colon is in column [kw] and whose value ends in column
    [kw + vw], for the entry [kv]. *)
Definition aligned_row (kw vw : Z) (kv : string * string) (l : stats_line) : Prop :=
  ∃ kp vp, l = Row kp kv.1 vp kv.2 ∧ 1 ≤ kp ∧ 2 ≤ vp ∧
           kp + len kv.1 + 1 = kw ∧ vp + len kv.2 = vw ∧
           len (row_text l) = kw + vw.

(** ** [FancyPrinter.progress_bar] *)

(** [int(x)]: the integer part, towards zero. *)
Definition py_int (x : spec_float) : result Z :=
  match x with
  | S754_zero _ => Ok 0
  | S754_finite s m e =>
      Ok (cond_Zopp s (if 0 <=? e then Zpos m * 2 ^ e else Zpos m / 2 ^ (- e)))
  | S754_infinity _ => Raise OverflowError
  | S754_nan => Raise ValueError
  end.

(** A string that holds characters beyond the first 256: the list of its
    code points. *)
Definition ustr : Type := list Z.

(** [n * s]: nothing for a negative [n]. *)
Definition ustr_mul (n : Z) (s : ustr) : ustr := concat (replicate (Z.to_nat n) s).

(** The two literals of [progress_bar] as the file holds them: three
    code points each. *)
Definition bar_rule : ustr := [226; 8221; 8364].
Definition bar_head : ustr := [226; 8211; 182].

(** The bar between the colour codes, and the percentage after them. *)
Record progress : Type := { bar : ustr; percent : string }.

Definition progress_bar (current total bar_length : Z) : result progress :=
  fraction ← Float.int_truediv current total;
  width ← Float.of_int bar_length;
  one ← Float.of_int 1;
  k ← py_int (Float.sub (Float.mul fraction width) one);
  let arrow := ustr_mul k bar_rule ++ bar_head in
  let padding := ustr_mul (bar_length - Z.of_nat (length arrow)) bar_rule in
  hundred ← Float.of_int 100;
  Ok {| bar := arrow ++ padding;
        percent := Float.format_f 0 (Float.mul fraction hundred) +:+ "%" |}.

(** Whether [zipf.write] can open the path [p] of the run: a file that
    can be read, or a directory. *)
Definition can_open (ENV : env) (source_dir : string) (p : Path) : bool :=
  match fs_lookup ENV source_dir p with
  | Some (File _ _ r) => r
  | Some (Dir _ _) => true
  | None => false
  end.

(** The number that a string of decimal digits writes. *)
Definition digit_value (c : Ascii.ascii) : Z := Z.of_nat (Ascii.nat_of_ascii c) - 48.

Fixpoint decimal_from (acc : Z) (s : string) : Z :=
  match s with
  | EmptyString => acc
  | String c s' => decimal_from (10 * acc + digit_value c) s'
  end.

Definition decimal (s : string) : Z := decimal_from 0 s.

(** A string of [width] decimal digits that writes the number [n]. *)
Definition writes (width : nat) (n : Z) (s : string) : Prop :=
  String.length s = width ∧ all_digits s = true ∧ decimal s = n.

(** Whether a double is a number: a zero or a finite value. *)
Definition is_number (x : spec_float) : bool :=
  match x with
  | S754_zero _ | S754_finite _ _ _ => true
  | _ => false
  end.

(** A computation that does not leave through [sys.exit]. *)
Definition never_exits {A} (m : M A) : Prop :=
  ∀ w c, (m w).1 ≠ Raise (SystemExit c).

Section FloatFacts.

Lemma Zdigits2_log2 n : 0 < n → Zdigits2 n = Z.log2 n + 1.
Proof.
destruct n as [|p|p]; try lia. intros _. simpl.
assert (H : ∀ q, Zpos (digits2_pos q) = Zpos (Pos.size q)).
{ induction q; simpl; rewrite ?Pos2Z.inj_succ; congruence. }
destruct p; simpl; rewrite ?Pos2Z.inj_succ, ?H; lia.
Qed.

Lemma Zdigits2_unique n d : 0 < d → 2 ^ (d - 1) ≤ n < 2 ^ d → Zdigits2 n = d.
Proof.
intros Hd Hn. assert (0 < n) by (pose proof (Z.pow_pos_nonneg 2 (d - 1)); lia).
rewrite Zdigits2_log2 by done.
rewrite (Z.log2_unique n (d - 1)); [lia|lia|].
unfold Z.succ. by replace (d - 1 + 1) with d by lia.
Qed.

Lemma Zdigits2_bounds n : 0 < n → 2 ^ (Zdigits2 n - 1) ≤ n < 2 ^ Zdigits2 n.
Proof.
intros Hn. rewrite Zdigits2_log2 by done.
replace (Z.log2 n + 1 - 1) with (Z.log2 n) by lia.
apply Z.log2_spec; lia.
Qed.

Lemma iter_pos_nat {A} (f : A → A) p x :
SpecFloat.iter_pos f p x = Nat.iter (Pos.to_nat p) f x.
Proof.
revert x. induction p as [p IH|p IH|]; intros x.
- rewrite Pos2Nat.inj_xI. cbn [SpecFloat.iter_pos]. rewrite !IH.
  replace (S (2 * Pos.to_nat p))%nat
    with (Pos.to_nat p + (Pos.to_nat p + 1))%nat by lia.
  by rewrite !Nat.iter_add.
- rewrite Pos2Nat.inj_xO. cbn [SpecFloat.iter_pos]. rewrite !IH.
  replace (2 * Pos.to_nat p)%nat with (Pos.to_nat p + Pos.to_nat p)%nat by lia.
  by rewrite Nat.iter_add.
- reflexivity.
Qed.

Lemma shr_1_m mrs : 0 ≤ shr_m mrs → shr_m (shr_1 mrs) = shr_m mrs / 2.
Proof.
destruct mrs as [m r s]. simpl. intros Hm.
rewrite <- Z.div2_div. destruct m as [|[p|p|]|p]; simpl; lia.
Qed.

Lemma iter_shr_1_m k mrs :
0 ≤ shr_m mrs → shr_m (Nat.iter k shr_1 mrs) = shr_m mrs / 2 ^ Z.of_nat k.
Proof.
intros Hm. induction k as [|k IH].
- simpl. by rewrite Z.div_1_r.
- rewrite Nat2Z.inj_succ, Z.pow_succ_r by lia. simpl.
  rewrite shr_1_m; rewrite IH.
  + rewrite Z.div_div by lia. f_equal. lia.
  + apply Z.div_pos; lia.
Qed.

Lemma iter_shr_1_exact k m :
0 < m →
Nat.iter k shr_1 (Build_shr_record (m * 2 ^ Z.of_nat k) false false)
= Build_shr_record m false false.
Proof.
intros Hm. induction k as [|k IH].
- simpl. f_equal. lia.
- rewrite Nat.iter_succ_r.
  rewrite Nat2Z.inj_succ, Z.pow_succ_r by lia.
  assert (Hk : 0 < m * 2 ^ Z.of_nat k) by lia.
  replace (m * (2 * 2 ^ Z.of_nat k)) with (2 * (m * 2 ^ Z.of_nat k)) by lia.
  destruct (m * 2 ^ Z.of_nat k) as [|p|p] eqn:E; try lia.
  simpl shr_1. exact IH.
Qed.

Lemma shr_record_of_loc_m m l : shr_m (shr_record_of_loc m l) = m.
Proof. by destruct l as [|[]]. Qed.

Lemma shr_shift mrs e k :
0 ≤ k → 0 ≤ shr_m mrs →
∃ mrs', shr mrs e k = (mrs', e + k) ∧ shr_m mrs' = shr_m mrs / 2 ^ k.
Proof.
intros Hk Hm. destruct k as [|p|p]; [| |lia].
- exists mrs. simpl. split; [f_equal; lia|by rewrite Z.div_1_r].
- eexists. split; [reflexivity|].
  rewrite iter_pos_nat, iter_shr_1_m by done. by rewrite positive_nat_Z.
Qed.

Lemma shr_exact m e k :
0 ≤ k → 0 < m →
shr (Build_shr_record (m * 2 ^ k) false false) e k
= (Build_shr_record m false false, e + k).
Proof.
intros Hk Hm. destruct k as [|p|p]; [| |lia].
- simpl. f_equal; [f_equal; lia|lia].
- unfold shr. f_equal. rewrite iter_pos_nat.
  rewrite <- (positive_nat_Z p). by apply iter_shr_1_exact.
Qed.

Lemma round_nearest_even_cases m l :
round_nearest_even m l = m ∨ round_nearest_even m l = m + 1.
Proof. destruct l as [|[]]; simpl; destruct (Z.even m); auto. Qed.

(** Rounding a mantissa of [53 + k] bits in the normal range: the result
  has a 53-bit mantissa and the exponent moves up by [k], or by [k + 1]
  when rounding carries into a 54th bit; past the largest exponent the
  result is an infinity. *)
Lemma binary_round_aux_normal s m e l k :
0 < m → 0 ≤ k → Zdigits2 m = 53 + k → -1074 ≤ e + k →
∃ m' e', Zpos (digits2_pos m') = 53 ∧ e + k ≤ e' ≤ e + k + 1 ∧
  binary_round_aux 53 1024 s m e l
  = if e' <=? 971 then S754_finite s m' e' else S754_infinity s.
Proof.
intros Hm Hk Hd He.
pose proof (Zdigits2_bounds m Hm) as Hb. rewrite Hd in Hb.
replace (53 + k - 1) with (52 + k) in Hb by lia.
rewrite !Z.pow_add_r in Hb by lia.
assert (H2k : 0 < 2 ^ k) by (apply Z.pow_pos_nonneg; lia).
unfold binary_round_aux.
destruct (shr_fexp 53 1024 m e l) as [mrs1 e1] eqn:E1.
unfold shr_fexp in E1. rewrite Hd in E1.
replace (fexp 53 1024 (53 + k + e) - e) with k in E1
  by (unfold fexp, emin; lia).
destruct (shr_shift (shr_record_of_loc m l) e k) as (mrs & E & Hmrs);
  [done|rewrite shr_record_of_loc_m; lia|].
rewrite shr_record_of_loc_m in Hmrs.
rewrite E in E1. injection E1 as Hm1 He1. subst mrs1 e1.
assert (H1 : 2 ^ 52 ≤ shr_m mrs < 2 ^ 53).
{ rewrite Hmrs. split.
  - apply Z.div_le_lower_bound; lia.
  - apply Z.div_lt_upper_bound; lia. }
set (m2 := round_nearest_even (shr_m mrs) (loc_of_shr_record mrs)).
assert (H2 : 2 ^ 52 ≤ m2 ≤ 2 ^ 53).
{ destruct (round_nearest_even_cases (shr_m mrs) (loc_of_shr_record mrs));
    unfold m2; lia. }
destruct (decide (m2 = 2 ^ 53)) as [->|Hne].
- exists (Z.to_pos (2 ^ 52)), (e + k + 1). split; [done|]. split; [lia|].
  unfold shr_fexp.
  replace (fexp 53 1024 (Zdigits2 (2 ^ 53) + (e + k)) - (e + k)) with 1
    by (change (Zdigits2 (2 ^ 53)) with 54; unfold fexp, emin; lia).
  reflexivity.
- assert (Zdigits2 m2 = 53) as Hd2 by (apply Zdigits2_unique; lia).
  destruct m2 as [|p|p] eqn:Em2; [lia| |lia].
  exists p, (e + k). split; [done|]. split; [lia|].
  unfold shr_fexp. rewrite Hd2.
  replace (fexp 53 1024 (53 + (e + k)) - (e + k)) with 0
    by (unfold fexp, emin; lia).
  reflexivity.
Qed.

(** The exact case: a 53-bit mantissa followed by [k] zero bits. *)
Lemma binary_round_aux_exact s m e k :
0 ≤ k → Zpos (digits2_pos m) = 53 → -1074 ≤ e + k ≤ 971 →
binary_round_aux 53 1024 s (Zpos m * 2 ^ k) e loc_Exact
= S754_finite s m (e + k).
Proof.
intros Hk Hd He.
pose proof (Zdigits2_bounds (Zpos m) eq_refl) as Hb.
change (Zdigits2 (Zpos m)) with (Zpos (digits2_pos m)) in Hb. rewrite Hd in Hb.
assert (H2k : 0 < 2 ^ k) by (apply Z.pow_pos_nonneg; lia).
assert (Hdk : Zdigits2 (Zpos m * 2 ^ k) = 53 + k).
{ apply Zdigits2_unique; [lia|].
  replace (53 + k - 1) with (52 + k) by lia.
  rewrite !Z.pow_add_r by lia. nia. }
unfold binary_round_aux, shr_fexp. rewrite Hdk.
replace (fexp 53 1024 (53 + k + e) - e) with k by (unfold fexp, emin; lia).
cbn [shr_record_of_loc]. rewrite shr_exact by lia.
cbn [shr_m loc_of_shr_record round_nearest_even].
change (Zdigits2 (Zpos m)) with (Zpos (digits2_pos m)). rewrite Hd.
replace (fexp 53 1024 (53 + (e + k)) - (e + k)) with 0
  by (unfold fexp, emin; lia).
cbn [shr shr_record_of_loc shr_m].
replace (e + k <=? 1024 - 53) with true by lia. done.
Qed.

Lemma div_eucl_div_mod a b : Z.div_eucl a b = (a / b, a mod b).
Proof. unfold Z.div, Z.modulo. by destruct (Z.div_eucl a b). Qed.

Lemma new_location_0 n : new_location n 0 = loc_Exact.
Proof. unfold new_location. by destruct (Z.even n). Qed.

(** The quotient and the exponent that [SFdiv] hands to the rounding. *)
Lemma SFdiv_core_binary_eq m1 e1 m2 e2 :
let e' := Z.min (fexp 53 1024 (Zdigits2 m1 + e1 - (Zdigits2 m2 + e2))) (e1 - e2) in
let s := e1 - e2 - e' in
SFdiv_core_binary 53 1024 m1 e1 m2 e2
= (m1 * 2 ^ s / m2, e', new_location m2 ((m1 * 2 ^ s) mod m2)).
Proof.
intros e' s. unfold SFdiv_core_binary. fold e'. fold s.
assert (Hs : 0 ≤ s) by (unfold s, e'; lia).
replace (match s with 0 => m1 | Z.pos _ => Z.shiftl m1 s | Z.neg _ => 0 end)
  with (m1 * 2 ^ s).
- by rewrite div_eucl_div_mod.
- destruct s as [|p|p]; [lia| |lia]. by rewrite Z.shiftl_mul_pow2.
Qed.

(** Dividing a normal double by 1024 lowers its exponent by 10. *)
Lemma SFdiv_f1024 s m e :
Zpos (digits2_pos m) = 53 → -1063 ≤ e ≤ 981 →
SFdiv 53 1024 (S754_finite s m e) f1024 = S754_finite s m (e - 10).
Proof.
intros Hd He. unfold SFdiv, f1024. rewrite SFdiv_core_binary_eq.
change (Zdigits2 (Zpos m)) with (Zpos (digits2_pos m)). rewrite Hd.
change (Zdigits2 4503599627370496) with 53.
replace (Z.min _ _) with (e - 11) by (unfold fexp, emin; lia).
replace (e - -42 - (e - 11)) with 53 by lia.
replace (Z.pos m * 2 ^ 53) with (Z.pos m * 2 * 4503599627370496) by lia.
rewrite Z.div_mul, Z.mod_mul, new_location_0 by lia.
rewrite xorb_false_r.
replace (Z.pos m * 2) with (Z.pos m * 2 ^ 1) by lia.
rewrite binary_round_aux_exact by lia. f_equal. lia.
Qed.

(** Left-aligning an int below [2^53] gives a 53-bit mantissa. *)
Lemma aligned_digits n :
0 < n < 2 ^ 53 →
Zpos (digits2_pos (Z.to_pos (n * 2 ^ (53 - Zdigits2 n)))) = 53.
Proof.
intros Hn.
pose proof (Zdigits2_bounds n ltac:(lia)) as Hb.
set (d := Zdigits2 n) in *.
assert (Hd : 1 ≤ d ≤ 53).
{ split.
  - unfold d. rewrite Zdigits2_log2 by lia. pose proof (Z.log2_nonneg n). lia.
  - destruct (decide (d ≤ 53)); [done|].
    assert (2 ^ 53 ≤ 2 ^ (d - 1)) by (apply Z.pow_le_mono_r; lia). lia. }
assert (H2 : 0 < 2 ^ (53 - d)) by (apply Z.pow_pos_nonneg; lia).
change (Zpos (digits2_pos ?q)) with (Zdigits2 (Zpos q)).
rewrite Z2Pos.id by lia.
apply Zdigits2_unique; [lia|].
assert (2 ^ (53 - 1) = 2 ^ (d - 1) * 2 ^ (53 - d)) as ->
  by (rewrite <- Z.pow_add_r by lia; f_equal; lia).
assert (2 ^ 53 = 2 ^ d * 2 ^ (53 - d)) as ->
  by (rewrite <- Z.pow_add_r by lia; f_equal; lia).
nia.
Qed.

(** [n / 1024] for an int below [2^53] is exact. *)
Lemma SFdiv_int_1024_exact n :
0 < n < 2 ^ 53 →
SFdiv 53 1024 (Float.exact_int n) (Float.exact_int 1024)
= S754_finite false (Z.to_pos (n * 2 ^ (53 - Zdigits2 n))) (Zdigits2 n - 63).
Proof.
intros Hn. destruct n as [|p|p]; [lia| |lia].
pose proof (Zdigits2_bounds (Zpos p) eq_refl) as Hb.
set (d := Zdigits2 (Zpos p)) in *.
assert (Hd : 1 ≤ d ≤ 53).
{ split.
  - unfold d. simpl. lia.
  - destruct (decide (d ≤ 53)); [done|].
    assert (2 ^ 53 ≤ 2 ^ (d - 1)) by (apply Z.pow_le_mono_r; lia). lia. }
unfold Float.exact_int, SFdiv. rewrite SFdiv_core_binary_eq. fold d.
change (Zdigits2 1024) with 11.
replace (Z.min _ _) with (d - 64) by (unfold fexp, emin; lia).
replace (0 - 0 - (d - 64)) with ((53 - d) + 1 + 10) by lia.
rewrite !Z.pow_add_r by lia.
assert (H2 : 0 < 2 ^ (53 - d)) by (apply Z.pow_pos_nonneg; lia).
replace (Z.pos p * (2 ^ (53 - d) * 2 ^ 1 * 2 ^ 10))
  with (Z.pos p * 2 ^ (53 - d) * 2 ^ 1 * 1024) by lia.
rewrite Z.div_mul, Z.mod_mul, new_location_0 by lia.
assert (Hp : Zpos (Z.to_pos (Z.pos p * 2 ^ (53 - d))) = Z.pos p * 2 ^ (53 - d))
  by (apply Z2Pos.id; lia).
rewrite <- Hp. cbn [xorb].
rewrite binary_round_aux_exact; [f_equal; lia|lia| |lia].
by apply (aligned_digits (Z.pos p)).
Qed.

(** [n / 1024] for any int from 1024 on: a normal double whose exponent
  follows the bit length of [n], or an infinity past the largest one. *)
Lemma SFdiv_int_1024_normal n :
1024 ≤ n →
∃ m e, Zpos (digits2_pos m) = 53 ∧ Zdigits2 n - 63 ≤ e ≤ Zdigits2 n - 62 ∧
  SFdiv 53 1024 (Float.exact_int n) (Float.exact_int 1024)
  = if e <=? 971 then S754_finite false m e else S754_infinity false.
Proof.
intros Hn. destruct n as [|p|p]; [lia| |lia].
pose proof (Zdigits2_bounds (Zpos p) eq_refl) as Hb.
set (d := Zdigits2 (Zpos p)) in *.
assert (Hd : 11 ≤ d).
{ destruct (decide (11 ≤ d)); [done|].
  assert (2 ^ d ≤ 2 ^ 10) by (apply Z.pow_le_mono_r; lia). lia. }
unfold Float.exact_int, SFdiv. rewrite SFdiv_core_binary_eq. fold d.
change (Zdigits2 1024) with 11.
set (e' := Z.min _ _). set (s := 0 - 0 - e').
assert (He' : e' = Z.min (d - 64) 0) by (unfold e', fexp, emin; lia).
assert (Hs : 0 ≤ s ∧ d + s - 64 = Z.max (d - 64) 0) by lia.
set (q := Z.pos p * 2 ^ s / 1024).
assert (H2s : 0 < 2 ^ s) by (apply Z.pow_pos_nonneg; lia).
assert (Hq : 2 ^ (d + s - 10 - 1) ≤ q < 2 ^ (d + s - 10)).
{ unfold q. split.
  - apply Z.div_le_lower_bound; [lia|].
    replace 1024 with (2 ^ 10) by done. rewrite <- Z.pow_add_r by lia.
    replace (10 + (d + s - 10 - 1)) with ((d - 1) + s) by lia.
    rewrite Z.pow_add_r by lia. nia.
  - apply Z.div_lt_upper_bound; [lia|].
    replace 1024 with (2 ^ 10) by done. rewrite <- Z.pow_add_r by lia.
    replace (10 + (d + s - 10)) with (d + s) by lia.
    rewrite Z.pow_add_r by lia. nia. }
assert (Hdq : Zdigits2 q = 53 + (d + s - 63)).
{ replace (53 + (d + s - 63)) with (d + s - 10) by lia.
  apply Zdigits2_unique; [lia|done]. }
assert (0 < q) by (pose proof (Z.pow_pos_nonneg 2 (d + s - 10 - 1)); lia).
destruct (binary_round_aux_normal false q e' (new_location 1024 ((Z.pos p * 2 ^ s) mod 1024))
            (d + s - 63)) as (m & e & Hm & He & Heq); [done|lia|done|lia|].
exists m, e. split; [done|]. split; [lia|]. exact Heq.
Qed.

End FloatFacts.

Lemma normalize_1024 : binary_normalize Float.prec Float.emax 1024 0 false = f1024.
Proof. vm_compute. reflexivity. Qed.

Lemma of_int_1024 : Float.of_int 1024 = Ok f1024.
Proof. vm_compute. reflexivity. Qed.

Lemma ltb_f1024 m e :
  Zpos (digits2_pos m) = 53 →
  Float.ltb (S754_finite false m e) f1024 = (e <? -42).
Proof.
  intros Hd.
  pose proof (Zdigits2_bounds (Zpos m) eq_refl) as Hb.
  change (Zdigits2 (Zpos m)) with (Zpos (digits2_pos m)) in Hb. rewrite Hd in Hb.
  unfold Float.ltb, SFltb, SFcompare, f1024.
  destruct (Z.compare_spec e (-42)) as [->|Hlt|Hgt].
  - rewrite Z.ltb_irrefl, Pos.compare_cont_spec. cbn [Pos.switch_Eq].
    destruct (Pos.compare_spec m 4503599627370496) as [?|Hlt|?]; try reflexivity.
    exfalso. apply Pos2Z.pos_lt_pos in Hlt.
    change (2 ^ (53 - 1)) with 4503599627370496 in Hb.
    destruct Hb as [Hb _]. apply Z.le_ngt in Hb. exact (Hb Hlt).
  - symmetry. by apply Z.ltb_lt.
  - symmetry. apply Z.ltb_ge. lia.
Qed.

Lemma div_half_even_cancel a b c :
  0 < b → 0 < c →
  Float.div_half_even (a * c) (b * c) = Float.div_half_even a b.
Proof.
  intros Hb Hc. unfold Float.div_half_even.
  rewrite Z.div_mul_cancel_r, Z.mul_mod_distr_r by lia.
  rewrite Z.mul_assoc.
  assert ((2 * (a mod b) * c ?= b * c) = (2 * (a mod b) ?= b)) as ->; [|done].
  destruct (Z.compare_spec (2 * (a mod b)) b);
    [apply Z.compare_eq_iff|apply Z.compare_lt_iff|apply Z.compare_gt_iff]; nia.
Qed.

(** Formatting the canonical double of [n / 2^t] rounds the exact quotient. *)
Lemma format_f_exact digits n t :
  0 < n < 2 ^ 53 → 0 < t →
  Float.format_f digits
    (S754_finite false (Z.to_pos (n * 2 ^ (53 - Zdigits2 n))) (Zdigits2 n - 53 - t))
  = Float.fixed digits (Float.div_half_even (n * 10 ^ Z.of_nat digits) (2 ^ t)).
Proof.
  intros Hn Ht.
  pose proof (Zdigits2_bounds n ltac:(lia)) as Hb.
  set (d := Zdigits2 n) in *.
  assert (Hd : 1 ≤ d ≤ 53).
  { split.
    - unfold d. rewrite Zdigits2_log2 by lia. pose proof (Z.log2_nonneg n). lia.
    - destruct (decide (d ≤ 53)); [done|].
      assert (2 ^ 53 ≤ 2 ^ (d - 1)) by (apply Z.pow_le_mono_r; lia). lia. }
  assert (H2 : 0 < 2 ^ (53 - d)) by (apply Z.pow_pos_nonneg; lia).
  assert (H2t : 0 < 2 ^ t) by (apply Z.pow_pos_nonneg; lia).
  unfold Float.format_f, Float.scaled. simpl Float.sign.
  replace (0 <=? d - 53 - t) with false by lia.
  rewrite Z2Pos.id by lia.
  replace (- (d - 53 - t)) with (t + (53 - d)) by lia.
  rewrite Z.pow_add_r by lia.
  replace (n * 2 ^ (53 - d) * 10 ^ Z.of_nat digits)
    with (n * 10 ^ Z.of_nat digits * 2 ^ (53 - d)) by lia.
  by rewrite div_half_even_cancel by lia.
Qed.

Lemma human_size_small n :
  n < 1024 → human_size n = Ok (Some (pretty n +:+ " B")).
Proof.
  intros Hn. unfold human_size, units. cbn [human_size_loop py_lt].
  replace (n <? 1024) with true by lia.
  change (String.eqb "B" "B") with true. reflexivity.
Qed.

Lemma human_size_large n :
  1024 ≤ n →
  human_size n
  = x ← Float.int_truediv n 1024; human_size_loop ["KB"; "MB"; "GB"] (PyFloat x).
Proof.
  intros Hn. unfold human_size, units. cbn [human_size_loop py_lt py_truediv].
  replace (n <? 1024) with false by lia.
  change (String.eqb "B" "GB") with false. cbn [orb].
  by destruct (Float.int_truediv n 1024).
Qed.

(** One iteration of the loop on a normal double, for a unit other than B. *)
Lemma human_size_loop_step unit us m e :
  Zpos (digits2_pos m) = 53 → -1063 ≤ e ≤ 981 → String.eqb unit "B" = false →
  human_size_loop (unit :: us) (PyFloat (S754_finite false m e))
  = if (e <? -42) || String.eqb unit "GB"
    then Ok (Some (Float.format_f 2 (S754_finite false m e) +:+ " " +:+ unit))
    else human_size_loop us (PyFloat (S754_finite false m (e - 10))).
Proof.
  intros Hd He HB. cbn [human_size_loop py_lt py_truediv py_format_f].
  rewrite normalize_1024, of_int_1024, ltb_f1024, HB by done.
  destruct ((e <? -42) || String.eqb unit "GB"); [done|].
  cbn [mbind result_bind Float.truediv Float.is_zero f1024 negb].
  fold f1024. by rewrite SFdiv_f1024 by lia.
Qed.

(** The three float iterations, for a normal double. *)
Lemma human_size_loop_float m e :
  Zpos (digits2_pos m) = 53 → -1043 ≤ e ≤ 981 →
  human_size_loop ["KB"; "MB"; "GB"] (PyFloat (S754_finite false m e))
  = Ok (Some (
      if e <? -42 then Float.format_f 2 (S754_finite false m e) +:+ " KB"
      else if e <? -32 then Float.format_f 2 (S754_finite false m (e - 10)) +:+ " MB"
      else Float.format_f 2 (S754_finite false m (e - 20)) +:+ " GB")).
Proof.
  intros Hd He.
  rewrite human_size_loop_step by (done || lia).
  change (String.eqb "KB" "GB") with false. rewrite orb_false_r.
  destruct (e <? -42) eqn:E1; [done|].
  rewrite human_size_loop_step by (done || lia).
  change (String.eqb "MB" "GB") with false. rewrite orb_false_r.
  replace (e - 10 <? -42) with (e <? -32) by lia.
  destruct (e <? -32) eqn:E2; [done|].
  rewrite human_size_loop_step by (done || lia).
  change (String.eqb "GB" "GB") with true. rewrite orb_true_r.
  by replace (e - 10 - 10) with (e - 20) by lia.
Qed.

Lemma Zdigits2_le_iff n k : 0 < n → 0 ≤ k → Zdigits2 n ≤ k ↔ n < 2 ^ k.
Proof.
  intros Hn Hk. pose proof (Zdigits2_bounds n Hn) as Hb.
  assert (0 < Zdigits2 n)
    by (rewrite Zdigits2_log2 by lia; pose proof (Z.log2_nonneg n); lia).
  split; intros H'.
  - assert (2 ^ Zdigits2 n ≤ 2 ^ k) by (apply Z.pow_le_mono_r; lia). lia.
  - destruct (decide (Zdigits2 n ≤ k)); [done|].
    assert (2 ^ k ≤ 2 ^ (Zdigits2 n - 1)) by (apply Z.pow_le_mono_r; lia). lia.
Qed.

Lemma int_truediv_1024_exact n :
  0 < n < 2 ^ 53 → Float.int_truediv n 1024 = Ok (aligned n 10).
Proof.
  intros Hn. unfold Float.int_truediv, Float.prec, Float.emax.
  change (1024 =? 0) with false. cbv iota.
  rewrite SFdiv_int_1024_exact by done. cbn [Float.is_infinity].
  unfold aligned. do 2 f_equal. lia.
Qed.

Lemma human_size_exact n :
  1024 ≤ n < 2 ^ 53 →
  human_size n = Ok (Some (
    if n <? 2 ^ 20 then
      Float.fixed 2 (Float.div_half_even (n * 100) (2 ^ 10)) +:+ " KB"
    else if n <? 2 ^ 30 then
      Float.fixed 2 (Float.div_half_even (n * 100) (2 ^ 20)) +:+ " MB"
    else
      Float.fixed 2 (Float.div_half_even (n * 100) (2 ^ 30)) +:+ " GB")).
Proof.
  intros Hn. rewrite human_size_large, int_truediv_1024_exact by lia.
  cbn [mbind result_bind]. unfold aligned.
  assert (H53 : Zdigits2 n ≤ 53) by (apply Zdigits2_le_iff; lia).
  assert (H11 : ¬ Zdigits2 n ≤ 10) by (rewrite Zdigits2_le_iff by lia; lia).
  rewrite human_size_loop_float by (apply aligned_digits || idtac; lia).
  assert ((Zdigits2 n - 53 - 10 <? -42) = (n <? 2 ^ 20)) as ->.
  { destruct (Z.ltb_spec n (2 ^ 20)) as [H|H].
    - apply Z.ltb_lt. apply Zdigits2_le_iff in H; lia.
    - apply Z.ltb_ge. destruct (decide (Zdigits2 n ≤ 20)) as [H'|H']; [|lia].
      apply Zdigits2_le_iff in H'; lia. }
  assert ((Zdigits2 n - 53 - 10 <? -32) = (n <? 2 ^ 30)) as ->.
  { destruct (Z.ltb_spec n (2 ^ 30)) as [H|H].
    - apply Z.ltb_lt. apply Zdigits2_le_iff in H; lia.
    - apply Z.ltb_ge. destruct (decide (Zdigits2 n ≤ 30)) as [H'|H']; [|lia].
      apply Zdigits2_le_iff in H'; lia. }
  replace (Zdigits2 n - 53 - 10 - 10) with (Zdigits2 n - 53 - 20) by lia.
  replace (Zdigits2 n - 53 - 10 - 20) with (Zdigits2 n - 53 - 30) by lia.
  rewrite !(format_f_exact 2) by lia. done.
Qed.

(** Every int from 1024 on: an [OverflowError], or a string of one of the
    three scaled units. *)
Lemma human_size_float n :
  1024 ≤ n →
  ∃ m e, Zpos (digits2_pos m) = 53 ∧ Zdigits2 n - 63 ≤ e ≤ Zdigits2 n - 62 ∧
    human_size n =
      if e <=? 971 then
        Ok (Some (
          if e <? -42 then Float.format_f 2 (S754_finite false m e) +:+ " KB"
          else if e <? -32
          then Float.format_f 2 (S754_finite false m (e - 10)) +:+ " MB"
          else Float.format_f 2 (S754_finite false m (e - 20)) +:+ " GB"))
      else Raise OverflowError.
Proof.
  intros Hn. destruct (SFdiv_int_1024_normal n Hn) as (m & e & Hm & He & Heq).
  exists m, e. split; [done|]. split; [done|].
  rewrite human_size_large by done.
  unfold Float.int_truediv, Float.prec, Float.emax.
  change (1024 =? 0) with false. cbv iota. rewrite Heq.
  assert (¬ Zdigits2 n ≤ 10) by (rewrite Zdigits2_le_iff by lia; lia).
  destruct (Z.leb_spec e 971); cbn [Float.is_infinity mbind result_bind]; [|done].
  by rewrite human_size_loop_float by (done || lia).
Qed.

Lemma divided_1 n :
  divided n 1 = SFdiv Float.prec Float.emax (Float.exact_int n) (Float.exact_int 1024).
Proof. done. Qed.

Lemma divided_S n k :
  divided n (S (S k)) = SFdiv Float.prec Float.emax (divided n (S k)) f1024.
Proof. unfold divided. cbn [Nat.sub Nat.iter]. by rewrite Nat.sub_0_r. Qed.

(** Below [2^53] every division by 1024 is exact. *)
Lemma divided_exact n :
  0 < n < 2 ^ 53 →
  divided n 1 = aligned n 10 ∧ divided n 2 = aligned n 20 ∧
  divided n 3 = aligned n 30.
Proof.
  intros Hn.
  assert (H1 : divided n 1 = aligned n 10).
  { rewrite divided_1. unfold Float.prec, Float.emax.
    rewrite SFdiv_int_1024_exact by done. unfold aligned. f_equal. lia. }
  assert (Hd : 1 ≤ Zdigits2 n ≤ 53).
  { split.
    - rewrite Zdigits2_log2 by lia. pose proof (Z.log2_nonneg n). lia.
    - apply Zdigits2_le_iff; lia. }
  assert (H2 : divided n 2 = aligned n 20).
  { rewrite divided_S, H1. unfold aligned, Float.prec, Float.emax.
    rewrite SFdiv_f1024 by (apply aligned_digits || idtac; lia).
    f_equal. lia. }
  split; [done|]. split; [done|].
  rewrite divided_S, H2. unfold aligned, Float.prec, Float.emax.
  rewrite SFdiv_f1024 by (apply aligned_digits || idtac; lia).
  f_equal. lia.
Qed.

(** What [human_size] returns, unit by unit, in the doubles the code
    computes. *)
Lemma human_size_divided n :
  0 ≤ n < 2 ^ 1033 →
  human_size n = Ok (Some (
    if n <? 2 ^ 10 then pretty n +:+ " B"
    else if n <? 2 ^ 20 then Float.format_f 2 (divided n 1) +:+ " KB"
    else if n <? 2 ^ 30 then Float.format_f 2 (divided n 2) +:+ " MB"
    else Float.format_f 2 (divided n 3) +:+ " GB")).
Proof.
  intros Hn. destruct (Z.ltb_spec n (2 ^ 10)) as [H10|H10].
  { by apply human_size_small. }
  destruct (decide (n < 2 ^ 53)) as [H53|H53].
  - rewrite human_size_exact by lia.
    destruct (divided_exact n) as (-> & -> & ->); [lia|].
    unfold aligned. by rewrite !(format_f_exact 2) by lia.
  - assert (2 ^ 30 <= n) by lia.
    replace (n <? 2 ^ 20) with false by lia.
    replace (n <? 2 ^ 30) with false by lia.
    assert (Hd : 54 ≤ Zdigits2 n ≤ 1033).
    { split.
      - destruct (decide (Zdigits2 n ≤ 53)) as [Hle|]; [|lia].
        apply Zdigits2_le_iff in Hle; lia.
      - apply Zdigits2_le_iff; lia. }
    destruct (SFdiv_int_1024_normal n) as (m & e & Hm & He & Hdiv); [lia|].
    replace (e <=? 971) with true in Hdiv by lia.
    rewrite human_size_large by lia.
    unfold Float.int_truediv. change (1024 =? 0) with false. cbv iota.
    rewrite !divided_S, divided_1. unfold Float.prec, Float.emax.
    rewrite Hdiv. cbn [Float.is_infinity mbind result_bind].
    rewrite human_size_loop_float by (done || lia).
    replace (e <? -42) with false by lia.
    replace (e <? -32) with false by lia.
    rewrite !SFdiv_f1024 by (done || lia).
    by replace (e - 10 - 10) with (e - 20) by lia.
Qed.

(** From [2^1034] on the first division does not fit a double. *)
Lemma human_size_overflow n :
  2 ^ 1034 ≤ n → human_size n = Raise OverflowError.
Proof.
  intros Hn.
  assert (0 < 2 ^ 1034) by (by apply Z.pow_pos_nonneg).
  assert (2 ^ 10 ≤ 2 ^ 1034) by (apply Z.pow_le_mono_r; lia).
  destruct (human_size_float n) as (m & e & Hm & He & Heq); [lia|].
  assert (1035 ≤ Zdigits2 n).
  { destruct (decide (Zdigits2 n ≤ 1034)) as [Hle|]; [|lia].
    apply Zdigits2_le_iff in Hle; lia. }
  rewrite Heq. by replace (e <=? 971) with false by lia.
Qed.

(** Between the two bounds either can happen, and nothing else. *)
Lemma human_size_cases n :
  0 ≤ n → human_size n = Raise OverflowError ∨ ∃ s, human_size n = Ok (Some s).
Proof.
  intros Hn. destruct (Z.ltb_spec n 1024).
  { right. eexists. by apply human_size_small. }
  destruct (human_size_float n) as (m & e & Hm & He & Heq); [lia|].
  rewrite Heq. destruct (e <=? 971); eauto.
Qed.

(** ** Two decimals *)

Lemma fraction_2_length q : String.length (Float.fraction 2 q) = 2%nat.
Proof.
  unfold Float.fraction.
  assert (Hr : 0 ≤ q mod 10 ^ Z.of_nat 2 < 100) by (apply Z.mod_pos_bound; lia).
  revert Hr. generalize (q mod 10 ^ Z.of_nat 2). intros r Hr.
  assert (Hall : Forall (λ r : Z,
            String.length (Float.zeros (2 - String.length (pretty r)) +:+ pretty r)
            = 2%nat) (seqZ 0 100)).
  { apply (bool_decide_unpack _). vm_compute. exact I. }
  rewrite Forall_forall in Hall. apply Hall, elem_of_seqZ. lia.
Qed.

Lemma fraction_1_length q : String.length (Float.fraction 1 q) = 1%nat.
Proof.
  unfold Float.fraction.
  assert (Hr : 0 ≤ q mod 10 ^ Z.of_nat 1 < 10) by (apply Z.mod_pos_bound; lia).
  revert Hr. generalize (q mod 10 ^ Z.of_nat 1). intros r Hr.
  assert (Hall : Forall (λ r : Z,
            String.length (Float.zeros (1 - String.length (pretty r)) +:+ pretty r)
            = 1%nat) (seqZ 0 10)).
  { apply (bool_decide_unpack _). vm_compute. exact I. }
  rewrite Forall_forall in Hall. apply Hall, elem_of_seqZ. lia.
Qed.

(** ** The monad *)

Lemma bind_Ok {A B} (m : M A) (f : A → M B) w a w' :
  m w = (Ok a, w') → (m ≫= f) w = f a w'.
Proof. intros H. unfold mbind, M_bind. by rewrite H. Qed.

Lemma bind_Raise {A B} (m : M A) (f : A → M B) w e w' :
  m w = (Raise e, w') → (m ≫= f) w = (Raise e, w').
Proof. intros H. unfold mbind, M_bind. by rewrite H. Qed.

Lemma for_each_app {A S} (body : A → S → M S) l1 l2 s w :
  for_each body (l1 ++ l2) s w
  = (s' ← for_each body l1 s; for_each body l2 s') w.
Proof.
  revert s w. induction l1 as [|x l1 IH]; intros s w; [done|].
  cbn [for_each app]. unfold mbind, M_bind.
  destruct (body x s w) as [[s'|e] w']; [|done]. apply IH.
Qed.

(** ** Induction on trees *)

Lemma node_ind' (P : node → Prop) :
  (∀ name sz r, P (File name sz r)) →
  (∀ name es, Forall P es → P (Dir name es)) →
  ∀ n, P n.
Proof.
  intros HF HD. fix IH 1. intros [name sz r|name es]; [apply HF|].
  apply HD. induction es as [|c es IHes]; constructor; [apply IH|apply IHes].
Qed.

Lemma find_child_Some name es c :
  find_child name es = Some c → c ∈ es ∧ node_name c = name.
Proof.
  induction es as [|c' es IH]; [done|]. cbn [find_child].
  destruct (String.eqb_spec (node_name c') name) as [<-|Hne].
  - intros [= ->]. split; [left|done].
  - intros H. destruct (IH H). split; [by right|done].
Qed.

(** ** [os.walk] as a list of events *)

Lemma find_fix_eq {B} (f : node → B) (dflt : B) d es :
  (fix find (es : list node) : B :=
     match es with
     | [] => dflt
     | child :: es' =>
         if String.eqb (node_name child) d then f child else find es'
     end) es
  = match find_child d es with Some c => f c | None => dflt end.
Proof.
  induction es as [|c es IH]; [done|]. cbn [find_child].
  by destruct (String.eqb (node_name c) d).
Qed.

Lemma walk_events_Dir keep top name es :
  walk_events keep top (Dir name es)
  = Yield :: map (Entry top) (omap file_name es) ++
    concat (map (walk_child keep top es)
              (filter (λ d, keep d = true) (omap dir_name es))).
Proof.
  cbn [walk_events]. do 2 f_equal.
  induction (filter (λ d, keep d = true) (omap dir_name es)) as [|d ds IH]; [done|].
  cbn [map concat]. rewrite <- IH. f_equal.
  exact (find_fix_eq (walk_events keep (os_path_join top d)) [] d es).
Qed.

Section walk_facts.
Context {S : Type}.
Variable body : string → list string → list string → S → M (list string * S).

Lemma os_walk_Dir top name es s w :
  os_walk body top (Dir name es) s w
  = ('(dirs, s1) ← body top (omap dir_name es) (omap file_name es) s;
     for_each (walk_into body top es) dirs s1) w.
Proof.
  cbn [os_walk]. unfold mbind, M_bind.
  destruct (body top (omap dir_name es) (omap file_name es) s w)
    as [[[dirs s1]|e] w1]; [|done].
  revert s1 w1. induction dirs as [|d ds IH]; intros s1 w1; [done|].
  cbn [for_each]. unfold mbind, M_bind.
  rewrite (find_fix_eq (λ c, os_walk body (os_path_join top d) c s1) (mret s1) d es).
  fold (walk_into body top es d s1).
  destruct (walk_into body top es d s1 w1) as [[s2|e] w2]; [|done]. apply IH.
Qed.
End walk_facts.

Lemma for_each_map {A B S} (body : B → S → M S) (f : A → B) l s w :
  for_each body (map f l) s w = for_each (λ x, body (f x)) l s w.
Proof.
  revert s w. induction l as [|x l IH]; intros s w; [done|].
  cbn [map for_each]. unfold mbind, M_bind.
  destruct (body (f x) s w) as [[s'|e] w']; [apply IH|done].
Qed.

Lemma for_each_ext {A S} (body1 body2 : A → S → M S) l s w :
  (∀ x s w, x ∈ l → body1 x s w = body2 x s w) →
  for_each body1 l s w = for_each body2 l s w.
Proof.
  revert s w. induction l as [|x l IH]; intros s w H; [done|].
  cbn [for_each]. unfold mbind, M_bind. rewrite H by left.
  destruct (body2 x s w) as [[s'|e] w']; [|done].
  apply IH. intros. apply H. by right.
Qed.

(** The discovery loop over [os.walk] is the loop over the events. *)
Lemma discover_events ENV source_dir E n :
  ∀ top s w,
    os_walk (discover_step ENV source_dir E) top n s w
    = for_each (visit ENV source_dir E) (walk_events (kept E) top n) s w.
Proof.
  induction n as [name sz r|name es IH] using node_ind'; intros top s w.
  { reflexivity. }
  rewrite os_walk_Dir, walk_events_Dir.
  cbn [for_each visit].
  set (body := discover_step ENV source_dir E) in *.
  unfold mbind, M_bind, mret, M_ret.
  change (body top (omap dir_name es) (omap file_name es) s w)
    with (match checkpoint w with
          | (Ok _, w') =>
              match for_each (discover_file ENV source_dir E top)
                      (omap file_name es) s w' with
              | (Ok s', w'') => (Ok (filter (λ d, d ∉ E) (omap dir_name es), s'), w'')
              | (Raise e, w'') => (Raise e, w'')
              end
          | (Raise e, w') => (Raise e, w')
          end).
  destruct (checkpoint w) as [[[]|e] w1]; [|reflexivity].
  rewrite for_each_app. unfold mbind, M_bind.
  rewrite for_each_map. cbn [visit].
  destruct (for_each _ (omap file_name es) s w1) as [[s1|e] w2]; [|reflexivity].
  rewrite (list_filter_iff (λ d, d ∉ E) (λ d, kept E d = true))
    by (intros d; unfold kept; by rewrite bool_decide_eq_true).
  generalize (filter (λ d, kept E d = true) (omap dir_name es)). intros ds.
  revert s1 w2. induction ds as [|d ds IHds]; intros s1 w2; [reflexivity|].
  cbn [for_each map concat]. rewrite for_each_app.
  unfold mbind, M_bind.
  assert (walk_into body top es d s1 w2
          = for_each (visit ENV source_dir E) (walk_child (kept E) top es d) s1 w2) as ->.
  { unfold walk_into, walk_child.
    destruct (find_child d es) as [c|] eqn:Hc; [|done].
    apply find_child_Some in Hc as [Hc _].
    rewrite Forall_forall in IH. by apply IH. }
  destruct (for_each _ (walk_child (kept E) top es d) s1 w2) as [[s2|e] w3];
    [|reflexivity].
  apply IHds.
Qed.

(** ** [str.split] and [str.join] *)

Lemma append_nil_l (s : string) : "" +:+ s = s.
Proof. reflexivity. Qed.

Lemma append_cons a (s t : string) : String a s +:+ t = String a (s +:+ t).
Proof. reflexivity. Qed.

Lemma str_split_nonempty c s : str_split c s ≠ [].
Proof.
  destruct s as [|a s]; [done|]. cbn [str_split].
  destruct (Ascii.eqb a c); [done|]. by destruct (str_split c s).
Qed.

Lemma str_split_cons c a s :
  str_split c (String a s)
  = if Ascii.eqb a c then "" :: str_split c s
    else match str_split c s with
         | [] => [String a ""]
         | w :: ws => String a w :: ws
         end.
Proof. done. Qed.

Lemma str_split_app_sep c s t :
  str_split c (s +:+ String c t) = str_split c s ++ str_split c t.
Proof.
  induction s as [|a s IH].
  - rewrite append_nil_l, str_split_cons, Ascii.eqb_refl. done.
  - rewrite append_cons, !str_split_cons, IH.
    destruct (Ascii.eqb a c); [done|].
    pose proof (str_split_nonempty c s). by destruct (str_split c s).
Qed.

Lemma str_split_no_sep c s : contains c s = false → str_split c s = [s].
Proof.
  induction s as [|a s IH]; [done|]. cbn [contains]. rewrite str_split_cons.
  destruct (Ascii.eqb a c); [done|]. cbn [orb]. intros H. by rewrite IH.
Qed.

Lemma str_split_contains c s : Forall (λ w, contains c w = false) (str_split c s).
Proof.
  induction s as [|a s IH]; [by repeat constructor|]. rewrite str_split_cons.
  destruct (Ascii.eqb a c) eqn:Ea; [by constructor|].
  destruct (str_split c s) as [|w ws]; [by repeat constructor; cbn; rewrite Ea|].
  inversion IH; subst. constructor; [|done]. cbn [contains]. by rewrite Ea.
Qed.

Lemma str_join_cons sep x y l :
  str_join sep (x :: y :: l) = x +:+ sep +:+ str_join sep (y :: l).
Proof. done. Qed.

(** Joining the pieces with the separator gives the string back. *)
Lemma str_join_split c s : str_join (String c "") (str_split c s) = s.
Proof.
  induction s as [|a s IH]; [done|]. rewrite str_split_cons.
  pose proof (str_split_nonempty c s) as Hne.
  destruct (str_split c s) as [|w ws] eqn:E; [done|].
  destruct (Ascii.eqb_spec a c) as [->|Hac].
  - by rewrite str_join_cons, append_nil_l, append_cons, append_nil_l, IH.
  - destruct ws as [|w' ws].
    + cbn in *. by rewrite IH.
    + rewrite str_join_cons in *. by rewrite append_cons, IH.
Qed.

Lemma append_assoc (s t u : string) : (s +:+ t) +:+ u = s +:+ (t +:+ u).
Proof. induction s as [|a s IH]; [done|]. by rewrite !append_cons, IH. Qed.

Lemma append_nil_r (s : string) : s +:+ "" = s.
Proof. induction s as [|a s IH]; [done|]. by rewrite append_cons, IH. Qed.

(** Splitting a join of separator-free pieces gives the pieces back. *)
Lemma str_split_join c l :
  l ≠ [] → Forall (λ w, contains c w = false) l →
  str_split c (str_join (String c "") l) = l.
Proof.
  intros Hl Hall. induction Hall as [|x l Hx Hall IH]; [done|].
  destruct l as [|y l].
  - cbn. by apply str_split_no_sep.
  - rewrite str_join_cons, append_cons, append_nil_l.
    rewrite str_split_app_sep, str_split_no_sep by done.
    cbn [app]. f_equal. by apply IH.
Qed.

(** ** Paths *)

Lemma startswith_slash_inv s :
  startswith_slash s = true → ∃ r, s = String "/" r.
Proof.
  destruct s as [|a r]; [done|]. cbn. intros H%Ascii.eqb_eq. subst. by exists r.
Qed.

Lemma startswith_slash_contains s :
  contains "/" s = false → startswith_slash s = false.
Proof. destruct s as [|a r]; [done|]. cbn. by intros [? _]%orb_false_iff. Qed.

Lemma endswith_slash_inv s :
  endswith_slash s = true → ∃ r, s = r +:+ "/".
Proof.
  induction s as [|a s IH]; [done|]. cbn [endswith_slash].
  destruct s as [|b s].
  - intros H%Ascii.eqb_eq. subst. by exists "".
  - intros H. destruct (IH H) as [r Hr]. exists (String a r).
    by rewrite append_cons, <- Hr.
Qed.

Lemma proper_name_spec x :
  proper_name x = true →
  x ≠ "" ∧ x ≠ "." ∧ x ≠ ".." ∧ contains "/" x = false.
Proof.
  unfold proper_name. rewrite !andb_true_iff, !negb_true_iff.
  intros [[[H1 H2] H3] H4]. repeat split; try done.
  - intros ->. done.
  - intros ->. done.
  - intros ->. done.
Qed.

Lemma proper_name_component x : proper_name x = true → proper_component x = true.
Proof.
  unfold proper_name, proper_component. rewrite !andb_true_iff.
  by intros [[[-> ->] _] _].
Qed.

(** The components of a path are the proper pieces between slashes. *)
Lemma Path_of_segments s :
  segments (Path_of s)
  = filter (λ x, proper_component x = true) (str_split "/" s).
Proof.
  unfold Path_of, splitroot.
  destruct (startswith_slash s) eqn:E1; cbn [negb]; [|done].
  apply startswith_slash_inv in E1 as [r ->]. cbn [drop1].
  rewrite (str_split_cons "/" "/" r). cbn [Ascii.eqb Bool.eqb].
  rewrite filter_cons_False by done.
  destruct (startswith_slash r) eqn:E2; cbn [negb orb]; [|done].
  apply startswith_slash_inv in E2 as [r' ->]. cbn [drop1].
  destruct (startswith_slash r') eqn:E3; cbn [segments]; [done|].
  rewrite (str_split_cons "/" "/" r'). cbn [Ascii.eqb Bool.eqb].
  by rewrite filter_cons_False by done.
Qed.

Lemma Path_of_anchor s : anchor (Path_of s) = (splitroot s).1.
Proof. unfold Path_of. by destruct (splitroot s). Qed.

Lemma Path_of_proper d :
  proper_name d = true → Path_of d = {| anchor := ""; segments := [d] |}.
Proof.
  intros Hd. pose proof (proper_name_component d Hd) as Hc.
  apply proper_name_spec in Hd as (_ & _ & _ & Hs).
  assert (segments (Path_of d) = [d]) as Hseg.
  { rewrite Path_of_segments, str_split_no_sep by done.
    by rewrite filter_cons_True, filter_nil by done. }
  assert (anchor (Path_of d) = "") as Hanc.
  { rewrite Path_of_anchor. unfold splitroot.
    by rewrite startswith_slash_contains by done. }
  destruct (Path_of d). cbn in *. by subst.
Qed.

Lemma splitroot_join_anchor top d :
  proper_name d = true →
  (splitroot (os_path_join top d)).1 = (splitroot top).1.
Proof.
  intros Hd. apply proper_name_spec in Hd as (Hne & _ & _ & Hs).
  pose proof (startswith_slash_contains d Hs) as Hd0.
  unfold os_path_join. rewrite Hd0.
  destruct top as [|a1 r1].
  { rewrite bool_decide_eq_true_2 by done. cbn [orb]. rewrite append_nil_l.
    unfold splitroot. by rewrite Hd0. }
  rewrite bool_decide_eq_false_2 by done. cbn [orb].
  assert (∀ x, (splitroot (String a1 r1 +:+ x)).1 = (splitroot (String a1 r1)).1
               ∨ (endswith_slash (String a1 r1) = true → startswith_slash x = true)) as H.
  { intros x. unfold splitroot. rewrite append_cons. cbn [startswith_slash drop1].
    destruct (Ascii.eqb a1 "/"); cbn [negb]; [|by left].
    destruct r1 as [|a2 r2].
    { rewrite append_nil_l. cbn [startswith_slash drop1 negb orb fst].
      destruct (startswith_slash x) eqn:Ex; [by right|].
      cbn [negb orb]. by left. }
    rewrite append_cons. cbn [startswith_slash drop1].
    destruct (Ascii.eqb a2 "/") eqn:E2; cbn [negb orb]; [|by left].
    destruct r2 as [|a3 r3].
    { rewrite append_nil_l. cbn [startswith_slash].
      destruct (startswith_slash x) eqn:Ex; [right|by left].
      done. }
    rewrite append_cons. cbn [startswith_slash].
    destruct (Ascii.eqb a3 "/"); by left. }
  destruct (endswith_slash (String a1 r1)) eqn:Ee.
  - destruct (H d) as [H'|H']; [done|]. rewrite H' in Hd0; done.
  - destruct (H ("/" +:+ d)) as [H'|H']; [done|].
    (* the second alternative is vacuous only when top ends with a slash *)
    revert H'. clear H. intros _.
    unfold splitroot. rewrite append_cons. cbn [startswith_slash drop1].
    destruct (Ascii.eqb a1 "/") eqn:E1; cbn [negb]; [|done].
    destruct r1 as [|a2 r2].
    { cbn in Ee. congruence. }
    rewrite append_cons. cbn [startswith_slash drop1].
    destruct (Ascii.eqb a2 "/") eqn:E2; cbn [negb orb]; [|done].
    destruct r2 as [|a3 r3].
    { cbn in Ee. congruence. }
    rewrite append_cons. cbn [startswith_slash].
    by destruct (Ascii.eqb a3 "/").
Qed.

Lemma segments_join top d :
  proper_name d = true →
  segments (Path_of (os_path_join top d)) = segments (Path_of top) ++ [d].
Proof.
  intros Hd. pose proof (proper_name_component d Hd) as Hc.
  apply proper_name_spec in Hd as (Hne & _ & _ & Hs).
  rewrite !Path_of_segments. unfold os_path_join.
  rewrite startswith_slash_contains by done.
  destruct (decide (top = "")) as [->|Htop].
  { rewrite bool_decide_eq_true_2 by done. cbn [orb].
    rewrite append_nil_l, str_split_no_sep by done.
    by rewrite filter_cons_True by done. }
  rewrite bool_decide_eq_false_2 by done. cbn [orb].
  destruct (endswith_slash top) eqn:Ee.
  - apply endswith_slash_inv in Ee as [r ->].
    rewrite append_assoc, append_cons, append_nil_l.
    rewrite !str_split_app_sep, (str_split_no_sep "/" d) by done.
    change (str_split "/" "") with [""].
    rewrite !filter_app, <- app_assoc. f_equal.
    by rewrite filter_cons_True, filter_cons_False, filter_nil by done.
  - rewrite append_cons, append_nil_l, str_split_app_sep,
      (str_split_no_sep "/" d) by done.
    rewrite filter_app. f_equal. by rewrite filter_cons_True by done.
Qed.

(** The path of an entry of [top]: one more component. *)
Lemma Path_of_join top d :
  proper_name d = true →
  Path_of (os_path_join top d)
  = {| anchor := anchor (Path_of top); segments := segments (Path_of top) ++ [d] |}.
Proof.
  intros Hd.
  pose proof (segments_join top d Hd) as Hseg.
  pose proof (splitroot_join_anchor top d Hd) as Hanc.
  rewrite <- !Path_of_anchor in Hanc.
  destruct (Path_of (os_path_join top d)). cbn in *. by subst.
Qed.

Lemma Path_div_proper p file :
  proper_name file = true →
  Path_div p file = {| anchor := anchor p; segments := segments p ++ [file] |}.
Proof. intros Hf. unfold Path_div. by rewrite Path_of_proper by done. Qed.

Lemma is_prefix_app l r : is_prefix l (l ++ r) = true.
Proof.
  induction l as [|x l IH]; [done|]. cbn. by rewrite String.eqb_refl, IH.
Qed.

(** A path below [other] is relative to it by the components that follow. *)
Lemma relative_to_below other rel :
  relative_to {| anchor := anchor (Path_of other);
                 segments := segments (Path_of other) ++ rel |} other
  = Ok {| anchor := ""; segments := rel |}.
Proof.
  unfold relative_to. cbn [anchor segments].
  by rewrite String.eqb_refl, is_prefix_app, drop_app_length.
Qed.

Lemma Path_name_app a l x :
  Path_name {| anchor := a; segments := l ++ [x] |} = x.
Proof. unfold Path_name. cbn. apply last_last. Qed.

(** *** Entry names *)

Lemma normpath_steps_proper l acc :
  Forall (λ x, proper_name x = true) l →
  fold_left (normpath_step false) l acc = acc ++ l.
Proof.
  intros Hl. revert acc. induction Hl as [|x l Hx Hl IH]; intros acc.
  - by rewrite app_nil_r.
  - cbn [fold_left]. rewrite IH.
    unfold proper_name in Hx. rewrite !andb_true_iff, !negb_true_iff in Hx.
    destruct Hx as [[[H1 H2] H3] H4].
    unfold normpath_step. rewrite H1, H2, H3. cbn. by rewrite <- app_assoc.
Qed.

Lemma str_join_proper_nonempty x l :
  proper_name x = true →
  ∃ c r, str_join "/" (x :: l) = String c r ∧ Ascii.eqb c "/" = false.
Proof.
  intros Hx. apply proper_name_spec in Hx as (Hne & _ & _ & Hs).
  destruct x as [|c r]; [done|]. exists c.
  cbn [contains] in Hs. apply orb_false_iff in Hs as [Hc _].
  destruct l as [|y l].
  - by exists r.
  - rewrite str_join_cons, append_cons. eauto.
Qed.

(** The archive names a relative path of proper components by its text. *)
Lemma zip_arcname_proper rel :
  rel ≠ [] → Forall (λ x, proper_name x = true) rel →
  zip_arcname (Path_str {| anchor := ""; segments := rel |}) = str_join "/" rel.
Proof.
  intros Hne Hall. destruct rel as [|x l]; [done|].
  unfold Path_str. cbn [anchor segments]. rewrite append_nil_l.
  destruct (str_join_proper_nonempty x l) as (c & r & Hj & Hc);
    [by inversion Hall|].
  assert (Hsplit : str_split "/" (str_join "/" (x :: l)) = x :: l).
  { apply str_split_join; [done|].
    eapply Forall_impl; [exact Hall|]. intros y Hy.
    by apply proper_name_spec in Hy as (_ & _ & _ & ?). }
  unfold zip_arcname, normpath. rewrite Hsplit. rewrite Hj in *.
  cbn [String.eqb]. unfold splitroot. cbn [startswith_slash]. rewrite Hc.
  cbn [negb String.eqb]. rewrite normpath_steps_proper by done.
  cbn [app]. rewrite append_nil_l, Hj. cbn [String.eqb lstrip_slashes]. by rewrite Hc.
Qed.

(** ** Where a pending Ctrl-C can go *)

Create HintDb run_db.

Lemma ki_safe_keep {A} (m : M A) :
  (∀ w, pending_sigint (m w).2 = pending_sigint w) → ki_safe m.
Proof.
  intros H w r w' Hm [k Hk] Hnone. specialize (H w). rewrite Hm in H.
  cbn in H. congruence.
Qed.

Lemma ki_safe_ret {A} (a : A) : ki_safe (mret a).
Proof. by apply ki_safe_keep. Qed.

Lemma ki_safe_raise {A} e : ki_safe (raise (A:=A) e).
Proof. by apply ki_safe_keep. Qed.

Lemma ki_safe_sys_exit {A} c : ki_safe (sys_exit (A:=A) c).
Proof. by apply ki_safe_keep. Qed.

Lemma ki_safe_lift {A} (r : result A) : ki_safe (lift r).
Proof. by apply ki_safe_keep. Qed.

Lemma ki_safe_print msg : ki_safe (print msg).
Proof. by apply ki_safe_keep. Qed.

Lemma ki_safe_mkdir p : ki_safe (mkdir p).
Proof. by apply ki_safe_keep. Qed.

Lemma ki_safe_ZipFile_w p : ki_safe (ZipFile_w p).
Proof. by apply ki_safe_keep. Qed.

Lemma ki_safe_append_entry p x : ki_safe (append_entry p x).
Proof. by apply ki_safe_keep. Qed.

Lemma ki_safe_checkpoint : ki_safe checkpoint.
Proof.
  intros w r w' Hm [k Hk] Hnone. unfold checkpoint in Hm. rewrite Hk in Hm.
  destruct k; injection Hm as <- <-; done.
Qed.

Lemma ki_safe_bind {A B} (m : M A) (f : A → M B) :
  ki_safe m → (∀ a, ki_safe (f a)) → ki_safe (m ≫= f).
Proof.
  intros Hm Hf w r w' Hb Hk Hnone. unfold mbind, M_bind in Hb.
  destruct (m w) as [[a|e] w1] eqn:E.
  - destruct (pending_sigint w1) as [k1|] eqn:E1.
    + eapply Hf; [exact Hb|by rewrite E1|done].
    + by pose proof (Hm _ _ _ E Hk E1).
  - injection Hb as <- <-. by pose proof (Hm _ _ _ E Hk Hnone) as [= ->].
Qed.

Lemma ki_safe_try {A} (m : M A) h :
  ki_safe m → (∀ e, ki_safe (h e)) → ki_safe (try_except_Exception m h).
Proof.
  intros Hm Hh w r w' Hb Hk Hnone. unfold try_except_Exception in Hb.
  destruct (m w) as [[a|e] w1] eqn:E.
  - injection Hb as <- <-. by eapply Hm.
  - destruct (is_Exception e) eqn:Ee.
    + destruct (pending_sigint w1) as [k1|] eqn:E1.
      * eapply Hh; [exact Hb|by rewrite E1|done].
      * pose proof (Hm _ _ _ E Hk E1) as [= ->]. done.
    + injection Hb as <- <-. by eapply Hm.
Qed.

Lemma ki_safe_for_each {A S} (body : A → S → M S) l s :
  (∀ x s, ki_safe (body x s)) → ki_safe (for_each body l s).
Proof.
  intros Hb. revert s. induction l as [|x l IH]; intros s; cbn [for_each].
  - apply ki_safe_ret.
  - apply ki_safe_bind; [apply Hb|apply IH].
Qed.

Lemma ki_safe_ext {A} (m1 m2 : M A) :
  (∀ w, m1 w = m2 w) → ki_safe m2 → ki_safe m1.
Proof. intros H H2 w r w' Hm. rewrite H in Hm. by apply H2. Qed.

#[local] Hint Resolve ki_safe_ret ki_safe_raise ki_safe_sys_exit ki_safe_lift
  ki_safe_print ki_safe_mkdir ki_safe_ZipFile_w ki_safe_append_entry
  ki_safe_checkpoint ki_safe_bind ki_safe_try ki_safe_for_each : run_db.

Lemma ki_safe_stat_size ENV source_dir p : ki_safe (stat_size ENV source_dir p).
Proof.
  unfold stat_size. destruct (fs_lookup _ _ _) as [[]|]; auto with run_db.
Qed.

Lemma ki_safe_zipf_write ENV source_dir z p arc :
  ki_safe (zipf_write ENV source_dir z p arc).
Proof.
  unfold zipf_write. destruct (fs_lookup _ _ _) as [[? ? []|]|]; auto with run_db.
Qed.

#[local] Hint Resolve ki_safe_stat_size ki_safe_zipf_write : run_db.

Lemma ki_safe_visit ENV source_dir E ev s : ki_safe (visit ENV source_dir E ev s).
Proof.
  destruct ev as [|root file]; cbn [visit]; [auto with run_db|].
  unfold discover_file. destruct s as [fps tot].
  apply ki_safe_bind; [auto with run_db|]. intros _.
  case_bool_decide; auto 10 with run_db.
Qed.

Lemma ki_safe_discover ENV source_dir E : ki_safe (discover ENV source_dir E).
Proof.
  unfold discover. destruct (source ENV) as [src|]; [|auto with run_db].
  eapply ki_safe_ext; [intros w; apply discover_events|].
  apply ki_safe_for_each. intros. apply ki_safe_visit.
Qed.

Lemma ki_safe_write_file ENV source_dir z total p i :
  ki_safe (write_file ENV source_dir z total p i).
Proof. unfold write_file. auto 10 with run_db. Qed.

#[local] Hint Resolve ki_safe_discover ki_safe_write_file : run_db.

Lemma ki_safe_create_zip ENV source_dir output_path custom_name exclude ts :
  ki_safe (create_zip ENV source_dir output_path custom_name exclude ts).
Proof.
  unfold create_zip.
  apply ki_safe_bind; [auto with run_db|]. intros _.
  apply ki_safe_bind; [auto with run_db|]. intros [fps total].
  apply ki_safe_bind; [case_bool_decide; auto with run_db|]. intros _.
  apply ki_safe_bind; [auto with run_db|]. intros _.
  apply ki_safe_try; [|auto with run_db].
  auto 20 with run_db.
Qed.

Lemma ki_safe_main ENV a : ki_safe (main ENV a).
Proof.
  unfold main. apply ki_safe_bind; [auto with run_db|]. intros _.
  apply ki_safe_create_zip.
Qed.

(** ** Relations that every step keeps *)

Global Instance same_disk_preorder : PreOrder same_disk.
Proof.
  split; [by intros w|].
  intros w1 w2 w3 [H1 H2] [H3 H4]. split; congruence.
Qed.

Global Instance calm_preorder : PreOrder calm.
Proof. split; unfold calm; [by intros w|intros w1 w2 w3; tauto]. Qed.

Global Instance keeps_preorder zp : PreOrder (keeps zp).
Proof. split; unfold keeps; [by intros w|intros w1 w2 w3; tauto]. Qed.

Section preserves.
Context (R : relation world) `{!PreOrder R}.

Lemma preserves_ret {A} (a : A) : preserves R (mret a).
Proof. intros w r w' [= <- <-]. reflexivity. Qed.

Lemma preserves_raise {A} e : preserves R (raise (A:=A) e).
Proof. intros w r w' [= <- <-]. reflexivity. Qed.

Lemma preserves_sys_exit {A} c : preserves R (sys_exit (A:=A) c).
Proof. apply preserves_raise. Qed.

Lemma preserves_lift {A} (r : result A) : preserves R (lift r).
Proof. intros w r' w' [= <- <-]. reflexivity. Qed.

Lemma preserves_bind {A B} (m : M A) (f : A → M B) :
  preserves R m → (∀ a, preserves R (f a)) → preserves R (m ≫= f).
Proof.
  intros Hm Hf w r w' Hb. unfold mbind, M_bind in Hb.
  destruct (m w) as [[a|e] w1] eqn:E.
  - etrans; [by eapply Hm|by eapply Hf].
  - injection Hb as <- <-. by eapply Hm.
Qed.

Lemma preserves_try {A} (m : M A) h :
  preserves R m → (∀ e, preserves R (h e)) →
  preserves R (try_except_Exception m h).
Proof.
  intros Hm Hh w r w' Hb. unfold try_except_Exception in Hb.
  destruct (m w) as [[a|e] w1] eqn:E.
  - injection Hb as <- <-. by eapply Hm.
  - destruct (is_Exception e).
    + etrans; [by eapply Hm|by eapply Hh].
    + injection Hb as <- <-. by eapply Hm.
Qed.

Lemma preserves_for_each {A S} (body : A → S → M S) l s :
  (∀ x s, preserves R (body x s)) → preserves R (for_each body l s).
Proof.
  intros Hb. revert s. induction l as [|x l IH]; intros s; cbn [for_each].
  - apply preserves_ret.
  - apply preserves_bind; [apply Hb|apply IH].
Qed.

Lemma preserves_ext {A} (m1 m2 : M A) :
  (∀ w, m1 w = m2 w) → preserves R m2 → preserves R m1.
Proof. intros H H2 w r w' Hm. rewrite H in Hm. by eapply H2. Qed.

(** Discovery only prints and passes checkpoints. *)
Hypothesis R_print : ∀ msg, preserves R (print msg).
Hypothesis R_checkpoint : preserves R checkpoint.

Lemma preserves_stat_size ENV source_dir p :
  preserves R (stat_size ENV source_dir p).
Proof.
  unfold stat_size.
  destruct (fs_lookup _ _ _) as [[]|];
    auto using preserves_ret, preserves_raise.
Qed.

Lemma preserves_visit ENV source_dir E ev s :
  preserves R (visit ENV source_dir E ev s).
Proof.
  destruct ev as [|root file]; cbn [visit].
  { apply preserves_bind; [done|]. intros _. apply preserves_ret. }
  unfold discover_file. destruct s as [fps tot].
  apply preserves_bind; [done|]. intros _.
  case_bool_decide; [|apply preserves_ret].
  apply preserves_bind; [apply preserves_stat_size|]. intros sz.
  apply preserves_bind; [done|]. intros _. apply preserves_ret.
Qed.

Lemma preserves_discover ENV source_dir E :
  preserves R (discover ENV source_dir E).
Proof.
  unfold discover. destruct (source ENV) as [src|]; [|apply preserves_ret].
  eapply preserves_ext; [intros w; apply discover_events|].
  apply preserves_for_each. intros. apply preserves_visit.
Qed.
End preserves.

Lemma same_disk_print msg : preserves same_disk (print msg).
Proof. by intros w r w' [= <- <-]. Qed.

Lemma same_disk_checkpoint : preserves same_disk checkpoint.
Proof.
  intros w r w'. unfold checkpoint.
  destruct (pending_sigint w) as [[]|]; by intros [= <- <-].
Qed.

Lemma calm_print msg : preserves calm (print msg).
Proof. intros w r w' [= <- <-]. by unfold calm. Qed.

Lemma calm_checkpoint : preserves calm checkpoint.
Proof.
  intros w r w' H Hnone. unfold checkpoint in H. rewrite Hnone in H.
  by injection H as <- <-.
Qed.

(** Discovery creates no directory and touches no archive. *)
Lemma same_disk_discover ENV source_dir E :
  preserves same_disk (discover ENV source_dir E).
Proof.
  apply preserves_discover;
    [apply _|apply same_disk_print|apply same_disk_checkpoint].
Qed.

Lemma calm_discover ENV source_dir E :
  preserves calm (discover ENV source_dir E).
Proof.
  apply preserves_discover; [apply _|apply calm_print|apply calm_checkpoint].
Qed.

(** ** Well-formed trees *)

Lemma map_fmap {A B} (f : A → B) l : map f l = f <$> l.
Proof. induction l as [|x l IH]; [done|]. cbn. by rewrite IH. Qed.

Lemma find_child_NoDup es c :
  NoDup (map node_name es) → c ∈ es → find_child (node_name c) es = Some c.
Proof.
  rewrite map_fmap.
  induction es as [|c' es IH]; [by intros _ ?%elem_of_nil|].
  rewrite fmap_cons, NoDup_cons. intros [Hnotin Hnd] Hc. cbn [find_child].
  apply elem_of_cons in Hc as [->|Hc]; [by rewrite String.eqb_refl|].
  destruct (String.eqb_spec (node_name c') (node_name c)) as [Heq|_]; [|by apply IH].
  destruct Hnotin. rewrite Heq. by apply list_elem_of_fmap_2.
Qed.

Lemma wf_dir_Dir name es :
  wf_dir (Dir name es) = true →
  Forall (λ c, wf_node c = true) es ∧ NoDup (map node_name es).
Proof.
  cbn [wf_dir]. rewrite andb_true_iff, bool_decide_eq_true.
  intros [H ?]. split; [|done]. apply Forall_forall. intros c Hc.
  rewrite forallb_forall in H. apply H. by apply list_elem_of_In.
Qed.

Lemma wf_node_dir c : wf_node c = true → proper_name (node_name c) = true ∧ wf_dir c = true.
Proof.
  destruct c as [name sz r|name es]; cbn [wf_node wf_dir node_name]; [done|].
  rewrite !andb_true_iff. tauto.
Qed.

Lemma elem_of_file_names f (es : list node) :
  f ∈ omap file_name es → ∃ sz r, File f sz r ∈ es.
Proof.
  rewrite list_elem_of_omap. intros ([name sz r|name es'] & Hc & [= <-]). eauto.
Qed.

Lemma found_Dir E name es :
  found E (Dir name es)
  = map (λ f, [f]) (filter (λ f, kept E f = true) (omap file_name es)) ++
    flat_map (λ c, match c with
                   | Dir d _ => if kept E d then map (cons d) (found E c) else []
                   | File _ _ _ => []
                   end) es.
Proof. done. Qed.

(** The directory part of the events, entry by entry. *)
Lemma walk_children_flat_map_aux keep top es es' :
  NoDup (map node_name es) → (∀ c, c ∈ es' → c ∈ es) →
  concat (map (walk_child keep top es) (filter (λ d, keep d = true) (omap dir_name es')))
  = flat_map (λ c, match c with
                   | Dir d _ =>
                       if keep d then walk_events keep (os_path_join top d) c else []
                   | File _ _ _ => []
                   end) es'.
Proof.
  intros Hnd Hsub.
  induction es' as [|c es' IH]; [done|].
  cbn [omap list_omap flat_map].
  rewrite <- IH by (intros; apply Hsub; by right).
  destruct c as [name sz r|d sub]; cbn [dir_name]; [done|].
  destruct (keep d) eqn:Ek.
  - rewrite filter_cons_True by done. cbn [map concat]. f_equal.
    unfold walk_child.
    pose proof (find_child_NoDup es (Dir d sub) Hnd) as Hf.
    cbn [node_name] in Hf. rewrite Hf; [done|]. apply Hsub. by left.
  - rewrite filter_cons_False by (by rewrite Ek). done.
Qed.

Lemma walk_children_flat_map keep top es :
  NoDup (map node_name es) →
  concat (map (walk_child keep top es) (filter (λ d, keep d = true) (omap dir_name es)))
  = flat_map (λ c, match c with
                   | Dir d _ =>
                       if keep d then walk_events keep (os_path_join top d) c else []
                   | File _ _ _ => []
                   end) es.
Proof. intros Hnd. by apply walk_children_flat_map_aux. Qed.

(** ** The discovered paths, as a function of the tree *)

Lemma below_app source_dir ds d :
  {| anchor := anchor (below source_dir ds);
     segments := segments (below source_dir ds) ++ [d] |}
  = below source_dir (ds ++ [d]).
Proof. unfold below. cbn. by rewrite app_assoc. Qed.

Lemma omap_cons {A B} (f : A → option B) x (l : list A) :
  omap f (x :: l)
  = match f x with Some y => y :: omap f l | None => omap f l end.
Proof. done. Qed.

Lemma entry_paths_files E source_dir top ds files :
  Path_of top = below source_dir ds →
  Forall (λ f, proper_name f = true) files →
  omap (entry_path E) (map (Entry top) files)
  = map (λ rel, below source_dir (ds ++ rel))
      (map (λ f, [f]) (filter (λ f, kept E f = true) files)).
Proof.
  intros Htop Hall. induction Hall as [|f files Hf Hall IH]; [done|].
  cbn [map]. rewrite omap_cons. cbn [entry_path].
  destruct (kept E f) eqn:Ek.
  - rewrite filter_cons_True by done. cbn [map].
    rewrite <- IH. f_equal.
    by rewrite Path_div_proper, Htop, below_app by done.
  - rewrite filter_cons_False by (by rewrite Ek). apply IH.
Qed.

Lemma events_found E source_dir n :
  ∀ top ds,
    wf_dir n = true → Path_of top = below source_dir ds →
    omap (entry_path E) (walk_events (kept E) top n)
    = map (λ rel, below source_dir (ds ++ rel)) (found E n).
Proof.
  induction n as [name sz r|name es IH] using node_ind'; intros top ds Hwf Htop;
    [done|].
  destruct (wf_dir_Dir _ _ Hwf) as [Hall Hnd].
  rewrite walk_events_Dir, found_Dir, walk_children_flat_map by done.
  rewrite omap_cons. cbn [entry_path].
  rewrite omap_app, List.map_app. f_equal.
  - apply entry_paths_files; [done|].
    apply Forall_forall. intros f (sz & r & Hf)%elem_of_file_names.
    rewrite Forall_forall in Hall. by apply (Hall _ Hf).
  - clear Hnd Hwf. induction es as [|c es IHes]; [done|].
    inversion IH as [|? ? IHc IH']; subst.
    inversion Hall as [|? ? Hc Hall']; subst.
    cbn [flat_map]. rewrite omap_app, List.map_app, IHes by done. f_equal.
    destruct c as [f sz r|d sub]; [done|].
    destruct (kept E d); [|done].
    apply wf_node_dir in Hc as [Hd Hsub]. cbn [node_name] in Hd.
    rewrite (IHc (os_path_join top d) (ds ++ [d])); [| done |].
    + rewrite List.map_map. apply List.map_ext. intros rel.
      by rewrite <- app_assoc.
    + by rewrite Path_of_join, Htop, below_app by done.
Qed.

(** What the loop over the events appends to the list of paths. *)
Lemma for_each_visit_paths ENV source_dir E evs :
  ∀ fps tot w fps' tot' w',
    for_each (visit ENV source_dir E) evs (fps, tot) w = (Ok (fps', tot'), w') →
    fps' = fps ++ omap (entry_path E) evs.
Proof.
  induction evs as [|ev evs IH]; intros fps tot w fps' tot' w' H.
  - injection H as <- <- <-. by rewrite app_nil_r.
  - cbn [for_each] in H. unfold mbind, M_bind in H.
    destruct (visit ENV source_dir E ev (fps, tot) w) as [[[fps1 tot1]|e] w1] eqn:Ev;
      [|done].
    apply IH in H as ->. rewrite omap_cons.
    destruct ev as [|root file]; cbn [visit entry_path] in *.
    + unfold mbind, M_bind, mret, M_ret in Ev.
      destruct (checkpoint w) as [[[]|] ?]; [|done]. by injection Ev as <- <- <-.
    + unfold discover_file, kept, mbind, M_bind, mret, M_ret in *.
      destruct (checkpoint w) as [[[]|] w2]; [|done].
      case_bool_decide.
      * destruct (stat_size _ _ _ w2) as [[sz|] w3]; [|done].
        injection Ev as <- <- <-. by rewrite <- app_assoc.
      * by injection Ev as <- <- <-.
Qed.

(** The paths that a finished discovery returns. *)
Lemma discover_found ENV source_dir E w fps total w' :
  wf_source (source ENV) = true →
  discover ENV source_dir E w = (Ok (fps, total), w') →
  fps = map (below source_dir)
          (match source ENV with Some src => found E src | None => [] end).
Proof.
  intros Hwf H. unfold discover in H.
  destruct (source ENV) as [src|]; [|by injection H as <- <- <-].
  rewrite discover_events in H. apply for_each_visit_paths in H as ->.
  cbn [app].
  rewrite (events_found E source_dir src source_dir []).
  - done.
  - by destruct src.
  - unfold below. rewrite app_nil_r. by destruct (Path_of source_dir).
Qed.

(** ** What the found paths are *)

Lemma elem_of_found_Dir E name es rel :
  rel ∈ found E (Dir name es) ↔
    (∃ f, rel = [f] ∧ kept E f = true ∧ f ∈ omap file_name es) ∨
    (∃ d sub rel', rel = d :: rel' ∧ Dir d sub ∈ es ∧ kept E d = true ∧
                   rel' ∈ found E (Dir d sub)).
Proof.
  rewrite found_Dir, elem_of_app, map_fmap, list_elem_of_fmap.
  rewrite (list_elem_of_In (flat_map _ _)), in_flat_map.
  split.
  - intros [(f & -> & Hf)|(c & Hc & Hrel)].
    + left. exists f. by apply list_elem_of_filter in Hf as [? ?].
    + right. destruct c as [|d sub]; [done|].
      destruct (kept E d) eqn:Ek; [|done].
      apply in_map_iff in Hrel as (rel' & <- & Hrel').
      exists d, sub, rel'. by rewrite !list_elem_of_In.
  - intros [(f & -> & Hk & Hf)|(d & sub & rel' & -> & Hc & Hk & Hrel')].
    + left. exists f. split; [done|]. by apply list_elem_of_filter.
    + right. exists (Dir d sub). split; [by apply list_elem_of_In|].
      rewrite Hk. apply in_map. by apply list_elem_of_In.
Qed.

Lemma kept_spec E x : kept E x = true ↔ x ∉ E.
Proof. unfold kept. by rewrite bool_decide_eq_true. Qed.

Lemma resolve_child name es c rel :
  NoDup (map node_name es) → c ∈ es →
  resolve (Dir name es) (node_name c :: rel) = resolve c rel.
Proof. intros Hnd Hc. cbn [resolve]. by rewrite find_child_NoDup. Qed.

(** A found path is not empty, none of its components is excluded, and
    it leads to a file of the tree. *)
Lemma found_spec E n :
  ∀ rel, wf_dir n = true → rel ∈ found E n →
    rel ≠ [] ∧ Forall (λ c, (c ∉ E) ∧ proper_name c = true) rel ∧
    ∃ sz r, resolve n rel = Some (File (List.last rel "") sz r).
Proof.
  induction n as [name sz r|name es IH] using node_ind'; intros rel Hwf Hrel;
    [by apply elem_of_nil in Hrel|].
  destruct (wf_dir_Dir _ _ Hwf) as [Hall Hnd].
  rewrite Forall_forall in Hall, IH.
  apply elem_of_found_Dir in Hrel
    as [(f & -> & Hk & Hf)|(d & sub & rel' & -> & Hc & Hk & Hrel')].
  - apply elem_of_file_names in Hf as (sz & r & Hf).
    split; [done|]. split.
    + repeat constructor; [by apply kept_spec|]. by apply (Hall _ Hf).
    + exists sz, r.
      exact (resolve_child name es (File f sz r) [] Hnd Hf).
  - destruct (wf_node_dir _ (Hall _ Hc)) as [Hd Hsub]. cbn [node_name] in Hd.
    destruct (IH _ Hc rel' Hsub Hrel') as (Hne & Hfa & sz & r & Hres).
    split; [done|]. split.
    + constructor; [|done]. split; [by apply kept_spec|done].
    + exists sz, r.
      pose proof (resolve_child name es (Dir d sub) rel' Hnd Hc) as Hr.
      cbn [node_name] in Hr. rewrite Hr, Hres. by destruct rel'.
Qed.

Lemma NoDup_file_names es :
  NoDup (map node_name es) → NoDup (omap file_name es).
Proof.
  rewrite map_fmap. induction es as [|c es IH]; [constructor|].
  rewrite fmap_cons, NoDup_cons, omap_cons. intros [Hc Hnd].
  destruct c as [f sz r|d sub]; cbn [file_name]; [|by apply IH].
  apply NoDup_cons. split; [|by apply IH].
  intros (c & Hin & Hf)%list_elem_of_omap. apply Hc.
  destruct c; [|done]. injection Hf as ->. by apply (list_elem_of_fmap_2 node_name) in Hin.
Qed.

(** No path is found twice. *)
Lemma found_NoDup E n : wf_dir n = true → NoDup (found E n).
Proof.
  induction n as [name sz r|name es IH] using node_ind'; intros Hwf; [constructor|].
  destruct (wf_dir_Dir _ _ Hwf) as [Hall Hnd].
  rewrite found_Dir. apply NoDup_app. split; [|split].
  - rewrite map_fmap. apply NoDup_fmap_2; [by intros ?? [= ->]|].
    apply NoDup_filter. by apply NoDup_file_names.
  - intros rel. rewrite map_fmap. intros (f & -> & _)%list_elem_of_fmap.
    intros Hin. apply list_elem_of_In, in_flat_map in Hin as (c & Hc & Hrel).
    destruct c as [|d sub]; [done|]. destruct (kept E d); [|done].
    apply in_map_iff in Hrel as (rel' & [= _ ->] & Hrel').
    apply list_elem_of_In in Hrel', Hc. rewrite Forall_forall in Hall.
    destruct (wf_node_dir _ (Hall _ Hc)) as [_ Hsub].
    by destruct (found_spec E _ _ Hsub Hrel') as [? _].
  - clear Hwf. rewrite map_fmap in Hnd.
    induction es as [|c es IHes]; [constructor|].
    inversion IH as [|? ? IHc IH']; subst.
    inversion Hall as [|? ? Hc Hall']; subst.
    rewrite fmap_cons, NoDup_cons in Hnd. destruct Hnd as [Hnotin Hnd].
    cbn [flat_map]. apply NoDup_app. split; [|split]; [| |by apply IHes].
    + destruct c as [|d sub]; [constructor|]. destruct (kept E d); [|constructor].
      rewrite map_fmap. apply NoDup_fmap_2; [by intros ?? [= ->]|].
      apply IHc. by apply wf_node_dir in Hc as [_ ?].
    + intros rel Hrel Hin.
      apply list_elem_of_In, in_flat_map in Hin as (c' & Hc' & Hrel2).
      destruct c as [|d sub]; [by apply elem_of_nil in Hrel|].
      destruct (kept E d); [|by apply elem_of_nil in Hrel].
      rewrite map_fmap in Hrel. apply list_elem_of_fmap in Hrel as (rel' & -> & _).
      destruct c' as [|d' sub']; [done|]. destruct (kept E d'); [|done].
      apply in_map_iff in Hrel2 as (rel2 & [= -> _] & _).
      apply Hnotin. cbn [node_name].
      apply list_elem_of_In in Hc'.
      by apply (list_elem_of_fmap_2 node_name) in Hc'.
Qed.

(** ** The compression loop *)

Lemma checkpoint_calm w : pending_sigint w = None → checkpoint w = (Ok (), w).
Proof. intros H. unfold checkpoint. by rewrite H. Qed.

Lemma Path_str_relative rel :
  rel ≠ [] → Path_str {| anchor := ""; segments := rel |} = str_join "/" rel.
Proof. intros H. unfold Path_str. cbn. by destruct rel. Qed.

Lemma readable_resolve n rel name sz r :
  readable_node n = true → resolve n rel = Some (File name sz r) → r = true.
Proof.
  revert rel. induction n as [name' sz' r'|name' es IH] using node_ind';
    intros rel Hr Hres.
  - destruct rel; [|done]. cbn in *. by injection Hres as -> -> ->.
  - destruct rel as [|d rel]; [done|]. cbn [resolve] in Hres.
    destruct (find_child d es) as [c|] eqn:Hc; [|done]. cbn in Hres.
    apply find_child_Some in Hc as [Hc _].
    rewrite Forall_forall in IH. apply (IH _ Hc rel); [|done].
    cbn [readable_node] in Hr. rewrite forallb_forall in Hr.
    apply Hr. by apply list_elem_of_In.
Qed.

Section write_loop.
Context (ENV : env) (source_dir : string) (E : gset string) (src : node).
Context (zip_path : Path) (total : nat).
Hypothesis Hsrc : source ENV = Some src.
Hypothesis Hwf : wf_dir src = true.
Hypothesis Hread : readable_node src = true.

Lemma write_file_found rel i w old :
  rel ∈ found E src →
  pending_sigint w = None →
  archives w !! Path_str zip_path = Some old →
  ∃ w', write_file ENV source_dir zip_path total (below source_dir rel) i w
        = (Ok (S i), w') ∧
        pending_sigint w' = None ∧
        archives w' !! Path_str zip_path = Some (old ++ [str_join "/" rel]).
Proof.
  intros Hrel Hcalm Hold.
  destruct (found_spec E src rel Hwf Hrel) as (Hne & Hall & sz & r & Hres).
  assert (r = true) as -> by (by eapply readable_resolve).
  unfold write_file, mbind, M_bind. rewrite checkpoint_calm by done.
  unfold lift, below. rewrite relative_to_below.
  unfold zipf_write, fs_lookup. fold (below source_dir rel).
  unfold below at 1. rewrite relative_to_below, Hsrc. cbn [segments].
  rewrite Hres, zip_arcname_proper; [|done|].
  2:{ eapply Forall_impl; [exact Hall|]. by intros ? [_ ?]. }
  unfold append_entry, print, mret, M_ret. rewrite Hold.
  eexists. split; [reflexivity|]. cbn. split; [done|].
  by rewrite lookup_insert_eq.
Qed.

Lemma write_loop rels :
  ∀ i w old,
    Forall (λ rel, rel ∈ found E src) rels →
    pending_sigint w = None →
    archives w !! Path_str zip_path = Some old →
    ∃ w', for_each (write_file ENV source_dir zip_path total)
            (map (below source_dir) rels) i w
          = (Ok (i + length rels)%nat, w') ∧
          pending_sigint w' = None ∧
          archives w' !! Path_str zip_path
          = Some (old ++ map (str_join "/") rels).
Proof.
  induction rels as [|rel rels IH]; intros i w old Hall Hcalm Hold.
  - exists w. cbn. by rewrite Nat.add_0_r, app_nil_r.
  - inversion Hall as [|? ? Hrel Hall']; subst.
    destruct (write_file_found rel i w old Hrel Hcalm Hold)
      as (w1 & Hw & Hcalm1 & Hold1).
    destruct (IH (S i) w1 _ Hall' Hcalm1 Hold1) as (w2 & Hl & Hcalm2 & Hold2).
    exists w2. cbn [map for_each]. unfold mbind, M_bind. rewrite Hw, Hl.
    split; [do 2 f_equal; cbn; lia|]. split; [done|].
    by rewrite Hold2, <- app_assoc.
Qed.
End write_loop.

Lemma try_bind_Ok {A B} (m : M A) (f : A → M B) h w a w1 :
  m w = (Ok a, w1) →
  try_except_Exception (m ≫= f) h w = try_except_Exception (f a) h w1.
Proof. intros H. unfold try_except_Exception, mbind, M_bind. by rewrite H. Qed.

(** The relative paths, as text, are as different as the paths. *)
Lemma str_join_found_NoDup E src :
  wf_dir src = true → NoDup (map (str_join "/") (found E src)).
Proof.
  intros Hwf. rewrite map_fmap.
  apply NoDup_fmap_2_strong; [|by apply found_NoDup].
  intros r1 r2 H1 H2 Heq.
  destruct (found_spec E src r1 Hwf H1) as (Hne1 & Hall1 & _).
  destruct (found_spec E src r2 Hwf H2) as (Hne2 & Hall2 & _).
  assert (∀ r, Forall (λ c, (c ∉ E) ∧ proper_name c = true) r →
               Forall (λ w, contains "/" w = false) r) as Hc.
  { intros r Hr. eapply Forall_impl; [exact Hr|]. intros c [_ Hp].
    by apply proper_name_spec in Hp as (_ & _ & _ & ?). }
  rewrite <- (str_split_join "/" r1), <- (str_split_join "/" r2) by auto.
  by rewrite Heq.
Qed.

(** ** Digit strings *)

Lemma length_append (s t : string) :
  String.length (s +:+ t) = (String.length s + String.length t)%nat.
Proof. induction s as [|a s IH]; [done|]. rewrite append_cons. cbn. by rewrite IH. Qed.

Lemma all_digits_append (s t : string) :
  all_digits (s +:+ t) = all_digits s && all_digits t.
Proof.
  induction s as [|a s IH]; [done|]. rewrite append_cons. cbn [all_digits].
  by rewrite IH, andb_assoc.
Qed.

Lemma zfill_2_digits r :
  0 ≤ r < 100 →
  String.length (zfill 2 (pretty r)) = 2%nat ∧ all_digits (zfill 2 (pretty r)) = true.
Proof.
  intros Hr.
  assert (Hall : Forall (λ r : Z,
            String.length (zfill 2 (pretty r)) = 2%nat ∧
            all_digits (zfill 2 (pretty r)) = true) (seqZ 0 100)).
  { apply (bool_decide_unpack _). vm_compute. exact I. }
  rewrite Forall_forall in Hall. apply Hall, elem_of_seqZ. lia.
Qed.

Lemma zfill_4_digits y :
  1000 ≤ y ≤ 9999 →
  String.length (zfill 4 (pretty y)) = 4%nat ∧ all_digits (zfill 4 (pretty y)) = true.
Proof.
  intros Hy.
  assert (Hall : Forall (λ y : Z,
            String.length (zfill 4 (pretty y)) = 4%nat ∧
            all_digits (zfill 4 (pretty y)) = true) (seqZ 1000 9000)).
  { apply (bool_decide_unpack _). vm_compute. exact I. }
  rewrite Forall_forall in Hall. apply Hall, elem_of_seqZ. lia.
Qed.

(** The timestamp: eight digits, an underscore, six digits. *)
Lemma strftime_shape t :
  valid_datetime t →
  ∃ d h, strftime t = d +:+ "_" +:+ h ∧
         String.length d = 8%nat ∧ String.length h = 6%nat ∧
         all_digits d = true ∧ all_digits h = true.
Proof.
  intros (Hy & Hmo & Hd & Hh & Hmi & Hs).
  destruct (zfill_4_digits (year t) Hy) as [Ly Dy].
  destruct (zfill_2_digits (month t)) as [Lmo Dmo]; [lia|].
  destruct (zfill_2_digits (day t)) as [Ld Dd]; [lia|].
  destruct (zfill_2_digits (hour t)) as [Lh Dh]; [lia|].
  destruct (zfill_2_digits (minute t)) as [Lmi Dmi]; [lia|].
  destruct (zfill_2_digits (second t)) as [Ls Ds]; [lia|].
  exists (zfill 4 (pretty (year t)) +:+ zfill 2 (pretty (month t)) +:+
          zfill 2 (pretty (day t))),
         (zfill 2 (pretty (hour t)) +:+ zfill 2 (pretty (minute t)) +:+
          zfill 2 (pretty (second t))).
  split; [unfold strftime; by rewrite !append_assoc|].
  rewrite !length_append, !all_digits_append, Ly, Lmo, Ld, Lh, Lmi, Ls,
    Dy, Dmo, Dd, Dh, Dmi, Ds. done.
Qed.

(** ** The run, phase by phase *)

(** [main] up to the start of the discovery. *)
Lemma main_discovering ENV a disk sigint :
  main ENV a (initial disk sigint)
  = ('(file_paths, total_size) ← discover ENV (arg_source a) (main_patterns a);
     (if bool_decide (file_paths = []) then print NoFilesFound;; sys_exit 1
      else mret ());;
     let zip_path := main_zip_path ENV a in
     mkdir (Path_parent zip_path);;
     try_except_Exception
       (print StartingCompression;;
        ZipFile_w zip_path;;
        for_each (write_file ENV (arg_source a) zip_path (length file_paths))
          file_paths 1%nat;;
        stats ← lift (make_stats ENV (arg_source a) file_paths total_size);
        print (Created (Path_str zip_path));;
        print (Stats stats))
       (λ e, print (Error e);; sys_exit 1)) (discovering disk sigint).
Proof. reflexivity. Qed.

Lemma script_SystemExit ENV a w code w' :
  main ENV a w = (Raise (SystemExit code), w') →
  script ENV a w = (Raise (SystemExit code), w').
Proof. intros H. unfold script, try_except_KeyboardInterrupt. by rewrite H. Qed.

(** A discovery that finds nothing ends the run. *)
Lemma main_no_files ENV a disk sigint total w1 :
  discover ENV (arg_source a) (main_patterns a) (discovering disk sigint)
  = (Ok ([], total), w1) →
  main ENV a (initial disk sigint)
  = (Raise (SystemExit 1),
     {| stdout := stdout w1 ++ [NoFilesFound]; made_dirs := [];
        archives := disk; pending_sigint := pending_sigint w1 |}).
Proof.
  intros H. rewrite main_discovering. unfold mbind at 1, M_bind. rewrite H.
  destruct (same_disk_discover _ _ _ _ _ _ H) as [Ha Hm].
  cbn in Ha, Hm. rewrite <- Ha, <- Hm. reflexivity.
Qed.

Lemma same_disk_after_loop ENV source_dir fps total zip_path :
  preserves same_disk
    (try_except_Exception
       (stats ← lift (make_stats ENV source_dir fps total);
        print (Created (Path_str zip_path));;
        print (Stats stats))
       (λ e, print (Error e);; sys_exit 1)).
Proof.
  apply preserves_try; [apply _| |].
  - apply preserves_bind; [apply _|apply preserves_lift, _|]. intros stats.
    apply preserves_bind; [apply _|apply same_disk_print|]. intros _.
    apply same_disk_print.
  - intros e. apply preserves_bind; [apply _|apply same_disk_print|]. intros _.
    apply preserves_sys_exit, _.
Qed.

(** A discovery that finds files is followed by an archive that lists
    them all, whatever the statistics do afterwards. *)
Lemma main_files ENV a disk fps total w1 :
  wf_source (source ENV) = true →
  readable_source (source ENV) = true →
  discover ENV (arg_source a) (main_patterns a) (discovering disk None)
  = (Ok (fps, total), w1) →
  fps ≠ [] →
  ∃ src,
    source ENV = Some src ∧ wf_dir src = true ∧
    fps = map (below (arg_source a)) (found (main_patterns a) src) ∧
    archives (main ENV a (initial disk None)).2 !! Path_str (main_zip_path ENV a)
    = Some (map (str_join "/") (found (main_patterns a) src)).
Proof.
  intros Hwf Hread H Hne.
  pose proof (discover_found _ _ _ _ _ _ _ Hwf H) as Hfps.
  destruct (source ENV) as [src|] eqn:Hsrc; [|by subst].
  assert (Hwfd : wf_dir src = true) by (by destruct src).
  pose proof (calm_discover _ _ _ _ _ _ H eq_refl) as Hcalm.
  exists src. split; [done|]. split; [done|]. split; [done|].
  rewrite main_discovering. unfold mbind at 1, M_bind. rewrite H.
  rewrite bool_decide_eq_false_2 by done.
  unfold mbind at 1 2, M_bind, mret at 1, M_ret, mkdir.
  set (zp := main_zip_path ENV a).
  set (body := write_file ENV (arg_source a) zp (length fps)).
  erewrite try_bind_Ok by reflexivity.
  erewrite try_bind_Ok by reflexivity.
  match goal with |- context [try_except_Exception _ _ ?W] =>
    destruct (write_loop ENV (arg_source a) (main_patterns a) src zp (length fps)
                Hsrc Hwfd Hread (found (main_patterns a) src) 1%nat W [])
      as (w5 & Hloop & Hcalm5 & Harch)
  end.
  { by apply Forall_forall. }
  { exact Hcalm. }
  { apply lookup_insert_eq. }
  rewrite <- Hfps in Hloop. fold body in Hloop.
  erewrite try_bind_Ok by exact Hloop.
  match goal with |- context [try_except_Exception ?m ?h w5] =>
    destruct (try_except_Exception m h w5) as [r w'] eqn:Hrest end.
  apply same_disk_after_loop in Hrest as [Ha _]. cbn [snd]. by rewrite Ha, Harch.
Qed.

Lemma script_archives ENV a w :
  archives (script ENV a w).2 = archives (main ENV a w).2.
Proof.
  unfold script, try_except_KeyboardInterrupt.
  destruct (main ENV a w) as [[[]|[]] w']; reflexivity.
Qed.

Lemma run_archives ENV a w : archives (run ENV a w).2 = archives (main ENV a w).2.
Proof.
  rewrite <- script_archives. unfold run. by destruct (script ENV a w).
Qed.

(** ** The archive, once created, stays *)

Lemma keeps_print zp msg : preserves (keeps zp) (print msg).
Proof. intros w r w' [= <- <-]. by unfold keeps. Qed.

Lemma keeps_checkpoint zp : preserves (keeps zp) checkpoint.
Proof.
  intros w r w'. unfold checkpoint, keeps.
  destruct (pending_sigint w) as [[]|]; by intros [= <- <-].
Qed.

Lemma keeps_append_entry zp p x : preserves (keeps zp) (append_entry p x).
Proof.
  intros w r w' [= <- <-]. unfold keeps. cbn [archives]. intros Hs.
  rewrite lookup_insert. by case_decide.
Qed.

Lemma keeps_zipf_write zp ENV source_dir z p arc :
  preserves (keeps zp) (zipf_write ENV source_dir z p arc).
Proof.
  unfold zipf_write.
  destruct (fs_lookup _ _ _) as [[? ? []|]|];
    auto using keeps_append_entry, preserves_raise, keeps_preorder.
Qed.

Lemma keeps_write_file zp ENV source_dir z total p i :
  preserves (keeps zp) (write_file ENV source_dir z total p i).
Proof.
  unfold write_file.
  apply preserves_bind; [apply _|apply keeps_checkpoint|]. intros _.
  apply preserves_bind; [apply _|apply preserves_lift, _|]. intros rel.
  apply preserves_bind; [apply _|apply keeps_zipf_write|]. intros _.
  apply preserves_bind; [apply _|apply keeps_print|]. intros _.
  apply preserves_ret, _.
Qed.

(** A discovery that finds files is followed by the creation of the
    archive, and the archive is there when the run ends. *)
Lemma archive_created ENV a disk sigint fps total w1 :
  discover ENV (arg_source a) (main_patterns a) (discovering disk sigint)
  = (Ok (fps, total), w1) →
  fps ≠ [] →
  is_Some (archives (run ENV a (initial disk sigint)).2
             !! Path_str (main_zip_path ENV a)).
Proof.
  intros H Hne. rewrite run_archives, main_discovering.
  unfold mbind at 1, M_bind. rewrite H.
  rewrite bool_decide_eq_false_2 by done.
  unfold mbind at 1 2, M_bind, mret at 1, M_ret, mkdir.
  set (zp := main_zip_path ENV a).
  erewrite try_bind_Ok by reflexivity.
  erewrite try_bind_Ok by reflexivity.
  match goal with |- context [try_except_Exception ?m ?h ?W] =>
    destruct (try_except_Exception m h W) as [r w'] eqn:Hrest;
    assert (Hk : preserves (keeps (Path_str zp)) (try_except_Exception m h))
  end.
  { apply preserves_try; [apply _| |].
    - apply preserves_bind; [apply _| |].
      + apply preserves_for_each; [apply _|]. intros. apply keeps_write_file.
      + intros _. apply preserves_bind; [apply _|apply preserves_lift, _|].
        intros stats. apply preserves_bind; [apply _|apply keeps_print|].
        intros _. apply keeps_print.
    - intros e. apply preserves_bind; [apply _|apply keeps_print|]. intros _.
      apply preserves_sys_exit, _. }
  apply Hk in Hrest. cbn [snd]. apply Hrest. cbn [archives].
  rewrite lookup_insert_eq. by eexists.
Qed.

(** ** The exclusion set *)

Lemma elem_of_exclude_patterns exclude c :
  c ∈ exclude_patterns exclude ↔ c ∈ default_patterns ∨ c ∈ default [] exclude.
Proof.
  unfold exclude_patterns, get_excluded_patterns.
  by rewrite elem_of_union, !elem_of_list_to_set.
Qed.

Lemma last_app_nonempty {A} (l1 l2 : list A) d :
  l2 ≠ [] → List.last (l1 ++ l2) d = List.last l2 d.
Proof.
  intros H. destruct l2 as [|x l2]; [done|]. clear H.
  induction l1 as [|y l1 IH]; [done|]. rewrite <- app_comm_cons.
  cbn [List.last]. rewrite IH. by destruct l1.
Qed.

(** C1: every discovered file lies below the source directory by a
    nonempty relative path none of whose components (the directories on
    the way and the file's own name, the last one) equals a default
    pattern or a pattern of the user, whatever the tree and the patterns;
    names that only contain a pattern ([notes.zip], [.github_old]) are
    kept. *)
Theorem discovered_not_excluded ENV source_dir exclude w fps total w' :
  wf_source (source ENV) = true →
  discover ENV source_dir (exclude_patterns exclude) w = (Ok (fps, total), w') →
  Forall (λ p, ∃ rel,
            relative_to p source_dir = Ok {| anchor := ""; segments := rel |} ∧
            rel ≠ [] ∧ Path_name p = List.last rel "" ∧
            Forall (λ c, (c ∉ default_patterns) ∧ (c ∉ default [] exclude)) rel)
    fps ∧
  found (exclude_patterns None) Sample.lookalikes
  = [["notes.zip"]; [".github_old"; "x"]].
Proof.
  intros Hwf H. split; [|by vm_compute].
  rewrite (discover_found _ _ _ _ _ _ _ Hwf H).
  destruct (source ENV) as [src|]; [|constructor].
  assert (Hwfd : wf_dir src = true) by (by destruct src).
  rewrite map_fmap. apply Forall_fmap, Forall_forall. intros rel Hrel.
  destruct (found_spec _ _ _ Hwfd Hrel) as (Hne & Hall & _).
  exists rel. cbn [compose]. unfold below at 1. rewrite relative_to_below.
  split; [done|]. split; [done|]. split.
  - unfold Path_name, below. cbn [segments]. by apply last_app_nonempty.
  - eapply Forall_impl; [exact Hall|]. intros c [Hc _].
    rewrite elem_of_exclude_patterns in Hc. tauto.
Qed.

Lemma discovered_not_excluded_witness :
  Forall (λ p, ∃ rel,
            relative_to p "/home/u/proj" = Ok {| anchor := ""; segments := rel |} ∧
            rel ≠ [] ∧ Path_name p = List.last rel "" ∧
            Forall (λ c, (c ∉ default_patterns) ∧ (c ∉ default [] (Some ["b"]))) rel)
    [below "/home/u/proj" ["a.txt"]; below "/home/u/proj" ["src"; "main.py"]].
Proof.
  refine (proj1 (discovered_not_excluded
            (Sample.env_of (Some Sample.project) 400) "/home/u/proj" (Some ["b"])
            (initial ∅ None) _ 2010 _ _ _)).
  - reflexivity.
  - vm_compute. reflexivity.
Defined.

(** C4, as the code has it: a source directory that does not exist, or
    that is a file, makes the discovery return the empty list without any
    error; the run then ends as it does for an empty directory: the same
    message, exit status 1, no directory made and no archive written. *)
Theorem missing_root_is_empty_source ENV a disk sigint :
  source ENV = None ∨ (∃ name sz r, source ENV = Some (File name sz r)) →
  discover ENV (arg_source a) (main_patterns a) (discovering disk sigint)
  = (Ok ([], 0), discovering disk sigint) ∧
  run ENV a (initial disk sigint)
  = (1, {| stdout := [Banner; Discovering; NoFilesFound]; made_dirs := [];
           archives := disk; pending_sigint := sigint |}) ∧
  (∀ name,
     run {| source := Some (Dir name []); now := now ENV;
            zip_st_size := zip_st_size ENV; elapsed := elapsed ENV |}
       a (initial disk None)
     = (1, {| stdout := [Banner; Discovering; NoFilesFound]; made_dirs := [];
              archives := disk; pending_sigint := None |})).
Proof.
  intros Hsrc.
  assert (Hd : discover ENV (arg_source a) (main_patterns a) (discovering disk sigint)
               = (Ok ([], 0), discovering disk sigint)).
  { unfold discover. by destruct Hsrc as [->|(name & sz & r & ->)]. }
  split; [done|]. split.
  - unfold run. by rewrite (script_SystemExit _ _ _ _ _ (main_no_files _ _ _ _ _ _ Hd)).
  - intros name. unfold run.
    by erewrite script_SystemExit by (by apply (main_no_files _ _ _ _ 0 (discovering disk None))).
Qed.

Lemma missing_root_is_empty_source_witness :
  run (Sample.env_of None 0) (Sample.arguments "" false) (initial ∅ (Some 3%nat))
  = (1, {| stdout := [Banner; Discovering; NoFilesFound]; made_dirs := [];
           archives := ∅; pending_sigint := Some 3%nat |}).
Proof.
  refine (proj1 (proj2 (missing_root_is_empty_source
                          (Sample.env_of None 0) (Sample.arguments "" false)
                          ∅ (Some 3%nat) _))).
  left. reflexivity.
Defined.

(** C4, as the claim has it, fails: for a source directory that does
    not exist the discovery succeeds, with the empty list. *)
Lemma missing_root_discovery_succeeds :
  discover (Sample.env_of None 0) "/home/u/gone" (exclude_patterns None)
    (discovering ∅ None)
  = (Ok ([], 0), discovering ∅ None).
Proof. reflexivity. Qed.

(** C5, as the code has it: a run that a Ctrl-C reaches prints the
    cancellation message last and exits with status 0, the status of a
    successful run. *)
Theorem interrupt_exits_zero ENV a disk k :
  pending_sigint (run ENV a (initial disk (Some k))).2 = None →
  (run ENV a (initial disk (Some k))).1 = 0 ∧
  last (stdout (run ENV a (initial disk (Some k))).2) = Some Cancelled.
Proof.
  unfold run, script, try_except_KeyboardInterrupt.
  destruct (main ENV a (initial disk (Some k))) as [r w1] eqn:Hmain.
  pose proof (ki_safe_main ENV a _ _ _ Hmain (mk_is_Some _ _ eq_refl)) as Hki.
  destruct r as [[]|e]; [|destruct e];
    try (cbn [fst snd]; intros Hnone; by specialize (Hki Hnone)).
  intros _. unfold mbind, M_bind, print, sys_exit, raise.
  cbn [fst snd stdout exit_code]. split; [done|]. by rewrite last_snoc.
Qed.

Lemma interrupt_exits_zero_witness :
  (run (Sample.env_of (Some Sample.project) 400) (Sample.arguments "" false)
     (initial ∅ (Some 2%nat))).1 = 0 ∧
  last (stdout (run (Sample.env_of (Some Sample.project) 400)
                  (Sample.arguments "" false) (initial ∅ (Some 2%nat))).2)
  = Some Cancelled.
Proof.
  apply (interrupt_exits_zero (Sample.env_of (Some Sample.project) 400)
           (Sample.arguments "" false) ∅ 2%nat).
  vm_compute. reflexivity.
Defined.

(** C5, as the claim has it, fails: this interrupted run exits with
    status 0. *)
Lemma interrupted_run_exits_zero :
  run (Sample.env_of (Some Sample.project) 400) (Sample.arguments "" false)
    (initial ∅ (Some 1%nat))
  = (0, {| stdout := [Banner; Discovering; Cancelled]; made_dirs := [];
           archives := ∅; pending_sigint := None |}).
Proof. vm_compute. reflexivity. Qed.

(** C6: when the discovery returns no file, the run exits with status
    1 right after the message; it has made no directory and the archives on
    disk are the ones that were there before. *)
Theorem no_files_no_archive ENV a disk sigint total w1 :
  discover ENV (arg_source a) (main_patterns a) (discovering disk sigint)
  = (Ok ([], total), w1) →
  run ENV a (initial disk sigint)
  = (1, {| stdout := stdout w1 ++ [NoFilesFound]; made_dirs := [];
           archives := disk; pending_sigint := pending_sigint w1 |}).
Proof.
  intros H. unfold run.
  by rewrite (script_SystemExit _ _ _ _ _ (main_no_files _ _ _ _ _ _ H)).
Qed.

Lemma no_files_no_archive_witness :
  run (Sample.env_of (Some Sample.only_excluded) 0) (Sample.arguments "" false)
    (initial ∅ None)
  = (1, {| stdout := [Banner; Discovering; NoFilesFound]; made_dirs := [];
           archives := ∅; pending_sigint := None |}).
Proof.
  refine (no_files_no_archive (Sample.env_of (Some Sample.only_excluded) 0)
            (Sample.arguments "" false) ∅ None 0 (discovering ∅ None) _).
  vm_compute. reflexivity.
Defined.

(** ** The statistics *)

(** C3: the ratio is [(1 - c/o) * 100] in doubles, printed with one
    decimal ([75.0] for 250 out of 1000), but for [o = 0] the division
    raises [ZeroDivisionError]: a run over one empty file writes its
    archive, prints the error and exits with status 1. *)
Theorem ratio_of_nothing_raises :
  (∀ c o, o ≠ 0 →
     (∃ q, Float.int_truediv c o = Ok q ∧
           compression_ratio c o
           = Ok (Float.format_f 1
                   (Float.mul (Float.sub (S754_finite false 4503599627370496 (-52)) q)
                      (S754_finite false 7036874417766400 (-46))) +:+ "%"))
     ∨ compression_ratio c o = Raise OverflowError) ∧
  compression_ratio 250 1000 = Ok "75.0%" ∧
  (∀ c, compression_ratio c 0 = Raise ZeroDivisionError) ∧
  run (Sample.env_of (Some Sample.one_empty_file) 114) (Sample.arguments "" true)
    (initial ∅ None)
  = (1, {| stdout := [Banner; Discovering; Found 1; StartingCompression;
                      Compressing 1 1 "empty"; Error ZeroDivisionError];
           made_dirs := ["out"];
           archives := {[ "out/proj.zip" := ["empty"] ]};
           pending_sigint := None |}).
Proof.
  split; [|split; [|split]].
  - intros c o Ho. unfold compression_ratio, Float.int_truediv.
    replace (o =? 0) with false by lia.
    destruct (Float.is_infinity _); [by right|]. left. eauto.
  - by vm_compute.
  - done.
  - by vm_compute.
Qed.

(** ** [human_size] *)



(** C10, for the ints it holds for: [human_size] never returns [None];
    it returns a string below [2^1033] and raises [OverflowError] from
    [2^1034] on, and nothing else happens in between; from 1024 GB on the
    unit is still GB, with two decimals. *)
Theorem human_size_total n :
  0 ≤ n →
  (human_size n = Raise OverflowError ∨ ∃ s, human_size n = Ok (Some s)) ∧
  (n < 2 ^ 1033 → ∃ s, human_size n = Ok (Some s)) ∧
  (2 ^ 1034 ≤ n → human_size n = Raise OverflowError) ∧
  (2 ^ 40 ≤ n < 2 ^ 1033 →
     human_size n = Ok (Some (Float.format_f 2 (divided n 3) +:+ " GB"))) ∧
  human_size (2 ^ 41) = Ok (Some "2048.00 GB").
Proof.
  intros Hn. split; [by apply human_size_cases|]. split; [|split; [|split]].
  - intros Hlt. rewrite human_size_divided by lia. eauto.
  - apply human_size_overflow.
  - intros [H40 Hlt]. rewrite human_size_divided by lia.
    replace (n <? 2 ^ 10) with false by lia.
    replace (n <? 2 ^ 20) with false by lia.
    by replace (n <? 2 ^ 30) with false by lia.
  - by vm_compute.
Qed.

Lemma human_size_total_witness :
  ∃ s, human_size (2 ^ 50) = Ok (Some s).
Proof.
  refine (proj1 (proj2 (human_size_total (2 ^ 50) _)) _).
  - discriminate.
  - reflexivity.
Defined.

(** C10, as the claim has it, fails: on this int [human_size] raises. *)
Lemma human_size_huge_raises : human_size (2 ^ 1034) = Raise OverflowError.
Proof. by vm_compute. Qed.

(** ** The user's patterns *)

(** C9: a nonempty exclusion string is cut at its commas and nowhere
    else, nothing being trimmed: the pieces hold no comma and, joined by
    commas, give the string back, which no other list of comma-free pieces
    does.  So ["a, b"] stores [" b"], which excludes a file of that name and
    not the file [b].  The empty string adds no pattern to the defaults. *)
Theorem exclude_splits_at_commas :
  parse_exclude "" = [] ∧
  exclude_patterns (Some (parse_exclude "")) = get_excluded_patterns ∧
  (∀ s, s ≠ "" →
     parse_exclude s = str_split "," s ∧
     str_join "," (parse_exclude s) = s ∧
     Forall (λ p, contains "," p = false) (parse_exclude s) ∧
     ∀ l, l ≠ [] → Forall (λ p, contains "," p = false) l →
          str_join "," l = s → l = parse_exclude s) ∧
  parse_exclude "a, b" = ["a"; " b"] ∧
  (" b" ∈ main_patterns (Sample.arguments "a, b" false)) ∧
  ("b" ∉ main_patterns (Sample.arguments "a, b" false)) ∧
  found (main_patterns (Sample.arguments "a, b" false))
    (Dir "proj" [File "a" 1 true; File "b" 1 true; File " b" 1 true])
  = [["b"]].
Proof.
  split; [done|]. split.
  { unfold exclude_patterns.
    change (default [] (Some (parse_exclude ""))) with (@nil string).
    by rewrite list_to_set_nil, (right_id_L ∅ (∪)). }
  split.
  { intros s Hs.
    assert (parse_exclude s = str_split "," s) as ->.
    { unfold parse_exclude. by destruct (String.eqb_spec s ""). }
    split; [done|]. split; [apply str_join_split|].
    split; [apply str_split_contains|].
    intros l Hl Hall <-. symmetry. by apply str_split_join. }
  split; [done|].
  split; [apply (bool_decide_unpack _); vm_compute; exact I|].
  split; [apply (bool_decide_unpack _); vm_compute; exact I|].
  by vm_compute.
Qed.

(** ** The discovery, run to its end *)

Lemma said_nil w : said [] w = w.
Proof. destruct w. unfold said. cbn. by rewrite app_nil_r. Qed.

Lemma said_said l1 l2 w : said l2 (said l1 w) = said (l1 ++ l2) w.
Proof. unfold said. cbn. by rewrite app_assoc. Qed.

Lemma counters_cons k n : counters k (S n) = Found (S k) :: counters (S k) n.
Proof. reflexivity. Qed.

(** The loop over the events, when no Ctrl-C is due and every path it
    looks at exists. *)
Lemma visit_events_run ENV source_dir E evs :
  ∀ fps tot w,
    pending_sigint w = None →
    Forall (λ p, is_Some (fs_lookup ENV source_dir p)) (omap (entry_path E) evs) →
    for_each (visit ENV source_dir E) evs (fps, tot) w
    = (Ok (fps ++ omap (entry_path E) evs,
           tot + sum_sizes (map (st_size_of ENV source_dir)
                              (omap (entry_path E) evs))),
       said (counters (length fps) (length (omap (entry_path E) evs))) w).
Proof.
  induction evs as [|ev evs IH]; intros fps tot w Hcalm Hall.
  - cbn. by rewrite app_nil_r, Z.add_0_r, said_nil.
  - cbn [for_each]. unfold mbind, M_bind. rewrite omap_cons in *.
    destruct ev as [|root file]; cbn [visit entry_path] in *.
    + unfold mbind, M_bind, mret, M_ret. rewrite checkpoint_calm by done.
      by apply IH.
    + unfold discover_file, mbind, M_bind, mret, M_ret.
      rewrite checkpoint_calm by done. unfold kept in *.
      case_bool_decide as Hk; [|by apply IH].
      inversion Hall as [|? ? [n Hn] Hall']; subst.
      set (p := Path_div (Path_of root) file) in *.
      cbn [map sum_sizes foldr length]. unfold stat_size.
      unfold st_size_of at 1. rewrite Hn.
      destruct n as [name sz r|name es]; unfold mret, M_ret, print.
      all: rewrite IH by done; rewrite length_app; cbn [length].
      all: rewrite Nat.add_1_r, counters_cons.
      all: fold (said [Found (S (length fps))] w); rewrite said_said.
      all: cbn [app]; unfold sum_sizes; f_equal; f_equal.
      all: rewrite <- app_assoc; cbn [app]; f_equal; lia.
Qed.

Lemma fs_lookup_below ENV source_dir src rel :
  source ENV = Some src →
  fs_lookup ENV source_dir (below source_dir rel) = resolve src rel.
Proof.
  intros Hsrc. unfold fs_lookup, below. by rewrite relative_to_below, Hsrc.
Qed.

Lemma st_size_of_below ENV source_dir src rel :
  source ENV = Some src →
  st_size_of ENV source_dir (below source_dir rel) = size_at src rel.
Proof.
  intros Hsrc. unfold st_size_of, size_at. by rewrite (fs_lookup_below _ _ src).
Qed.

Lemma events_found_root E source_dir src :
  wf_dir src = true →
  omap (entry_path E) (walk_events (kept E) source_dir src)
  = map (below source_dir) (found E src).
Proof.
  intros Hwf. rewrite (events_found E source_dir src source_dir []); [done..|].
  unfold below. rewrite app_nil_r. by destruct (Path_of source_dir).
Qed.

(** The discovery of a well-formed tree that no Ctrl-C interrupts. *)
Lemma discover_run ENV source_dir E src w :
  source ENV = Some src → wf_dir src = true → pending_sigint w = None →
  discover ENV source_dir E w
  = (Ok (map (below source_dir) (found E src),
         sum_sizes (map (size_at src) (found E src))),
     said (counters 0 (length (found E src))) w).
Proof.
  intros Hsrc Hwf Hcalm. unfold discover. rewrite Hsrc, discover_events.
  rewrite visit_events_run; [|done|].
  - rewrite events_found_root by done. cbn [app length].
    rewrite length_map, List.map_map, Z.add_0_l.
    do 3 f_equal. f_equal. apply List.map_ext. intros rel.
    by apply st_size_of_below.
  - rewrite events_found_root by done. apply Forall_forall.
    intros p Hp. rewrite map_fmap in Hp.
    apply list_elem_of_fmap in Hp as (rel & -> & Hrel).
    rewrite (fs_lookup_below _ _ src) by done.
    destruct (found_spec E src rel Hwf Hrel) as (_ & _ & sz & r & ->).
    by eexists.
Qed.

(** ** Nothing is missed *)

Lemma found_complete E n :
  ∀ rel name sz r,
    wf_dir n = true → rel ≠ [] → Forall (λ c, c ∉ E) rel →
    resolve n rel = Some (File name sz r) → rel ∈ found E n.
Proof.
  induction n as [name' sz' r'|name' es IH] using node_ind';
    intros rel name sz r Hwf Hne Hall Hres.
  { by destruct rel. }
  destruct rel as [|d rel]; [done|].
  destruct (wf_dir_Dir _ _ Hwf) as [Hwfs Hnd].
  inversion Hall as [|? ? Hd Hall']; subst.
  cbn [resolve] in Hres.
  destruct (find_child d es) as [c|] eqn:Hc; [|done]. cbn in Hres.
  apply find_child_Some in Hc as [Hc Hname].
  apply elem_of_found_Dir.
  destruct rel as [|d' rel].
  - left. exists d. split; [done|]. split; [by apply kept_spec|].
    cbn in Hres. injection Hres as ->. cbn in Hname. subst name.
    apply list_elem_of_omap. by exists (File d sz r).
  - right. destruct c as [f sz0 r0|d0 sub]; [done|]. cbn in Hname. subst d0.
    exists d, sub, (d' :: rel). split; [done|]. split; [done|].
    split; [by apply kept_spec|].
    rewrite Forall_forall in IH, Hwfs.
    eapply (IH _ Hc); [|done|done|exact Hres].
    by apply wf_node_dir, Hwfs.
Qed.

Lemma below_inj source_dir : Inj (=) (=) (below source_dir).
Proof.
  intros r1 r2 H. unfold below in H. injection H as H.
  by apply app_inv_head in H.
Qed.

(** ** Patterns are compared with whole names *)

Lemma found_agree E1 E2 n :
  wf_dir n = true →
  (∀ x, proper_name x = true → x ∈ E1 ↔ x ∈ E2) →
  found E1 n = found E2 n.
Proof.
  intros Hwf Heq. revert Hwf.
  induction n as [name sz r|name es IH] using node_ind'; intros Hwf; [done|].
  destruct (wf_dir_Dir _ _ Hwf) as [Hwfs Hnd]. clear Hwf Hnd.
  assert (Hk : ∀ x, proper_name x = true → kept E1 x = kept E2 x).
  { intros x Hx. unfold kept. apply bool_decide_ext. by rewrite (Heq x Hx). }
  rewrite !found_Dir. f_equal.
  - f_equal. induction es as [|c es IHes]; [done|].
    inversion Hwfs as [|? ? Hc Hwfs']; subst.
    inversion IH as [|? ? _ IH']; subst.
    destruct c as [f sz r|d sub]; rewrite !omap_cons; cbn [file_name];
      [|by apply IHes].
    rewrite !filter_cons, IHes by done.
    rewrite (Hk f) by (by apply wf_node_dir in Hc as [? _]). done.
  - induction es as [|c es IHes]; [done|].
    inversion Hwfs as [|? ? Hc Hwfs']; subst.
    inversion IH as [|? ? IHc IH']; subst.
    cbn [flat_map]. rewrite IHes by done. f_equal.
    destruct c as [f sz r|d sub]; [done|].
    apply wf_node_dir in Hc as [Hd Hsub]. cbn [node_name] in Hd.
    by rewrite (Hk d), IHc.
Qed.

(** ** An excluded directory is not entered *)

Lemma find_child_skip d' d es1 es2 pre post :
  d' ≠ d →
  find_child d' (pre ++ Dir d es1 :: post) = find_child d' (pre ++ Dir d es2 :: post).
Proof.
  intros Hne. induction pre as [|c pre IH]; cbn [app find_child node_name].
  - by destruct (String.eqb_spec d d').
  - by rewrite IH.
Qed.

Lemma walk_events_pruned E top name pre post d es1 es2 :
  d ∈ E →
  walk_events (kept E) top (Dir name (pre ++ Dir d es1 :: post))
  = walk_events (kept E) top (Dir name (pre ++ Dir d es2 :: post)).
Proof.
  intros Hd. rewrite !walk_events_Dir.
  rewrite !omap_app, !omap_cons. cbn [file_name dir_name]. do 3 f_equal.
  apply map_ext_in. intros d' Hd'. apply list_elem_of_In in Hd'.
  apply list_elem_of_filter in Hd' as [Hk _]. apply kept_spec in Hk.
  unfold walk_child. rewrite (find_child_skip d' d es1 es2); [done|].
  by intros ->.
Qed.

(** ** Properties of the discovery phase *)

(** What the loop over the events adds up and prints, when it ends. *)
Lemma visit_events_totals ENV source_dir E evs :
  ∀ fps tot w fps' tot' w',
    for_each (visit ENV source_dir E) evs (fps, tot) w = (Ok (fps', tot'), w') →
    ∃ ps, fps' = fps ++ ps ∧
          tot' = tot + sum_sizes (map (st_size_of ENV source_dir) ps) ∧
          stdout w' = stdout w ++ counters (length fps) (length ps).
Proof.
  induction evs as [|ev evs IH]; intros fps tot w fps' tot' w' H.
  - injection H as <- <- <-. exists []. cbn. by rewrite !app_nil_r, Z.add_0_r.
  - cbn [for_each] in H. unfold mbind, M_bind in H.
    destruct (visit ENV source_dir E ev (fps, tot) w) as [[[fps1 tot1]|e] w1] eqn:Ev;
      [|done].
    apply IH in H as (ps & -> & -> & Hout).
    assert (Hcp : ∀ w2, checkpoint w = (Ok (), w2) → stdout w2 = stdout w).
    { intros w2. unfold checkpoint.
      destruct (pending_sigint w) as [[]|]; by intros [= <-]. }
    destruct ev as [|root file]; cbn [visit] in Ev.
    + unfold mbind, M_bind, mret, M_ret in Ev.
      destruct (checkpoint w) as [[[]|] w2] eqn:Ec; [|done].
      injection Ev as <- <- <-. exists ps. rewrite Hout, (Hcp w2) by done. done.
    + unfold discover_file, mbind, M_bind, mret, M_ret in Ev.
      destruct (checkpoint w) as [[[]|] w2] eqn:Ec; [|done].
      specialize (Hcp w2 eq_refl).
      case_bool_decide.
      * set (p := Path_div (Path_of root) file) in *.
        assert (Hst : ∀ sz w3, stat_size ENV source_dir p w2 = (Ok sz, w3) →
                               sz = st_size_of ENV source_dir p ∧ w3 = w2).
        { intros sz w3. unfold stat_size, st_size_of.
          destruct (fs_lookup ENV source_dir p) as [[]|]; by intros [= <- <-]. }
        destruct (stat_size ENV source_dir p w2) as [[sz|] w3] eqn:Es; [|done].
        destruct (Hst sz w3 eq_refl) as [-> ->].
        injection Ev as <- <- <-. exists (p :: ps).
        rewrite <- app_assoc. split; [done|].
        cbn [map sum_sizes foldr length]. split; [unfold sum_sizes; lia|].
        rewrite Hout. cbn [stdout]. rewrite Hcp, length_app. cbn [length].
        rewrite Nat.add_1_r, counters_cons, <- app_assoc. done.
      * injection Ev as <- <- <-. exists ps. by rewrite Hout, Hcp.
Qed.

(** X1: when the discovery returns, [total_size] is the sum of the sizes
    that [stat] reports for the returned paths, each counted once and
    nothing else counted, and one counter line has been printed for each
    returned path, numbered from 1 in the order of the list; in a
    well-formed tree every returned path names a regular file of the
    tree and the size counted for it is the size of that file. *)
Theorem discovery_totals ENV source_dir E w fps total w' :
  discover ENV source_dir E w = (Ok (fps, total), w') →
  total = sum_sizes (map (st_size_of ENV source_dir) fps) ∧
  stdout w' = stdout w ++ map Found (seq 1 (length fps)) ∧
  (∀ src, source ENV = Some src → wf_source (source ENV) = true →
          Forall (λ p, ∃ rel name sz r,
                    p = below source_dir rel ∧
                    resolve src rel = Some (File name sz r) ∧
                    st_size_of ENV source_dir p = sz) fps).
Proof.
  intros H. split; [|split].
  - unfold discover in H. destruct (source ENV) as [src|].
    + rewrite discover_events in H.
      by apply visit_events_totals in H as (ps & -> & -> & _).
    + by injection H as <- <- <-.
  - unfold discover in H. destruct (source ENV) as [src|].
    + rewrite discover_events in H.
      by apply visit_events_totals in H as (ps & -> & _ & ->).
    + injection H as <- <- <-. by rewrite app_nil_r.
  - intros src Hsrc Hwf.
    pose proof (discover_found _ _ _ _ _ _ _ Hwf H) as ->.
    rewrite Hsrc in *. assert (Hwfd : wf_dir src = true) by (by destruct src).
    rewrite map_fmap. apply Forall_fmap, Forall_forall. intros rel Hrel.
    destruct (found_spec E src rel Hwfd Hrel) as (_ & _ & sz & r & Hres).
    exists rel, (List.last rel ""), sz, r. split; [done|]. split; [done|].
    cbn beta. rewrite (st_size_of_below _ _ src) by done.
    unfold size_at. by rewrite Hres.
Qed.

Lemma discovery_totals_witness :
  2013 = sum_sizes
           (map (st_size_of (Sample.env_of (Some Sample.project) 400) "/home/u/proj")
              [below "/home/u/proj" ["a.txt"];
               below "/home/u/proj" ["src"; "main.py"];
               below "/home/u/proj" ["src"; "b"]]) ∧
  [Banner; Discovering; Found 1; Found 2; Found 3]
  = [Banner; Discovering] ++ map Found (seq 1 3).
Proof.
  pose proof (discovery_totals (Sample.env_of (Some Sample.project) 400)
                "/home/u/proj" (exclude_patterns None) (discovering ∅ None)
                [below "/home/u/proj" ["a.txt"];
                 below "/home/u/proj" ["src"; "main.py"];
                 below "/home/u/proj" ["src"; "b"]] 2013
                (said [Found 1; Found 2; Found 3] (discovering ∅ None))) as H.
  destruct H as (H1 & H2 & _); [by vm_compute|]. split; [exact H1|exact H2].
Defined.

(** X3: the discovery writes nothing: whatever its outcome, also when a
    Ctrl-C ends it, the archives on disk and the directories made are
    what they were before. *)
Theorem discovery_leaves_disk_alone ENV source_dir E w :
  archives (discover ENV source_dir E w).2 = archives w ∧
  made_dirs (discover ENV source_dir E w).2 = made_dirs w.
Proof.
  destruct (discover ENV source_dir E w) as [r w'] eqn:H.
  exact (same_disk_discover _ _ _ _ _ _ H).
Qed.

(** X4: a directory whose name is a pattern is not entered: what it
    contains does not change what the walk does, whatever the state and
    the place of the walk. *)
Theorem excluded_directory_not_entered ENV source_dir E top name pre post d
    es1 es2 s w :
  d ∈ E →
  os_walk (discover_step ENV source_dir E) top
    (Dir name (pre ++ Dir d es1 :: post)) s w
  = os_walk (discover_step ENV source_dir E) top
      (Dir name (pre ++ Dir d es2 :: post)) s w.
Proof.
  intros Hd. rewrite !discover_events.
  by rewrite (walk_events_pruned E top name pre post d es1 es2).
Qed.

Lemma excluded_directory_not_entered_witness :
  os_walk (discover_step (Sample.env_of (Some Sample.project) 400) "/home/u/proj"
             (exclude_patterns None)) "/home/u/proj"
    (Dir "proj" ([File "a.txt" 10 true] ++
                 Dir ".git" [File "config" 5 true; Dir "objects" []] :: []))
    ([], 0) (discovering ∅ None)
  = os_walk (discover_step (Sample.env_of (Some Sample.project) 400) "/home/u/proj"
               (exclude_patterns None)) "/home/u/proj"
      (Dir "proj" ([File "a.txt" 10 true] ++ Dir ".git" [] :: []))
      ([], 0) (discovering ∅ None).
Proof.
  apply excluded_directory_not_entered.
  apply (bool_decide_unpack _). vm_compute. exact I.
Defined.

(** X5: patterns are compared with one name at a time, so a pattern that
    no directory entry can be called (the empty string that a doubled or
    trailing comma leaves, a dot entry, anything with a slash in it)
    excludes nothing: the discovery is the same with and without it. *)
Theorem improper_pattern_excludes_nothing ENV source_dir p exclude src w :
  source ENV = Some src →
  wf_source (source ENV) = true →
  pending_sigint w = None →
  proper_name p = false →
  discover ENV source_dir (exclude_patterns (Some (p :: exclude))) w
  = discover ENV source_dir (exclude_patterns (Some exclude)) w.
Proof.
  intros Hsrc Hwf Hcalm Hp.
  assert (Hwfd : wf_dir src = true) by (rewrite Hsrc in Hwf; by destruct src).
  rewrite !(discover_run _ _ _ src) by done.
  rewrite (found_agree (exclude_patterns (Some (p :: exclude)))
             (exclude_patterns (Some exclude)) src); [done|done|].
  intros x Hx. rewrite !elem_of_exclude_patterns.
  change (default [] (Some (p :: exclude))) with (p :: exclude).
  change (default [] (Some exclude)) with exclude.
  rewrite elem_of_cons. split; [|tauto].
  intros [?|[->|?]]; [tauto| |tauto]. congruence.
Qed.

Lemma improper_pattern_excludes_nothing_witness :
  discover (Sample.env_of (Some Sample.project) 400) "/home/u/proj"
    (exclude_patterns (Some ["src/b"; "a.txt"])) (discovering ∅ None)
  = discover (Sample.env_of (Some Sample.project) 400) "/home/u/proj"
      (exclude_patterns (Some ["a.txt"])) (discovering ∅ None).
Proof.
  exact (improper_pattern_excludes_nothing
           (Sample.env_of (Some Sample.project) 400) "/home/u/proj" "src/b"
           ["a.txt"] Sample.project (discovering ∅ None)
           eq_refl eq_refl eq_refl eq_refl).
Defined.

(** ** What a run writes *)

Global Instance confined_preorder zp dir : PreOrder (confined zp dir).
Proof.
  split.
  - intros w. split; [done|]. exists 0%nat. cbn. by rewrite app_nil_r.
  - intros w1 w2 w3 [H1 [n1 D1]] [H2 [n2 D2]]. split.
    + intros p Hp. by rewrite H2, H1.
    + exists (n1 + n2)%nat. by rewrite D2, D1, replicate_add, app_assoc.
Qed.

Lemma confined_same zp dir w w' :
  archives w' = archives w → made_dirs w' = made_dirs w → confined zp dir w w'.
Proof.
  intros Ha Hm. split; [by rewrite Ha|]. exists 0%nat. cbn.
  by rewrite app_nil_r.
Qed.

Lemma confined_print zp dir msg : preserves (confined zp dir) (print msg).
Proof. intros w r w' [= <- <-]. by apply confined_same. Qed.

Lemma confined_checkpoint zp dir : preserves (confined zp dir) checkpoint.
Proof.
  intros w r w'. unfold checkpoint.
  destruct (pending_sigint w) as [[]|]; intros [= <- <-]; by apply confined_same.
Qed.

Lemma confined_mkdir p zp : preserves (confined zp (Path_str p)) (mkdir p).
Proof.
  intros w r w' [= <- <-]. split; [done|]. by exists 1%nat.
Qed.

Lemma confined_ZipFile_w zp dir :
  preserves (confined (Path_str zp) dir) (ZipFile_w zp).
Proof.
  intros w r w' [= <- <-]. split; cbn.
  - intros p Hp. by rewrite lookup_insert_ne.
  - exists 0%nat. cbn. by rewrite app_nil_r.
Qed.

Lemma confined_append_entry zp dir x :
  preserves (confined (Path_str zp) dir) (append_entry zp x).
Proof.
  intros w r w' [= <- <-]. split; cbn.
  - intros p Hp. by rewrite lookup_insert_ne.
  - exists 0%nat. cbn. by rewrite app_nil_r.
Qed.

Lemma confined_zipf_write ENV source_dir zp dir p arc :
  preserves (confined (Path_str zp) dir) (zipf_write ENV source_dir zp p arc).
Proof.
  unfold zipf_write.
  destruct (fs_lookup _ _ _) as [[? ? []|]|];
    auto using confined_append_entry, preserves_raise, confined_preorder.
Qed.

Lemma confined_write_file ENV source_dir zp dir total p i :
  preserves (confined (Path_str zp) dir)
    (write_file ENV source_dir zp total p i).
Proof.
  unfold write_file.
  apply preserves_bind; [apply _|apply confined_checkpoint|]. intros _.
  apply preserves_bind; [apply _|apply preserves_lift, _|]. intros rel.
  apply preserves_bind; [apply _|apply confined_zipf_write|]. intros _.
  apply preserves_bind; [apply _|apply confined_print|]. intros _.
  apply preserves_ret, _.
Qed.

Lemma confined_create_zip ENV source_dir output_path custom_name exclude ts :
  preserves
    (confined
       (Path_str (zip_path_of source_dir output_path custom_name ts (now ENV)))
       (Path_str (Path_parent
                    (zip_path_of source_dir output_path custom_name ts (now ENV)))))
    (create_zip ENV source_dir output_path custom_name exclude ts).
Proof.
  unfold create_zip.
  set (zp := zip_path_of source_dir output_path custom_name ts (now ENV)).
  apply preserves_bind; [apply _|apply confined_print|]. intros _.
  apply preserves_bind; [apply _| |].
  { apply preserves_discover;
      [apply _|intros; apply confined_print|apply confined_checkpoint]. }
  intros [fps total].
  apply preserves_bind; [apply _| |].
  { case_bool_decide; [|apply preserves_ret, _].
    apply preserves_bind; [apply _|apply confined_print|]. intros _.
    apply preserves_sys_exit, _. }
  intros _.
  apply preserves_bind; [apply _|apply confined_mkdir|]. intros _.
  apply preserves_try; [apply _| |].
  - apply preserves_bind; [apply _|apply confined_print|]. intros _.
    apply preserves_bind; [apply _|apply confined_ZipFile_w|]. intros _.
    apply preserves_bind; [apply _| |].
    + apply preserves_for_each; [apply _|]. intros. apply confined_write_file.
    + intros _. apply preserves_bind; [apply _|apply preserves_lift, _|].
      intros stats. apply preserves_bind; [apply _|apply confined_print|].
      intros _. apply confined_print.
  - intros e. apply preserves_bind; [apply _|apply confined_print|]. intros _.
    apply preserves_sys_exit, _.
Qed.

Lemma confined_script ENV a :
  preserves
    (confined (Path_str (main_zip_path ENV a))
       (Path_str (Path_parent (main_zip_path ENV a))))
    (script ENV a).
Proof.
  intros w r w' H. unfold script, try_except_KeyboardInterrupt in H.
  assert (Hm : preserves
                 (confined (Path_str (main_zip_path ENV a))
                    (Path_str (Path_parent (main_zip_path ENV a))))
                 (main ENV a)).
  { unfold main. apply preserves_bind; [apply _|apply confined_print|].
    intros _. apply confined_create_zip. }
  destruct (main ENV a w) as [r1 w1] eqn:E. apply Hm in E.
  assert (Hh : preserves
                 (confined (Path_str (main_zip_path ENV a))
                    (Path_str (Path_parent (main_zip_path ENV a))))
                 (print Cancelled;; sys_exit (A:=unit) 0)).
  { apply preserves_bind; [apply _|apply confined_print|]. intros _.
    apply preserves_sys_exit, _. }
  destruct r1 as [[]|e].
  - by injection H as <- <-.
  - destruct e; first [by injection H as <- <-|etrans; [exact E|by eapply Hh]].
Qed.

(** X6: a run changes no archive but its own: whatever the parsed
    command line, the tree, the archives on disk and the moment of a
    Ctrl-C, and however the run ends, every archive at a path other than
    [zip_path] is what it was before. *)
Theorem run_changes_no_other_archive ENV a w p :
  p ≠ Path_str (main_zip_path ENV a) →
  archives (run ENV a w).2 !! p = archives w !! p.
Proof.
  intros Hp. unfold run. destruct (script ENV a w) as [r w'] eqn:H.
  destruct (confined_script ENV a w r w' H) as [Harch _]. by apply Harch.
Qed.

Lemma run_changes_no_other_archive_witness :
  archives (run (Sample.env_of (Some Sample.project) 400)
              (Sample.arguments "" true)
              (initial {[ "out/old.zip" := ["x"] ]} None)).2 !! "out/old.zip"
  = Some ["x"].
Proof.
  rewrite (run_changes_no_other_archive
             (Sample.env_of (Some Sample.project) 400) (Sample.arguments "" true)
             (initial {[ "out/old.zip" := ["x"] ]} None) "out/old.zip").
  - by vm_compute.
  - by vm_compute.
Defined.

(** ** The compression loop, step by step *)

Section write_steps.
Context (ENV : env) (source_dir : string) (E : gset string) (src : node).
Context (zip_path : Path) (total : nat).
Hypothesis Hsrc : source ENV = Some src.
Hypothesis Hwf : wf_dir src = true.

(** A file that can be read becomes the next entry. *)
Lemma write_file_readable rel i w old :
  rel ∈ found E src → readable_at src rel = true →
  pending_sigint w = None →
  archives w !! Path_str zip_path = Some old →
  write_file ENV source_dir zip_path total (below source_dir rel) i w
  = (Ok (S i),
     {| stdout := stdout w ++ [Compressing i total (str_join "/" rel)];
        made_dirs := made_dirs w;
        archives := <[Path_str zip_path := old ++ [str_join "/" rel]]> (archives w);
        pending_sigint := None |}).
Proof.
  intros Hrel Hr Hcalm Hold.
  destruct (found_spec E src rel Hwf Hrel) as (Hne & Hall & sz & r & Hres).
  unfold readable_at in Hr. rewrite Hres in Hr. subst r.
  unfold write_file, mbind, M_bind. rewrite checkpoint_calm by done.
  unfold lift, below. rewrite relative_to_below.
  unfold zipf_write. fold (below source_dir rel).
  rewrite (fs_lookup_below _ _ src), Hres by done.
  rewrite zip_arcname_proper; [|done|].
  2:{ eapply Forall_impl; [exact Hall|]. by intros ? [_ ?]. }
  rewrite Path_str_relative by done.
  unfold append_entry, print, mret, M_ret. rewrite Hold.
  cbn [stdout made_dirs archives pending_sigint default from_option id].
  by rewrite Hcalm.
Qed.

(** A file that cannot be read stops the loop, and nothing is written. *)
Lemma write_file_unreadable rel i w :
  rel ∈ found E src → readable_at src rel = false →
  pending_sigint w = None →
  write_file ENV source_dir zip_path total (below source_dir rel) i w
  = (Raise (PermissionError (Path_str (below source_dir rel))), w).
Proof.
  intros Hrel Hr Hcalm.
  destruct (found_spec E src rel Hwf Hrel) as (Hne & Hall & sz & r & Hres).
  unfold readable_at in Hr. rewrite Hres in Hr. subst r.
  unfold write_file, mbind, M_bind. rewrite checkpoint_calm by done.
  unfold lift, below. rewrite relative_to_below.
  unfold zipf_write. fold (below source_dir rel).
  by rewrite (fs_lookup_below _ _ src), Hres by done.
Qed.

Lemma write_steps rels :
  ∀ i w old,
    Forall (λ rel, rel ∈ found E src ∧ readable_at src rel = true) rels →
    pending_sigint w = None →
    archives w !! Path_str zip_path = Some old →
    for_each (write_file ENV source_dir zip_path total)
      (map (below source_dir) rels) i w
    = (Ok (i + length rels)%nat,
       {| stdout := stdout w ++ progress_lines total i rels;
          made_dirs := made_dirs w;
          archives := <[Path_str zip_path := old ++ map (str_join "/") rels]>
                        (archives w);
          pending_sigint := None |}).
Proof.
  induction rels as [|rel rels IH]; intros i w old Hall Hcalm Hold.
  - cbn. rewrite !app_nil_r, Nat.add_0_r, insert_id by done.
    unfold mret, M_ret. rewrite <- Hcalm. by destruct w.
  - inversion Hall as [|? ? [Hrel Hr] Hall']; subst.
    cbn [map for_each]. unfold mbind, M_bind.
    rewrite (write_file_readable rel i w old) by done.
    rewrite (IH _ _ (old ++ [str_join "/" rel])); [|done|done|].
    2:{ cbn. by rewrite lookup_insert_eq. }
    cbn [stdout made_dirs archives progress_lines length].
    rewrite insert_insert_eq, <- !app_assoc. cbn [app].
    do 2 f_equal. lia.
Qed.

(** The loop up to the first file that cannot be read. *)
Lemma write_steps_stop pre bad post :
  ∀ i w old,
    Forall (λ rel, rel ∈ found E src ∧ readable_at src rel = true) pre →
    bad ∈ found E src → readable_at src bad = false →
    pending_sigint w = None →
    archives w !! Path_str zip_path = Some old →
    for_each (write_file ENV source_dir zip_path total)
      (map (below source_dir) (pre ++ bad :: post)) i w
    = (Raise (PermissionError (Path_str (below source_dir bad))),
       {| stdout := stdout w ++ progress_lines total i pre;
          made_dirs := made_dirs w;
          archives := <[Path_str zip_path := old ++ map (str_join "/") pre]>
                        (archives w);
          pending_sigint := None |}).
Proof.
  intros i w old Hpre Hbad Hr Hcalm Hold.
  rewrite List.map_app, for_each_app. unfold mbind, M_bind.
  rewrite (write_steps pre i w old) by done.
  cbn [map for_each]. unfold mbind, M_bind.
  by rewrite write_file_unreadable.
Qed.
End write_steps.

Lemma try_bind_Raise {A B} (m : M A) (f : A → M B) h w e w1 :
  m w = (Raise e, w1) → is_Exception e = true →
  try_except_Exception (m ≫= f) h w = h e w1.
Proof.
  intros H He. unfold try_except_Exception, mbind, M_bind. by rewrite H, He.
Qed.

Lemma readable_at_found E src rel :
  wf_dir src = true → readable_node src = true → rel ∈ found E src →
  readable_at src rel = true.
Proof.
  intros Hwf Hread Hrel.
  destruct (found_spec E src rel Hwf Hrel) as (_ & _ & sz & r & Hres).
  unfold readable_at. rewrite Hres. by eapply readable_resolve.
Qed.

(** [main] up to the start of the compression loop, when the discovery
    has found files. *)
Lemma main_compressing ENV a disk src :
  source ENV = Some src → wf_dir src = true →
  found (main_patterns a) src ≠ [] →
  main ENV a (initial disk None)
  = try_except_Exception
      (for_each (write_file ENV (arg_source a) (main_zip_path ENV a)
                   (length (found (main_patterns a) src)))
         (map (below (arg_source a)) (found (main_patterns a) src)) 1%nat;;
       stats ← lift (make_stats ENV (arg_source a)
                       (map (below (arg_source a)) (found (main_patterns a) src))
                       (sum_sizes (map (size_at src) (found (main_patterns a) src))));
       print (Created (Path_str (main_zip_path ENV a)));;
       print (Stats stats))
      (λ e, print (Error e);; sys_exit 1)
      {| stdout := [Banner; Discovering] ++
                   counters 0 (length (found (main_patterns a) src)) ++
                   [StartingCompression];
         made_dirs := [Path_str (Path_parent (main_zip_path ENV a))];
         archives := <[Path_str (main_zip_path ENV a) := []]> disk;
         pending_sigint := None |}.
Proof.
  intros Hsrc Hwf Hne.
  rewrite main_discovering. unfold mbind at 1, M_bind.
  rewrite (discover_run _ _ _ src) by done.
  rewrite bool_decide_eq_false_2.
  2:{ intros Hnil. apply Hne. by destruct (found (main_patterns a) src). }
  unfold mbind at 1 2, M_bind, mret at 1, M_ret, mkdir.
  erewrite try_bind_Ok by reflexivity.
  erewrite try_bind_Ok by reflexivity.
  rewrite length_map. cbn [stdout made_dirs archives pending_sigint said discovering app].
  reflexivity.
Qed.

(** [main] once every file is in the archive. *)
Lemma main_written_at ENV a disk src :
  source ENV = Some src → wf_dir src = true →
  Forall (λ rel, readable_at src rel = true) (found (main_patterns a) src) →
  found (main_patterns a) src ≠ [] →
  main ENV a (initial disk None)
  = try_except_Exception
      (stats ← lift (make_stats ENV (arg_source a)
                       (map (below (arg_source a)) (found (main_patterns a) src))
                       (sum_sizes (map (size_at src) (found (main_patterns a) src))));
       print (Created (Path_str (main_zip_path ENV a)));;
       print (Stats stats))
      (λ e, print (Error e);; sys_exit 1)
      {| stdout := [Banner; Discovering] ++
                   counters 0 (length (found (main_patterns a) src)) ++
                   [StartingCompression] ++
                   progress_lines (length (found (main_patterns a) src)) 1
                     (found (main_patterns a) src);
         made_dirs := [Path_str (Path_parent (main_zip_path ENV a))];
         archives := <[Path_str (main_zip_path ENV a) :=
                        map (str_join "/") (found (main_patterns a) src)]> disk;
         pending_sigint := None |}.
Proof.
  intros Hsrc Hwfd Hread Hne.
  rewrite (main_compressing ENV a disk src) by done.
  erewrite try_bind_Ok.
  2:{ apply (write_steps ENV (arg_source a) (main_patterns a) src); try done.
      - apply Forall_forall. intros rel Hrel. split; [done|].
        rewrite Forall_forall in Hread. by apply Hread.
      - apply lookup_insert_eq. }
  cbn [stdout made_dirs archives pending_sigint app].
  by rewrite insert_insert_eq, <- !app_assoc.
Qed.

Lemma main_written ENV a disk src :
  source ENV = Some src → wf_dir src = true → readable_node src = true →
  found (main_patterns a) src ≠ [] →
  main ENV a (initial disk None)
  = try_except_Exception
      (stats ← lift (make_stats ENV (arg_source a)
                       (map (below (arg_source a)) (found (main_patterns a) src))
                       (sum_sizes (map (size_at src) (found (main_patterns a) src))));
       print (Created (Path_str (main_zip_path ENV a)));;
       print (Stats stats))
      (λ e, print (Error e);; sys_exit 1)
      {| stdout := [Banner; Discovering] ++
                   counters 0 (length (found (main_patterns a) src)) ++
                   [StartingCompression] ++
                   progress_lines (length (found (main_patterns a) src)) 1
                     (found (main_patterns a) src);
         made_dirs := [Path_str (Path_parent (main_zip_path ENV a))];
         archives := <[Path_str (main_zip_path ENV a) :=
                        map (str_join "/") (found (main_patterns a) src)]> disk;
         pending_sigint := None |}.
Proof.
  intros Hsrc Hwfd Hread Hne. apply main_written_at; try done.
  apply Forall_forall. intros rel Hrel. by eapply readable_at_found.
Qed.

Lemma run_of_main ENV a w r w' :
  main ENV a w = (r, w') → r ≠ Raise KeyboardInterrupt →
  run ENV a w = (exit_code r, w').
Proof.
  intros H Hr. unfold run, script, try_except_KeyboardInterrupt. rewrite H.
  destruct r as [[]|[]]; done.
Qed.

(** ** Runs that end well, runs that end badly *)

(** [main] when one of the files cannot be opened. *)
Lemma main_unreadable ENV a disk src pre bad post :
  source ENV = Some src →
  wf_dir src = true →
  found (main_patterns a) src = pre ++ bad :: post →
  Forall (λ rel, readable_at src rel = true) pre →
  readable_at src bad = false →
  main ENV a (initial disk None)
  = (Raise (SystemExit 1),
     {| stdout := [Banner; Discovering] ++
                  map Found (seq 1 (length (pre ++ bad :: post))) ++
                  [StartingCompression] ++
                  progress_lines (length (pre ++ bad :: post)) 1 pre ++
                  [Error (PermissionError
                            (Path_str (below (arg_source a) bad)))];
        made_dirs := [Path_str (Path_parent (main_zip_path ENV a))];
        archives := <[Path_str (main_zip_path ENV a) :=
                       map (str_join "/") pre]> disk;
        pending_sigint := None |}).
Proof.
  intros Hsrc Hwfd Hfound Hpre Hbad.
  assert (Hin : ∀ rel, rel ∈ pre ++ bad :: post → rel ∈ found (main_patterns a) src)
    by (by rewrite Hfound).
  assert (Hgood : Forall (λ rel, rel ∈ found (main_patterns a) src ∧
                                 readable_at src rel = true) pre).
  { apply Forall_forall. intros rel Hrel. split.
    - apply Hin, elem_of_app. by left.
    - rewrite Forall_forall in Hpre. by apply Hpre. }
  assert (Hbadin : bad ∈ found (main_patterns a) src).
  { apply Hin, elem_of_app. right. by left. }
  rewrite (main_compressing ENV a disk src); [|done|done|].
  2:{ rewrite Hfound. by destruct pre. }
  rewrite Hfound.
  match goal with |- context [try_except_Exception _ _ ?W] =>
    pose proof (write_steps_stop ENV (arg_source a) (main_patterns a) src
                  (main_zip_path ENV a) (length (pre ++ bad :: post))
                  Hsrc Hwfd pre bad post 1%nat W []) as Hloop
  end.
  rewrite (try_bind_Raise _ _ _ _ _ _ (Hloop Hgood Hbadin Hbad eq_refl
                                         (lookup_insert_eq _ _ _)) eq_refl).
  unfold mbind, M_bind, print, sys_exit, raise.
  cbn [stdout made_dirs archives pending_sigint app].
  rewrite insert_insert_eq. unfold counters.
  by rewrite <- !app_assoc.
Qed.

(** X8: when one of the discovered files cannot be opened, the run ends
    with status 1 at that file: the error names its path, no success
    line and no table are printed, and the archive stays on disk with
    the entries of the files before it. *)
Theorem unreadable_file_aborts ENV a disk src pre bad post :
  source ENV = Some src →
  wf_source (source ENV) = true →
  found (main_patterns a) src = pre ++ bad :: post →
  Forall (λ rel, readable_at src rel = true) pre →
  readable_at src bad = false →
  run ENV a (initial disk None)
  = (1, {| stdout := [Banner; Discovering] ++
                     map Found (seq 1 (length (pre ++ bad :: post))) ++
                     [StartingCompression] ++
                     progress_lines (length (pre ++ bad :: post)) 1 pre ++
                     [Error (PermissionError
                               (Path_str (below (arg_source a) bad)))];
           made_dirs := [Path_str (Path_parent (main_zip_path ENV a))];
           archives := <[Path_str (main_zip_path ENV a) :=
                          map (str_join "/") pre]> disk;
           pending_sigint := None |}).
Proof.
  intros Hsrc Hwf Hfound Hpre Hbad.
  rewrite Hsrc in Hwf.
  assert (Hwfd : wf_dir src = true) by (by destruct src).
  apply (run_of_main ENV a _ (Raise (SystemExit 1))); [|done].
  by apply (main_unreadable ENV a disk src).
Qed.

Lemma unreadable_file_aborts_witness :
  run (Sample.env_of (Some Cases.locked) 400) (Sample.arguments "" true)
    (initial ∅ None)
  = (1, {| stdout := [Banner; Discovering; Found 1; Found 2; Found 3;
                      StartingCompression; Compressing 1 3 "a.txt";
                      Error (PermissionError "/home/u/proj/b.txt")];
           made_dirs := ["out"];
           archives := {[ "out/proj.zip" := ["a.txt"] ]};
           pending_sigint := None |}).
Proof.
  rewrite (unreadable_file_aborts (Sample.env_of (Some Cases.locked) 400)
             (Sample.arguments "" true) ∅ Cases.locked
             [["a.txt"]] ["b.txt"] [["c.txt"]] eq_refl eq_refl).
  - by vm_compute.
  - vm_compute. reflexivity.
  - repeat constructor.
  - reflexivity.
Defined.

(** ** The quotient of two positive ints *)

(** [a / b] in the normal range: a 53-bit mantissa, and an exponent that
    follows the difference of the bit lengths. *)
Lemma SFdiv_int_normal a b :
  0 < a → 0 < b → -1021 ≤ Zdigits2 a - Zdigits2 b →
  ∃ m e, Zpos (digits2_pos m) = 53 ∧
    Zdigits2 a - Zdigits2 b - 53 ≤ e ≤ Zdigits2 a - Zdigits2 b - 51 ∧
    SFdiv 53 1024 (Float.exact_int a) (Float.exact_int b)
    = if e <=? 971 then S754_finite false m e else S754_infinity false.
Proof.
  intros Ha Hb Hd.
  destruct a as [|pa|pa]; [lia| |lia]. destruct b as [|pb|pb]; [lia| |lia].
  pose proof (Zdigits2_bounds (Zpos pa) eq_refl) as Ba.
  pose proof (Zdigits2_bounds (Zpos pb) eq_refl) as Bb.
  set (d1 := Zdigits2 (Zpos pa)) in *. set (d2 := Zdigits2 (Zpos pb)) in *.
  assert (H1 : 1 ≤ d1) by (unfold d1; simpl; lia).
  assert (H2 : 1 ≤ d2) by (unfold d2; simpl; lia).
  unfold Float.exact_int, SFdiv. rewrite SFdiv_core_binary_eq.
  fold d1. fold d2.
  set (e' := Z.min _ _). set (s := 0 - 0 - e').
  assert (He' : e' = Z.min (d1 - d2 - 53) 0) by (unfold e', fexp, emin; lia).
  assert (Hs : 0 ≤ s ∧ s = Z.max (53 - (d1 - d2)) 0) by lia.
  set (t := d1 - d2 + s) in *.
  assert (Ht : 53 ≤ t) by lia.
  set (q := Z.pos pa * 2 ^ s / Z.pos pb).
  assert (H2s : 0 < 2 ^ s) by (apply Z.pow_pos_nonneg; lia).
  assert (Hq : 2 ^ (t - 1) ≤ q < 2 ^ (t + 1)).
  { unfold q. split.
    - apply Z.div_le_lower_bound; [lia|].
      assert (2 ^ (t - 1) * 2 ^ d2 = 2 ^ (d1 - 1) * 2 ^ s) as Hp.
      { rewrite <- !Z.pow_add_r by lia. f_equal. lia. }
      assert (0 < 2 ^ (t - 1)) by (apply Z.pow_pos_nonneg; lia).
      nia.
    - apply Z.div_lt_upper_bound; [lia|].
      assert (2 ^ (d2 - 1) * 2 ^ (t + 1) = 2 ^ d1 * 2 ^ s) as Hp.
      { rewrite <- !Z.pow_add_r by lia. f_equal. lia. }
      assert (0 < 2 ^ (t + 1)) by (apply Z.pow_pos_nonneg; lia).
      nia. }
  assert (0 < q) by (pose proof (Z.pow_pos_nonneg 2 (t - 1)); lia).
  assert (Hk : ∃ k, 0 ≤ k ∧ t - 53 ≤ k ≤ t - 52 ∧ Zdigits2 q = 53 + k).
  { destruct (decide (q < 2 ^ t)).
    - exists (t - 53). split; [lia|]. split; [lia|].
      apply Zdigits2_unique; [lia|].
      replace (53 + (t - 53) - 1) with (t - 1) by lia.
      replace (53 + (t - 53)) with t by lia. lia.
    - exists (t - 52). split; [lia|]. split; [lia|].
      apply Zdigits2_unique; [lia|].
      replace (53 + (t - 52) - 1) with t by lia.
      replace (53 + (t - 52)) with (t + 1) by lia. lia. }
  destruct Hk as (k & Hk0 & Hk & Hdq).
  destruct (binary_round_aux_normal false q e'
              (new_location (Z.pos pb) ((Z.pos pa * 2 ^ s) mod Z.pos pb)) k)
    as (m & e & Hm & He & Heq); [done|lia|done|lia|].
  exists m, e. split; [done|]. split; [lia|]. exact Heq.
Qed.

Lemma Zdigits2_lt_pow n k : 0 < n < 2 ^ k → 0 ≤ k → 1 ≤ Zdigits2 n ≤ k.
Proof.
  intros Hn Hk. split.
  - destruct n as [|p|p]; [lia| |lia]. simpl. lia.
  - apply Zdigits2_le_iff; lia.
Qed.

(** The quotient of two positive ints below [2^1000] is a finite double. *)
Lemma int_truediv_finite a b :
  0 < a < 2 ^ 1000 → 0 < b < 2 ^ 1000 →
  ∃ m e, Float.int_truediv a b = Ok (S754_finite false m e).
Proof.
  intros Ha Hb.
  pose proof (Zdigits2_lt_pow a 1000 Ha ltac:(lia)) as Da.
  pose proof (Zdigits2_lt_pow b 1000 Hb ltac:(lia)) as Db.
  destruct (SFdiv_int_normal a b) as (m & e & _ & He & Heq); [lia..|].
  exists m, e. unfold Float.int_truediv.
  replace (b =? 0) with false by lia.
  change (SFdiv Float.prec Float.emax) with (SFdiv 53 1024). rewrite Heq.
  replace (e <=? 971) with true by lia. reflexivity.
Qed.

(** [a / a] is [1.0], whatever the size of [a]. *)
Lemma SFdiv_int_same a :
  0 < a →
  SFdiv 53 1024 (Float.exact_int a) (Float.exact_int a)
  = S754_finite false 4503599627370496 (-52).
Proof.
  intros Ha. destruct a as [|p|p]; [lia| |lia].
  unfold Float.exact_int, SFdiv. rewrite SFdiv_core_binary_eq.
  replace (Z.min _ _) with (-53) by (unfold fexp, emin; lia).
  replace (0 - 0 - -53) with 53 by lia.
  rewrite (Z.mul_comm (Z.pos p)), Z.div_mul, Z.mod_mul, new_location_0 by lia.
  cbn [xorb].
  change (2 ^ 53) with (Z.pos 4503599627370496 * 2 ^ 1).
  rewrite binary_round_aux_exact; [done|lia|done|lia].
Qed.

(** ** The statistics *)

Lemma of_int_1 : Float.of_int 1 = Ok (S754_finite false 4503599627370496 (-52)).
Proof. by vm_compute. Qed.

Lemma of_int_100 : Float.of_int 100 = Ok (S754_finite false 7036874417766400 (-46)).
Proof. by vm_compute. Qed.

Lemma compression_ratio_Ok c o q :
  Float.int_truediv c o = Ok q →
  compression_ratio c o
  = Ok (Float.format_f 1
          (Float.mul (Float.sub (S754_finite false 4503599627370496 (-52)) q)
             (S754_finite false 7036874417766400 (-46))) +:+ "%").
Proof.
  intros H. unfold compression_ratio. by rewrite H, of_int_1, of_int_100.
Qed.

Lemma int_truediv_0 o : 0 < o → Float.int_truediv 0 o = Ok (S754_zero false).
Proof. intros Ho. by destruct o as [|p|p]; [lia| |lia]. Qed.

Lemma int_truediv_same n :
  0 < n → Float.int_truediv n n = Ok (S754_finite false 4503599627370496 (-52)).
Proof.
  intros Hn. unfold Float.int_truediv. replace (n =? 0) with false by lia.
  change (SFdiv Float.prec Float.emax) with (SFdiv 53 1024).
  by rewrite SFdiv_int_same.
Qed.

Lemma pow2_1000_1033 : 2 ^ 1000 < 2 ^ 1033.
Proof. apply Z.pow_lt_mono_r; lia. Qed.

Lemma human_size_defined n :
  0 ≤ n < 2 ^ 1000 → ∃ s, human_size n = Ok (Some s).
Proof.
  intros Hn. pose proof pow2_1000_1033.
  rewrite human_size_divided by lia. by eexists.
Qed.

Lemma compression_ratio_total c o :
  0 ≤ c < 2 ^ 1000 → 0 < o < 2 ^ 1000 →
  ∃ x, compression_ratio c o = Ok (Float.format_f 1 x +:+ "%").
Proof.
  intros Hc Ho. destruct (decide (c = 0)) as [->|Hne].
  - rewrite (compression_ratio_Ok 0 o _ (int_truediv_0 o ltac:(lia))).
    by eexists.
  - destruct (int_truediv_finite c o) as (m & e & Hq); [lia|lia|].
    rewrite (compression_ratio_Ok c o _ Hq). by eexists.
Qed.

Lemma make_stats_total ENV source_dir fps total :
  0 < total < 2 ^ 1000 → 0 ≤ zip_st_size ENV < 2 ^ 1000 →
  ∃ original compressed ratio,
    human_size total = Ok (Some original) ∧
    human_size (zip_st_size ENV) = Ok (Some compressed) ∧
    compression_ratio (zip_st_size ENV) total = Ok ratio ∧
    make_stats ENV source_dir fps total
    = Ok [("Source Directory", Path_name (Path_of source_dir));
          ("Total Files", pretty (length fps));
          ("Original Size", original);
          ("Compressed Size", compressed);
          ("Compression Ratio", ratio);
          ("Processing Time", Float.format_f 2 (elapsed ENV) +:+ "s")].
Proof.
  intros Ht Hz.
  destruct (human_size_defined total) as [original Ho]; [lia|].
  destruct (human_size_defined (zip_st_size ENV)) as [compressed Hc]; [lia|].
  destruct (compression_ratio_total (zip_st_size ENV) total) as [x Hr]; [lia..|].
  exists original, compressed, (Float.format_f 1 x +:+ "%").
  split; [done|]. split; [done|]. split; [done|].
  unfold make_stats. by rewrite Ho, Hc, Hr.
Qed.

(** X10: the ratio line at its landmarks: an archive as large as its
    source shows 0.0%, whatever the size; an archive of no bytes shows
    100.0%; an archive larger than its source shows a negative ratio. *)
Theorem ratio_landmarks :
  (∀ n, 0 < n → compression_ratio n n = Ok "0.0%") ∧
  (∀ n, 0 < n → compression_ratio 0 n = Ok "100.0%") ∧
  compression_ratio 114 10 = Ok "-1040.0%" ∧
  compression_ratio 1 3 = Ok "66.7%".
Proof.
  split; [|split; [|split]].
  - intros n Hn. rewrite (compression_ratio_Ok n n _ (int_truediv_same n Hn)).
    by vm_compute.
  - intros n Hn. rewrite (compression_ratio_Ok 0 n _ (int_truediv_0 n Hn)).
    by vm_compute.
  - by vm_compute.
  - by vm_compute.
Qed.

(** X11: with a total size and an archive size below [2^1000] and a
    total that is not zero, the statistics table is always built: its six
    rows in the order of the source, the number of files, both sizes as
    [human_size] prints them (never [None]), the ratio and the time. *)
Theorem statistics_never_fail ENV source_dir fps total :
  0 < total < 2 ^ 1000 → 0 ≤ zip_st_size ENV < 2 ^ 1000 →
  ∃ original compressed ratio,
    human_size total = Ok (Some original) ∧
    human_size (zip_st_size ENV) = Ok (Some compressed) ∧
    compression_ratio (zip_st_size ENV) total = Ok ratio ∧
    make_stats ENV source_dir fps total
    = Ok [("Source Directory", Path_name (Path_of source_dir));
          ("Total Files", pretty (length fps));
          ("Original Size", original);
          ("Compressed Size", compressed);
          ("Compression Ratio", ratio);
          ("Processing Time", Float.format_f 2 (elapsed ENV) +:+ "s")].
Proof.
  intros Ht Hz.
  destruct (make_stats_total ENV source_dir fps total Ht Hz)
    as (original & compressed & ratio & Ho & Hc & Hr & Hs).
  exists original, compressed, ratio. by rewrite Ho, Hc, Hr, Hs.
Qed.

Lemma statistics_never_fail_witness :
  ∃ original compressed ratio,
    human_size 2013 = Ok (Some original) ∧
    human_size 400 = Ok (Some compressed) ∧
    compression_ratio 400 2013 = Ok ratio ∧
    make_stats (Sample.env_of (Some Sample.project) 400) "/home/u/proj"
      [below "/home/u/proj" ["a.txt"]] 2013
    = Ok [("Source Directory", "proj");
          ("Total Files", "1");
          ("Original Size", original);
          ("Compressed Size", compressed);
          ("Compression Ratio", ratio);
          ("Processing Time", "0.25s")].
Proof.
  apply (statistics_never_fail (Sample.env_of (Some Sample.project) 400)
           "/home/u/proj" [below "/home/u/proj" ["a.txt"]] 2013);
    cbn [zip_st_size Sample.env_of]; split; try lia;
    apply (Z.lt_le_trans _ (2 ^ 11)); try apply Z.pow_le_mono_r; lia.
Defined.

Lemma human_size_below n : n < 2 ^ 1033 → ∃ s, human_size n = Ok (Some s).
Proof.
  intros Hn. destruct (decide (n < 1024)).
  - rewrite human_size_small by done. by eexists.
  - rewrite human_size_divided by lia. by eexists.
Qed.

Lemma make_stats_nothing ENV source_dir fps :
  zip_st_size ENV < 2 ^ 1033 →
  make_stats ENV source_dir fps 0 = Raise ZeroDivisionError.
Proof.
  intros Hz. destruct (human_size_below _ Hz) as [s Hs].
  unfold make_stats. rewrite Hs.
  assert (human_size 0 = Ok (Some "0 B")) as -> by (by vm_compute).
  reflexivity.
Qed.



(** ** How a run can end *)

Lemma exits_1_Exception {A} (r : result A) : raises_Exception r → exits_1 r.
Proof. intros H c ->. by specialize (H _ eq_refl). Qed.

Lemma exits_ret {A} (a : A) : exits_with_1 (mret a).
Proof. by intros w c. Qed.

Lemma exits_raise {A} e : (∀ c, e = SystemExit c → c = 1) → exits_with_1 (raise (A:=A) e).
Proof. intros H w c [= ->]. by apply H. Qed.

Lemma exits_lift {A} (r : result A) : exits_1 r → exits_with_1 (lift r).
Proof. intros H w. exact H. Qed.

Lemma exits_print msg : exits_with_1 (print msg).
Proof. by intros w c. Qed.

Lemma exits_checkpoint : exits_with_1 checkpoint.
Proof. intros w c. unfold checkpoint. by destruct (pending_sigint w) as [[]|]. Qed.

Lemma exits_bind {A B} (m : M A) (f : A → M B) :
  exits_with_1 m → (∀ a, exits_with_1 (f a)) → exits_with_1 (m ≫= f).
Proof.
  intros Hm Hf w. unfold mbind, M_bind. specialize (Hm w).
  destruct (m w) as [[a|e] w1]; [apply Hf|].
  intros c [= ->]. by apply (Hm c).
Qed.

Lemma exits_try {A} (m : M A) h :
  exits_with_1 m → (∀ e, exits_with_1 (h e)) →
  exits_with_1 (try_except_Exception m h).
Proof.
  intros Hm Hh w. unfold try_except_Exception. specialize (Hm w).
  destruct (m w) as [[a|e] w1]; [done|].
  destruct (is_Exception e); [apply Hh|exact Hm].
Qed.

Lemma exits_for_each {A S} (body : A → S → M S) l s :
  (∀ x s, exits_with_1 (body x s)) → exits_with_1 (for_each body l s).
Proof.
  intros Hb. revert s. induction l as [|x l IH]; intros s; cbn [for_each].
  - apply exits_ret.
  - apply exits_bind; [apply Hb|apply IH].
Qed.

Lemma exits_stat_size ENV source_dir p : exits_with_1 (stat_size ENV source_dir p).
Proof.
  unfold stat_size. destruct (fs_lookup _ _ _) as [[]|];
    first [apply exits_ret|by apply exits_raise].
Qed.

Lemma exits_zipf_write ENV source_dir zp p arc :
  exits_with_1 (zipf_write ENV source_dir zp p arc).
Proof.
  unfold zipf_write. destruct (fs_lookup _ _ _) as [[? ? []|]|];
    first [by intros w c|by apply exits_raise].
Qed.

Lemma exits_discover ENV source_dir E : exits_with_1 (discover ENV source_dir E).
Proof.
  unfold discover. destruct (source ENV) as [src|]; [|apply exits_ret].
  intros w. rewrite discover_events. revert w.
  apply exits_for_each. intros [|root file] [fps tot]; cbn [visit].
  - apply exits_bind; [apply exits_checkpoint|]. intros _. apply exits_ret.
  - unfold discover_file.
    apply exits_bind; [apply exits_checkpoint|]. intros _.
    case_bool_decide; [|apply exits_ret].
    apply exits_bind; [apply exits_stat_size|]. intros sz.
    apply exits_bind; [apply exits_print|]. intros _. apply exits_ret.
Qed.

Lemma relative_to_raises p other : raises_Exception (relative_to p other).
Proof.
  intros e. unfold relative_to.
  repeat (case_match; try done); by intros [= <-].
Qed.

Lemma of_int_raises z : raises_Exception (Float.of_int z).
Proof. intros e. unfold Float.of_int. case_match; [by intros [= <-]|done]. Qed.

Lemma int_truediv_raises a b : raises_Exception (Float.int_truediv a b).
Proof.
  intros e. unfold Float.int_truediv.
  repeat (case_match; try done); by intros [= <-].
Qed.

Lemma truediv_raises x y : raises_Exception (Float.truediv x y).
Proof. intros e. unfold Float.truediv. case_match; [by intros [= <-]|done]. Qed.

Lemma raises_bind {A B} (r : result A) (f : A → result B) :
  raises_Exception r → (∀ a, raises_Exception (f a)) → raises_Exception (r ≫= f).
Proof.
  intros Hr Hf. destruct r as [a|e]; [apply Hf|].
  intros e' [= ->]. by apply Hr.
Qed.

Lemma raises_Ok {A} (a : A) : raises_Exception (Ok a).
Proof. by intros e. Qed.

Lemma human_size_loop_raises us x : raises_Exception (human_size_loop us x).
Proof.
  revert x. induction us as [|unit us IH]; intros x; [apply raises_Ok|].
  cbn [human_size_loop]. destruct (py_lt x 1024 || String.eqb unit "GB").
  - destruct (negb (String.eqb unit "B")).
    + apply raises_bind; [|intros; apply raises_Ok].
      destruct x; [|apply raises_Ok]. cbn [py_format_f].
      apply raises_bind; [apply of_int_raises|intros; apply raises_Ok].
    + apply raises_bind; [|intros; apply raises_Ok].
      destruct x; [apply raises_Ok|]. by intros e [= <-].
  - apply raises_bind; [|intros; apply IH].
    destruct x; cbn [py_truediv].
    + apply raises_bind; [apply int_truediv_raises|intros; apply raises_Ok].
    + apply raises_bind; [apply of_int_raises|]. intros y.
      apply raises_bind; [apply truediv_raises|intros; apply raises_Ok].
Qed.

Lemma make_stats_raises ENV source_dir fps total :
  raises_Exception (make_stats ENV source_dir fps total).
Proof.
  unfold make_stats.
  apply raises_bind; [apply human_size_loop_raises|]. intros original.
  apply raises_bind; [apply human_size_loop_raises|]. intros compressed.
  apply raises_bind; [|intros; apply raises_Ok].
  unfold compression_ratio.
  apply raises_bind; [apply int_truediv_raises|]. intros q.
  apply raises_bind; [apply of_int_raises|]. intros one.
  apply raises_bind; [apply of_int_raises|]. intros hundred. apply raises_Ok.
Qed.

Lemma exits_write_file ENV source_dir zp total p i :
  exits_with_1 (write_file ENV source_dir zp total p i).
Proof.
  unfold write_file.
  apply exits_bind; [apply exits_checkpoint|]. intros _.
  apply exits_bind.
  { apply exits_lift, exits_1_Exception, relative_to_raises. }
  intros rel.
  apply exits_bind; [apply exits_zipf_write|]. intros _.
  apply exits_bind; [apply exits_print|]. intros _. apply exits_ret.
Qed.

(** ** What does not call [sys.exit] *)

Lemma never_exits_ret {A} (a : A) : never_exits (mret a).
Proof. by intros w c. Qed.

Lemma never_exits_raise {A} e :
  (∀ c, e ≠ SystemExit c) → never_exits (raise (A:=A) e).
Proof. intros H w c [= ->]. by eapply H. Qed.

Lemma never_exits_lift {A} (r : result A) :
  raises_Exception r → never_exits (lift r).
Proof. intros H w c Hr. cbn in Hr. by specialize (H _ Hr). Qed.

Lemma never_exits_print msg : never_exits (print msg).
Proof. by intros w c. Qed.

Lemma never_exits_checkpoint : never_exits checkpoint.
Proof. intros w c. unfold checkpoint. by destruct (pending_sigint w) as [[]|]. Qed.

Lemma never_exits_bind {A B} (m : M A) (f : A → M B) :
  never_exits m → (∀ a, never_exits (f a)) → never_exits (m ≫= f).
Proof.
  intros Hm Hf w c. unfold mbind, M_bind. specialize (Hm w c).
  destruct (m w) as [[a|e] w1]; [apply Hf|].
  intros [= ->]. by apply Hm.
Qed.

Lemma never_exits_for_each {A S} (body : A → S → M S) l s :
  (∀ x s, never_exits (body x s)) → never_exits (for_each body l s).
Proof.
  intros Hb. revert s. induction l as [|x l IH]; intros s; cbn [for_each].
  - apply never_exits_ret.
  - apply never_exits_bind; [apply Hb|apply IH].
Qed.

Lemma never_exits_stat_size ENV source_dir p :
  never_exits (stat_size ENV source_dir p).
Proof.
  unfold stat_size. destruct (fs_lookup _ _ _) as [[]|];
    first [apply never_exits_ret|by apply never_exits_raise].
Qed.

Lemma never_exits_zipf_write ENV source_dir zp p arc :
  never_exits (zipf_write ENV source_dir zp p arc).
Proof.
  unfold zipf_write. destruct (fs_lookup _ _ _) as [[? ? []|]|];
    first [by intros w c|by apply never_exits_raise].
Qed.

Lemma never_exits_discover ENV source_dir E :
  never_exits (discover ENV source_dir E).
Proof.
  unfold discover. destruct (source ENV) as [src|]; [|apply never_exits_ret].
  intros w. rewrite discover_events. revert w.
  apply never_exits_for_each. intros [|root file] [fps tot]; cbn [visit].
  - apply never_exits_bind; [apply never_exits_checkpoint|]. intros _.
    apply never_exits_ret.
  - unfold discover_file.
    apply never_exits_bind; [apply never_exits_checkpoint|]. intros _.
    case_bool_decide; [|apply never_exits_ret].
    apply never_exits_bind; [apply never_exits_stat_size|]. intros sz.
    apply never_exits_bind; [apply never_exits_print|]. intros _.
    apply never_exits_ret.
Qed.

Lemma never_exits_write_file ENV source_dir zp total p i :
  never_exits (write_file ENV source_dir zp total p i).
Proof.
  unfold write_file.
  apply never_exits_bind; [apply never_exits_checkpoint|]. intros _.
  apply never_exits_bind; [apply never_exits_lift, relative_to_raises|].
  intros rel.
  apply never_exits_bind; [apply never_exits_zipf_write|]. intros _.
  apply never_exits_bind; [apply never_exits_print|]. intros _.
  apply never_exits_ret.
Qed.

Lemma never_exits_absurd {A} (m : M A) w c w' :
  never_exits m → m w = (Raise (SystemExit c), w') → False.
Proof. intros H Hm. apply (H w c). by rewrite Hm. Qed.

Lemma exits_create_zip ENV source_dir output_path custom_name exclude ts :
  exits_with_1 (create_zip ENV source_dir output_path custom_name exclude ts).
Proof.
  unfold create_zip.
  apply exits_bind; [apply exits_print|]. intros _.
  apply exits_bind; [apply exits_discover|]. intros [fps total].
  apply exits_bind.
  { case_bool_decide; [|apply exits_ret].
    apply exits_bind; [apply exits_print|]. intros _.
    apply exits_raise. by intros c [= <-]. }
  intros _.
  apply exits_bind; [by intros w c|]. intros _.
  apply exits_try.
  - apply exits_bind; [apply exits_print|]. intros _.
    apply exits_bind; [by intros w c|]. intros _.
    apply exits_bind; [apply exits_for_each; intros; apply exits_write_file|].
    intros _.
    apply exits_bind.
    { apply exits_lift, exits_1_Exception, make_stats_raises. }
    intros stats.
    apply exits_bind; [apply exits_print|]. intros _. apply exits_print.
  - intros e. apply exits_bind; [apply exits_print|]. intros _.
    apply exits_raise. by intros c [= <-].
Qed.

(** What was printed last when [create_zip] returns or exits. *)
Lemma create_zip_last ENV source_dir output_path custom_name exclude ts w r w' :
  create_zip ENV source_dir output_path custom_name exclude ts w = (r, w') →
  match r with
  | Ok _ => ∃ stats, last (stdout w') = Some (Stats stats)
  | Raise (SystemExit _) =>
      last (stdout w') = Some NoFilesFound ∨
      ∃ e, is_Exception e = true ∧ last (stdout w') = Some (Error e)
  | Raise _ => True
  end.
Proof.
  unfold create_zip, mbind, M_bind, try_except_Exception.
  repeat (case_match; simplify_eq; try done).
  all: intros; simplify_eq.
  all: repeat match goal with
         | H : print _ _ = _ |- _ => unfold print in H; simplify_eq
         | H : sys_exit _ _ = _ |- _ => unfold sys_exit, raise in H; simplify_eq
         | H : mret _ _ = _ |- _ => unfold mret, M_ret in H; simplify_eq
         | H : mkdir _ _ = _ |- _ => unfold mkdir in H; simplify_eq
         end.
  all: try done.
  all: try (eexists; cbn [stdout]; apply last_snoc).
  all: try (left; cbn [stdout]; apply last_snoc).
  all: try (right; eexists; split; [eassumption|]; cbn [stdout]; apply last_snoc).
  all: exfalso.
  all: match goal with
       | H : discover _ _ _ _ = (Raise (SystemExit _), _) |- _ =>
           exact (never_exits_absurd _ _ _ _ (never_exits_discover _ _ _) H)
       | H : for_each _ _ _ _ = (Raise (SystemExit _), _) |- _ =>
           refine (never_exits_absurd _ _ _ _ _ H);
           apply never_exits_for_each; intros; apply never_exits_write_file
       | H : lift (make_stats _ _ _ _) _ = (Raise (SystemExit _), _) |- _ =>
           refine (never_exits_absurd _ _ _ _ _ H);
           apply never_exits_lift, make_stats_raises
       end.
Qed.

(** X14: the ways out of [create_zip].  It leaves through [sys.exit]
    with status 1 only, and then the last line printed is the message
    that no files were found or the error line of an [Exception]; when
    it returns, the last line printed is the statistics table.  (A
    [KeyboardInterrupt], and an exception raised before the [try], leave
    it as they are.) *)
Theorem create_zip_ways_out ENV source_dir output_path custom_name exclude ts w :
  (∀ c, (create_zip ENV source_dir output_path custom_name exclude ts w).1
        = Raise (SystemExit c) →
        c = 1 ∧
        (last (stdout (create_zip ENV source_dir output_path custom_name
                         exclude ts w).2) = Some NoFilesFound ∨
         ∃ e, is_Exception e = true ∧
              last (stdout (create_zip ENV source_dir output_path custom_name
                              exclude ts w).2) = Some (Error e))) ∧
  ((create_zip ENV source_dir output_path custom_name exclude ts w).1 = Ok () →
   ∃ stats, last (stdout (create_zip ENV source_dir output_path custom_name
                            exclude ts w).2) = Some (Stats stats)) ∧
  create_zip (Sample.env_of (Some Sample.only_excluded) 0) "/home/u/proj" "out"
    None None true (initial ∅ None)
  = (Raise (SystemExit 1),
     {| stdout := [Discovering; NoFilesFound]; made_dirs := [];
        archives := ∅; pending_sigint := None |}) ∧
  (create_zip (Sample.env_of (Some Sample.project) 400) "/home/u/proj" "out"
     None None true (initial ∅ (Some 1%nat))).1 = Raise KeyboardInterrupt.
Proof.
  pose proof (exits_create_zip ENV source_dir output_path custom_name exclude ts w)
    as Hexit.
  pose proof (create_zip_last ENV source_dir output_path custom_name exclude ts w)
    as Hlast.
  destruct (create_zip ENV source_dir output_path custom_name exclude ts w)
    as [r w'] eqn:Hc. cbn [fst snd] in *. specialize (Hlast r w' eq_refl).
  split; [|split; [|split; by vm_compute]].
  - intros c ->. split; [by apply Hexit|]. exact Hlast.
  - intros ->. exact Hlast.
Qed.

(** X15: a Ctrl-C that arrives while the files are being discovered
    leaves nothing behind: the run prints the cancellation message and
    exits with status 0, no directory has been made and the archives on
    disk are those that were there. *)
Theorem cancel_during_discovery_leaves_nothing ENV a disk sigint w1 :
  discover ENV (arg_source a) (main_patterns a) (discovering disk sigint)
  = (Raise KeyboardInterrupt, w1) →
  run ENV a (initial disk sigint)
  = (0, {| stdout := stdout w1 ++ [Cancelled]; made_dirs := [];
           archives := disk; pending_sigint := pending_sigint w1 |}).
Proof.
  intros H. unfold run, script, try_except_KeyboardInterrupt.
  rewrite main_discovering. unfold mbind at 1, M_bind. rewrite H.
  destruct (same_disk_discover _ _ _ _ _ _ H) as [Ha Hm].
  cbn in Ha, Hm. unfold mbind, M_bind, print, sys_exit, raise. cbn.
  by rewrite Ha, Hm.
Qed.

Lemma cancel_during_discovery_leaves_nothing_witness :
  run (Sample.env_of (Some Sample.project) 400) (Sample.arguments "" false)
    (initial {[ "out/old.zip" := ["x"] ]} (Some 2%nat))
  = (0, {| stdout := [Banner; Discovering; Found 1; Cancelled]; made_dirs := [];
           archives := {[ "out/old.zip" := ["x"] ]}; pending_sigint := None |}).
Proof.
  refine (cancel_during_discovery_leaves_nothing
            (Sample.env_of (Some Sample.project) 400) (Sample.arguments "" false)
            {[ "out/old.zip" := ["x"] ]} (Some 2%nat)
            {| stdout := [Banner; Discovering; Found 1]; made_dirs := [];
               archives := {[ "out/old.zip" := ["x"] ]};
               pending_sigint := None |} _).
  by vm_compute.
Defined.

Lemma split_join_proper rel :
  rel ≠ [] → Forall (λ c, proper_name c = true) rel →
  str_split "/" (str_join "/" rel) = rel.
Proof.
  intros Hne Hall. apply str_split_join; [done|].
  eapply Forall_impl; [exact Hall|]. intros c Hc.
  by apply proper_name_spec in Hc as (_ & _ & _ & ?).
Qed.



(** ** The base name of the archive *)

Lemma last_filter_nonempty (P : string → bool) l :
  (∀ x, P x = true → x ≠ "") →
  List.last (filter (λ x, P x = true) l) "" = "" →
  filter (λ x, P x = true) l = [].
Proof.
  intros HP. induction l as [|x l IH]; [done|].
  rewrite filter_cons. destruct (decide (P x = true)) as [Hx|Hx]; [|exact IH].
  intros Hlast. destruct (filter (λ x, P x = true) l) as [|y l'] eqn:E.
  - cbn in Hlast. by apply HP in Hx.
  - change (List.last (x :: y :: l') "") with (List.last (y :: l') "") in Hlast.
    by specialize (IH Hlast).
Qed.

Lemma proper_component_spec x :
  proper_component x = true ↔ ¬ (x = "" ∨ x = ".").
Proof.
  unfold proper_component.
  destruct (String.eqb_spec x "") as [H1|H1]; cbn.
  { split; [done|]. intros H. exfalso. apply H. by left. }
  destruct (String.eqb_spec x ".") as [H2|H2]; cbn.
  { split; [done|]. intros H. exfalso. apply H. by right. }
  split; [|done]. by intros _ [?|?].
Qed.

(** X17: without a custom name the base name of the archive is the last
    component of the source directory as it was spelled, and it is empty
    exactly when the spelling has no component but [.] and empty ones:
    a source given as [.], [./], [/] or the empty string makes an archive
    called [.zip], or [_] and the timestamp. *)
Theorem source_without_a_name :
  (∀ s, base_name None s = ""
        ↔ Forall (λ c, c = "" ∨ c = ".") (str_split "/" s)) ∧
  Forall (λ s, base_name None s = "") [""; "."; "./"; "/"; "//"; "/./"] ∧
  (∀ t, zip_filename "" false t = ".zip" ∧
        zip_filename "" true t = "_" +:+ strftime t +:+ ".zip") ∧
  base_name None "proj/" = "proj" ∧
  base_name None "/a/b/../c" = "c" ∧
  base_name None ".." = ".." ∧
  Path_str (zip_path_of "." "out" None false Sample.clock) = "out/.zip" ∧
  Path_str (zip_path_of "." "out" None true Sample.clock)
  = "out/_20240102_030405.zip".
Proof.
  split; [|split; [by repeat constructor|split; [by intros t|by vm_compute]]].
  intros s. unfold base_name, Path_name. rewrite Path_of_segments. split.
  - intros H. apply last_filter_nonempty in H.
    2:{ intros x Hx ->. done. }
    apply Forall_forall. intros c Hc.
    destruct (decide (c = "" ∨ c = ".")) as [|Hn]; [done|].
    apply proper_component_spec in Hn.
    assert (c ∈ filter (λ x, proper_component x = true) (str_split "/" s))
      as Hin by (by apply list_elem_of_filter).
    rewrite H in Hin. by apply elem_of_nil in Hin.
  - intros H. induction H as [|c l Hc _ IH]; [done|].
    rewrite filter_cons_False; [done|].
    intros Hp. apply proper_component_spec in Hp. by apply Hp.
Qed.

(** ** Rounding comes after the choice of the unit *)

Lemma div_half_even_round_up a b q :
  0 < b → Z.odd q = true → (2 * q + 1) * b ≤ 2 * a → a < (q + 1) * b →
  Float.div_half_even a b = q + 1.
Proof.
  intros Hb Hq Hlo Hhi. unfold Float.div_half_even.
  assert (Hdiv : a / b = q).
  { symmetry. apply (Z.div_unique a b q (a - b * q)); lia. }
  assert (Hmod : a mod b = a - b * q).
  { symmetry. apply (Z.mod_unique a b q (a - b * q)); lia. }
  rewrite Hdiv, Hmod.
  destruct (Z.compare_spec (2 * (a - b * q)) b) as [_|Hlt|_]; [|lia|done].
  by rewrite <- Z.negb_odd, Hq.
Qed.

(** X18: the unit is chosen before the number is rounded to two
    decimals, so the sizes just below a unit are printed as 1024.00 of
    the smaller unit: every size from 1048571 to 1048575 bytes is
    [1024.00 KB], every size from 1073736582 bytes to one byte below
    [2^30] is [1024.00 MB]; the sizes next to these ranges are
    [1023.99 KB], [1.00 MB], [1023.99 MB] and [1.00 GB]. *)
Theorem human_size_shows_1024 :
  (∀ n, 1048571 ≤ n < 2 ^ 20 → human_size n = Ok (Some "1024.00 KB")) ∧
  (∀ n, 1073736582 ≤ n < 2 ^ 30 → human_size n = Ok (Some "1024.00 MB")) ∧
  human_size 1048570 = Ok (Some "1023.99 KB") ∧
  human_size (2 ^ 20) = Ok (Some "1.00 MB") ∧
  human_size 1073736581 = Ok (Some "1023.99 MB") ∧
  human_size (2 ^ 30) = Ok (Some "1.00 GB").
Proof.
  split; [|split; [|by vm_compute]].
  - intros n Hn. rewrite human_size_exact by lia.
    replace (n <? 2 ^ 20) with true by lia.
    rewrite (div_half_even_round_up (n * 100) (2 ^ 10) 102399) by (done || lia).
    by vm_compute.
  - intros n Hn. rewrite human_size_exact by lia.
    replace (n <? 2 ^ 20) with false by lia.
    replace (n <? 2 ^ 30) with true by lia.
    rewrite (div_half_even_round_up (n * 100) (2 ^ 20) 102399) by (done || lia).
    by vm_compute.
Qed.

(** ** The statistics table *)

Lemma foldl_max_ge x xs : x ≤ foldl Z.max x xs.
Proof.
  revert x. induction xs as [|y xs IH]; intros x; cbn [foldl]; [lia|].
  specialize (IH (Z.max x y)). lia.
Qed.

Lemma foldl_max_upper x xs : Forall (λ y, y ≤ foldl Z.max x xs) (x :: xs).
Proof.
  revert x. induction xs as [|y xs IH]; intros x.
  - by constructor.
  - cbn [foldl]. specialize (IH (Z.max x y)).
    inversion IH as [|? ? H1 H2]; subst.
    constructor; [lia|]. constructor; [lia|done].
Qed.

Lemma foldl_max_in x xs : foldl Z.max x xs ∈ x :: xs.
Proof.
  revert x. induction xs as [|y xs IH]; intros x; cbn [foldl]; [by left|].
  specialize (IH (Z.max x y)). apply elem_of_cons in IH as [IH|IH].
  - rewrite IH. destruct (Z.max_spec x y) as [[_ ->]|[_ ->]];
      [right; by left|by left].
  - right. by right.
Qed.

Lemma py_max_spec xs m :
  py_max xs = Ok m → m ∈ xs ∧ Forall (λ y, y ≤ m) xs.
Proof.
  destruct xs as [|x xs]; [done|]. intros [= <-].
  split; [apply foldl_max_in|apply foldl_max_upper].
Qed.

Lemma len_append s1 s2 : len (s1 +:+ s2) = len s1 + len s2.
Proof. unfold len. rewrite length_append. lia. Qed.

Lemma length_blanks k : String.length (Nat.iter k (String " ") "") = k.
Proof.
  induction k as [|k IH]; [done|].
  change (S (String.length (Nat.iter k (String " ") "")) = S k). by f_equal.
Qed.

Lemma len_spaces n : 0 ≤ n → len (spaces n) = n.
Proof.
  intros Hn. unfold len, spaces. rewrite length_blanks. by apply Z2Nat.id.
Qed.

Lemma row_aligned kw vw k v :
  len k + 2 ≤ kw → len v + 2 ≤ vw →
  aligned_row kw vw (k, v) (Row (kw - (len k + 1)) k (vw - len v) v).
Proof.
  intros Hk Hv. exists (kw - (len k + 1)), (vw - len v). cbn [fst snd].
  split; [done|]. split; [lia|]. split; [lia|]. split; [lia|]. split; [lia|].
  cbn [row_text]. rewrite !len_append, !len_spaces by lia.
  change (len ":") with 1. lia.
Qed.

(** What [print_stats] prints for a table with at least one row. *)
Lemma print_stats_rows stats lines :
  print_stats stats = Ok lines →
  ∃ mk mv,
    py_max (map (λ kv, len kv.1) stats) = Ok mk ∧
    py_max (map (λ kv, len kv.2) stats) = Ok mv ∧
    lines = [Title; Rule (mk + 2 + (mv + 2) + 1)] ++
            map (λ kv, Row (mk + 2 - (len kv.1 + 1)) kv.1
                         (mv + 2 - len kv.2) kv.2) stats ++
            [Rule (mk + 2 + (mv + 2) + 1)].
Proof.
  unfold print_stats. rewrite List.map_map. cbn [snd].
  destruct (py_max (map (λ kv, len kv.1) stats)) as [mk|] eqn:Ek; [|done].
  destruct (py_max (map (λ kv, len kv.2) stats)) as [mv|] eqn:Ev; [|done].
  intros [= <-]. by exists mk, mv.
Qed.

(** X19: the rows of the statistics table are aligned: between the
    title with its rule and the closing rule there is one row per entry,
    in the order of the table; in every row the colon stands in the same
    column and the value ends in the same column, so all rows are equally
    long; there is at least one blank before every key and two before
    every value, exactly one before the longest key and two before the
    longest value; the rules are one character longer than the rows. *)
Theorem stats_rows_aligned stats lines :
  print_stats stats = Ok lines →
  ∃ kw vw rows,
    lines = [Title; Rule (kw + vw + 1)] ++ rows ++ [Rule (kw + vw + 1)] ∧
    Forall2 (aligned_row kw vw) stats rows ∧
    Exists (λ l, ∃ k vp v, l = Row 1 k vp v) rows ∧
    Exists (λ l, ∃ kp k v, l = Row kp k 2 v) rows.
Proof.
  intros H. apply print_stats_rows in H as (mk & mv & Hk & Hv & ->).
  apply py_max_spec in Hk as [Hkin Hkle], Hv as [Hvin Hvle].
  exists (mk + 2), (mv + 2).
  exists (map (λ kv, Row (mk + 2 - (len kv.1 + 1)) kv.1 (mv + 2 - len kv.2) kv.2)
            stats).
  split; [reflexivity|].
  rewrite Forall_forall in Hkle, Hvle. split; [|split].
  - rewrite map_fmap. apply Forall2_fmap_r, Forall_Forall2_diag, Forall_forall.
    intros [k v] Hkv. cbn [fst snd]. apply row_aligned; cbn [fst snd].
    + assert (len k ≤ mk); [|lia]. apply Hkle.
      rewrite map_fmap. apply list_elem_of_fmap. by exists (k, v).
    + assert (len v ≤ mv); [|lia]. apply Hvle.
      rewrite map_fmap. apply list_elem_of_fmap. by exists (k, v).
  - rewrite map_fmap in Hkin. apply list_elem_of_fmap in Hkin as ([k v] & -> & Hin).
    apply Exists_exists. eexists. split.
    + rewrite map_fmap. apply list_elem_of_fmap. by exists (k, v).
    + cbn [fst snd]. exists k, (mv + 2 - len v), v. f_equal. lia.
  - rewrite map_fmap in Hvin. apply list_elem_of_fmap in Hvin as ([k v] & -> & Hin).
    apply Exists_exists. eexists. split.
    + rewrite map_fmap. apply list_elem_of_fmap. by exists (k, v).
    + cbn [fst snd]. exists (mk + 2 - (len k + 1)), k, v. f_equal. lia.
Qed.

Lemma stats_rows_aligned_witness :
  ∃ kw vw rows,
    [Title; Rule 28;
     Row 1 "Source Directory" 5 "proj";
     Row 6 "Total Files" 8 "3";
     Row 4 "Original Size" 2 "1.97 KB";
     Rule 28]
    = [Title; Rule (kw + vw + 1)] ++ rows ++ [Rule (kw + vw + 1)] ∧
    Forall2 (aligned_row kw vw)
      [("Source Directory", "proj"); ("Total Files", "3");
       ("Original Size", "1.97 KB")] rows ∧
    Exists (λ l, ∃ k vp v, l = Row 1 k vp v) rows ∧
    Exists (λ l, ∃ kp k v, l = Row kp k 2 v) rows.
Proof.
  apply (stats_rows_aligned
           [("Source Directory", "proj"); ("Total Files", "3");
            ("Original Size", "1.97 KB")]).
  reflexivity.
Defined.

(** X20: [print_stats] fails on an empty table, with the [ValueError]
    of [max], and on no other: a table with rows gives the title, a
    rule, the rows and a rule.  The table that [create_zip] builds has
    six rows, so it is always printed, in nine lines. *)
Theorem print_stats_needs_a_row :
  print_stats [] = Raise ValueError ∧
  (∀ kv stats, ∃ lines,
     print_stats (kv :: stats) = Ok lines ∧
     length lines = (length stats + 4)%nat) ∧
  (∀ ENV source_dir fps total stats,
     make_stats ENV source_dir fps total = Ok stats →
     ∃ lines, print_stats stats = Ok lines ∧ length lines = 9%nat).
Proof.
  split; [done|]. split.
  - intros kv stats. eexists. split; [reflexivity|].
    cbn [app length]. rewrite length_app, length_map. cbn [length]. lia.
  - intros ENV source_dir fps total stats H. unfold make_stats in H.
    destruct (human_size total) as [o|]; [|done].
    destruct (human_size (zip_st_size ENV)) as [c|]; [|done].
    destruct (compression_ratio (zip_st_size ENV) total) as [r|]; [|done].
    injection H as <-. eexists. split; reflexivity.
Qed.

(** ** Products and differences of normal doubles *)

Lemma iter_xO m d : Zpos (Pos.iter xO m d) = Zpos m * 2 ^ Zpos d.
Proof.
  change (Pos.iter xO m d) with (shift_pos d m). rewrite shift_pos_correct.
  by rewrite Z.mul_comm.
Qed.

Lemma shl_align_fst m e ez :
  ez ≤ e → Zpos (shl_align m e ez).1 = Zpos m * 2 ^ (e - ez).
Proof.
  intros He. unfold shl_align.
  destruct (ez - e) as [|d|d] eqn:E; cbn [fst].
  - replace (e - ez) with 0 by lia. lia.
  - lia.
  - rewrite iter_xO. f_equal. f_equal. lia.
Qed.

Lemma digits_53_bounds m :
  Zpos (digits2_pos m) = 53 → 2 ^ 52 ≤ Zpos m < 2 ^ 53.
Proof.
  intros Hd. pose proof (Zdigits2_bounds (Zpos m) eq_refl) as Hb.
  change (Zdigits2 (Zpos m)) with (Zpos (digits2_pos m)) in Hb.
  by rewrite Hd in Hb.
Qed.

(** The product of two normal doubles, away from the underflow. *)
Lemma SFmul_normal sx mx ex sy my ey :
  Zpos (digits2_pos mx) = 53 → Zpos (digits2_pos my) = 53 →
  -1074 ≤ ex + ey + 52 →
  ∃ m e, Zpos (digits2_pos m) = 53 ∧ ex + ey + 52 ≤ e ≤ ex + ey + 54 ∧
    SFmul 53 1024 (S754_finite sx mx ex) (S754_finite sy my ey)
    = if e <=? 971 then S754_finite (xorb sx sy) m e
      else S754_infinity (xorb sx sy).
Proof.
  intros Hx Hy He.
  apply digits_53_bounds in Hx, Hy.
  cbn [SFmul]. rewrite Pos2Z.inj_mul.
  set (p := Z.pos mx * Z.pos my).
  assert (Hp : 2 ^ 104 ≤ p < 2 ^ 106).
  { change (2 ^ 104) with (2 ^ 52 * 2 ^ 52).
    change (2 ^ 106) with (2 ^ 53 * 2 ^ 53). unfold p. nia. }
  assert (Hk : ∃ k, 52 ≤ k ≤ 53 ∧ Zdigits2 p = 53 + k).
  { destruct (decide (p < 2 ^ 105)).
    - exists 52. split; [lia|]. apply Zdigits2_unique; [lia|].
      change (53 + 52 - 1) with 104. change (53 + 52) with 105. lia.
    - exists 53. split; [lia|]. apply Zdigits2_unique; [lia|].
      change (53 + 53 - 1) with 105. change (53 + 53) with 106. lia. }
  destruct Hk as (k & Hk & Hd).
  assert (0 < p) by (unfold p; lia).
  destruct (binary_round_aux_normal (xorb sx sy) p (ex + ey) loc_Exact k)
    as (m & e & Hm & Hee & Heq); [done|lia|done|lia|].
  exists m, e. split; [done|]. split; [lia|]. exact Heq.
Qed.

(** Rounding a positive integer mantissa, in the normal range. *)
Lemma binary_round_normal s m e :
  -1021 ≤ Zdigits2 (Zpos m) + e →
  ∃ m' e', Zpos (digits2_pos m') = 53 ∧
    Zdigits2 (Zpos m) + e - 53 ≤ e' ≤ Zdigits2 (Zpos m) + e - 52 ∧
    binary_round 53 1024 s m e
    = if e' <=? 971 then S754_finite s m' e' else S754_infinity s.
Proof.
  intros Hd. unfold binary_round.
  change (Zpos (digits2_pos m)) with (Zdigits2 (Zpos m)).
  pose proof (Zdigits2_bounds (Zpos m) eq_refl) as Hb.
  set (d := Zdigits2 (Zpos m)) in *.
  assert (H1 : 1 ≤ d) by (unfold d; simpl; lia).
  replace (fexp 53 1024 (d + e)) with (d + e - 53) by (unfold fexp, emin; lia).
  unfold shl_align.
  destruct (d + e - 53 - e) as [|k|k] eqn:E.
  - destruct (binary_round_aux_normal s (Zpos m) e loc_Exact 0)
      as (m' & e' & Hm & He & Heq); [done|lia|fold d; lia|lia|].
    exists m', e'. split; [done|]. split; [lia|]. exact Heq.
  - destruct (binary_round_aux_normal s (Zpos m) e loc_Exact (Zpos k))
      as (m' & e' & Hm & He & Heq); [done|lia|fold d; lia|lia|].
    exists m', e'. split; [done|]. split; [lia|]. exact Heq.
  - rewrite iter_xO.
    assert (Hk : Zpos k = 53 - d) by lia.
    assert (H2 : 0 < 2 ^ Zpos k) by (apply Z.pow_pos_nonneg; lia).
    destruct (binary_round_aux_normal s (Zpos m * 2 ^ Zpos k) (d + e - 53)
                loc_Exact 0) as (m' & e' & Hm & He & Heq); [lia|lia| |lia|].
    { apply Zdigits2_unique; [lia|].
      replace (2 ^ (53 + 0 - 1)) with (2 ^ (d - 1) * 2 ^ Zpos k)
        by (rewrite <- Z.pow_add_r by lia; f_equal; lia).
      replace (2 ^ (53 + 0)) with (2 ^ d * 2 ^ Zpos k)
        by (rewrite <- Z.pow_add_r by lia; f_equal; lia).
      nia. }
    exists m', e'. split; [done|]. split; [lia|]. exact Heq.
Qed.

Lemma binary_normalize_finite z e :
  z ≠ 0 → -1021 ≤ Zdigits2 (Z.abs z) + e ≤ 1023 →
  ∃ s m e', binary_normalize 53 1024 z e false = S754_finite s m e'.
Proof.
  intros Hz Hd. destruct z as [|p|p]; [done| |]; cbn [binary_normalize].
  all: change (Z.abs _) with (Z.pos p) in Hd.
  - destruct (binary_round_normal false p e) as (m' & e' & _ & He & ->); [lia|].
    replace (e' <=? 971) with true by lia. by eexists _, _, _.
  - destruct (binary_round_normal true p e) as (m' & e' & _ & He & ->); [lia|].
    replace (e' <=? 971) with true by lia. by eexists _, _, _.
Qed.

Lemma Zdigits2_upper n k : 0 < n < 2 ^ k → 0 ≤ k → 1 ≤ Zdigits2 n ≤ k.
Proof. apply Zdigits2_lt_pow. Qed.

(** The difference of two normal doubles of moderate size is a zero or
    a finite double. *)
Lemma SFsub_finite sx mx ex sy my ey :
  Zpos (digits2_pos mx) = 53 → Zpos (digits2_pos my) = 53 →
  -1022 ≤ ex ≤ 900 → -1022 ≤ ey ≤ 900 →
  (∃ s, SFsub 53 1024 (S754_finite sx mx ex) (S754_finite sy my ey) = S754_zero s) ∨
  (∃ s m e, SFsub 53 1024 (S754_finite sx mx ex) (S754_finite sy my ey)
            = S754_finite s m e).
Proof.
  intros Hx Hy Hex Hey. apply digits_53_bounds in Hx, Hy.
  cbn [SFsub]. set (ez := Z.min ex ey).
  rewrite !shl_align_fst by (unfold ez; lia).
  set (a := Z.pos mx * 2 ^ (ex - ez)). set (b := Z.pos my * 2 ^ (ey - ez)).
  set (t := Z.max ex ey - ez).
  assert (Ht : 0 ≤ t) by (unfold t, ez; lia).
  assert (Ha : 0 < a < 2 ^ (53 + t)).
  { unfold a. assert (0 < 2 ^ (ex - ez)) by (apply Z.pow_pos_nonneg; unfold ez; lia).
    split; [lia|]. rewrite Z.pow_add_r by lia.
    assert (2 ^ (ex - ez) ≤ 2 ^ t) by (apply Z.pow_le_mono_r; unfold t; lia).
    nia. }
  assert (Hb : 0 < b < 2 ^ (53 + t)).
  { unfold b. assert (0 < 2 ^ (ey - ez)) by (apply Z.pow_pos_nonneg; unfold ez; lia).
    split; [lia|]. rewrite Z.pow_add_r by lia.
    assert (2 ^ (ey - ez) ≤ 2 ^ t) by (apply Z.pow_le_mono_r; unfold t; lia).
    nia. }
  set (D := cond_Zopp sx a - cond_Zopp sy b).
  assert (HD : Z.abs D < 2 ^ (54 + t)).
  { replace (54 + t) with (1 + (53 + t)) by lia. rewrite Z.pow_add_r by lia.
    unfold D. destruct sx, sy; cbn [cond_Zopp]; lia. }
  destruct (decide (D = 0)) as [->|HD0]; [left; by eexists|right].
  apply binary_normalize_finite; [done|].
  pose proof (Zdigits2_upper (Z.abs D) (54 + t) ltac:(lia) ltac:(lia)).
  unfold t, ez in *. lia.
Qed.

(** ** The progress bar *)

Lemma of_int_40 : Float.of_int 40 = Ok (S754_finite false 5629499534213120 (-47)).
Proof. by vm_compute. Qed.

Lemma length_ustr_mul n s :
  Z.of_nat (length (ustr_mul n s)) = Z.max n 0 * Z.of_nat (length s).
Proof.
  unfold ustr_mul. rewrite length_concat.
  assert (∀ k, sum_list (length <$> replicate k s) = (k * length s)%nat) as ->.
  { intros k. induction k as [|k IH]; [done|]. cbn. by rewrite IH. }
  rewrite Nat2Z.inj_mul. f_equal.
  destruct n as [|p|p]; [done| |done]. rewrite Z2Nat.id by lia. lia.
Qed.

Lemma progress_bar_Ok current total fraction k :
  Float.int_truediv current total = Ok fraction →
  py_int (Float.sub (Float.mul fraction (S754_finite false 5629499534213120 (-47)))
            (S754_finite false 4503599627370496 (-52))) = Ok k →
  progress_bar current total 40
  = Ok {| bar := ustr_mul k bar_rule ++ bar_head ++
                 ustr_mul (40 - (3 * Z.max k 0 + 3)) bar_rule;
          percent := Float.format_f 0
                       (Float.mul fraction
                          (S754_finite false 7036874417766400 (-46))) +:+ "%" |}.
Proof.
  intros Hf Hk. unfold progress_bar.
  rewrite Hf, of_int_40, of_int_1, of_int_100.
  cbn [mbind result_bind]. rewrite Hk. cbn [mbind result_bind].
  rewrite length_app, Nat2Z.inj_add, length_ustr_mul.
  change (Z.of_nat (length bar_rule)) with 3.
  change (Z.of_nat (length bar_head)) with 3.
  rewrite <- app_assoc. by rewrite (Z.mul_comm (Z.max k 0) 3).
Qed.

Lemma last_progress_lines total i rels rel :
  last (progress_lines total i (rels ++ [rel]))
  = Some (Compressing (i + length rels) total (str_join "/" rel)).
Proof.
  revert i. induction rels as [|r rels IH]; intros i.
  - cbn. by rewrite Nat.add_0_r.
  - cbn [app progress_lines length]. rewrite last_cons, IH.
    by rewrite Nat.add_succ_r.
Qed.

(** X21: the progress bar at its ends.  With a total of 0 it raises
    [ZeroDivisionError], for any current value and length.  With the
    current value equal to the total, whatever their size, the bar is
    39 rules and the head with no padding, and the label is [100%]; the
    compression loop ends on such a call: the last progress line of [n]
    files is numbered [n] of [n].  A third of the way the bar has 12
    rules, the head and one rule of padding, and the label is [33%]. *)
Theorem progress_bar_ends :
  (∀ current bar_length,
     progress_bar current 0 bar_length = Raise ZeroDivisionError) ∧
  (∀ n, 0 < n →
     progress_bar n n 40
     = Ok {| bar := ustr_mul 39 bar_rule ++ bar_head; percent := "100%" |}) ∧
  (∀ rels rel,
     last (progress_lines (length (rels ++ [rel])) 1 (rels ++ [rel]))
     = Some (Compressing (length (rels ++ [rel])) (length (rels ++ [rel]))
               (str_join "/" rel))) ∧
  progress_bar 1 3 40
  = Ok {| bar := ustr_mul 12 bar_rule ++ bar_head ++ bar_rule; percent := "33%" |}.
Proof.
  split; [done|]. split; [|split; [|by vm_compute]].
  - intros n Hn.
    rewrite (progress_bar_Ok n n _ 39 (int_truediv_same n Hn)) by (by vm_compute).
    by vm_compute.
  - intros rels rel. rewrite last_progress_lines, length_app. cbn [length].
    do 2 f_equal. lia.
Qed.



(** ** The ratio is a number *)

Lemma binary_normalize_normal z e :
  z ≠ 0 → -1021 ≤ Zdigits2 (Z.abs z) + e ≤ 1023 →
  ∃ s m e', binary_normalize 53 1024 z e false = S754_finite s m e' ∧
            Zpos (digits2_pos m) = 53 ∧
            Zdigits2 (Z.abs z) + e - 53 ≤ e' ≤ Zdigits2 (Z.abs z) + e - 52.
Proof.
  intros Hz Hd. destruct z as [|p|p]; [done| |]; cbn [binary_normalize].
  all: change (Z.abs _) with (Z.pos p) in *.
  - destruct (binary_round_normal false p e) as (m' & e' & Hm & He & ->); [lia|].
    replace (e' <=? 971) with true by lia. by eexists _, _, _.
  - destruct (binary_round_normal true p e) as (m' & e' & Hm & He & ->); [lia|].
    replace (e' <=? 971) with true by lia. by eexists _, _, _.
Qed.

(** The difference of two normal doubles of moderate size: a zero, or a
    normal double between the smaller exponent and the larger one. *)
Lemma SFsub_normal sx mx ex sy my ey :
  Zpos (digits2_pos mx) = 53 → Zpos (digits2_pos my) = 53 →
  -1022 ≤ ex ≤ 900 → -1022 ≤ ey ≤ 900 →
  (∃ s, SFsub 53 1024 (S754_finite sx mx ex) (S754_finite sy my ey) = S754_zero s) ∨
  (∃ s m e, SFsub 53 1024 (S754_finite sx mx ex) (S754_finite sy my ey)
            = S754_finite s m e ∧
            Zpos (digits2_pos m) = 53 ∧
            Z.min ex ey - 52 ≤ e ≤ Z.max ex ey + 2).
Proof.
  intros Hx Hy Hex Hey. apply digits_53_bounds in Hx, Hy.
  cbn [SFsub]. set (ez := Z.min ex ey).
  rewrite !shl_align_fst by (unfold ez; lia).
  set (a := Z.pos mx * 2 ^ (ex - ez)). set (b := Z.pos my * 2 ^ (ey - ez)).
  set (t := Z.max ex ey - ez).
  assert (Ht : 0 ≤ t) by (unfold t, ez; lia).
  assert (Ha : 0 < a < 2 ^ (53 + t)).
  { unfold a. assert (0 < 2 ^ (ex - ez)) by (apply Z.pow_pos_nonneg; unfold ez; lia).
    split; [lia|]. rewrite Z.pow_add_r by lia.
    assert (2 ^ (ex - ez) ≤ 2 ^ t) by (apply Z.pow_le_mono_r; unfold t; lia).
    nia. }
  assert (Hb : 0 < b < 2 ^ (53 + t)).
  { unfold b. assert (0 < 2 ^ (ey - ez)) by (apply Z.pow_pos_nonneg; unfold ez; lia).
    split; [lia|]. rewrite Z.pow_add_r by lia.
    assert (2 ^ (ey - ez) ≤ 2 ^ t) by (apply Z.pow_le_mono_r; unfold t; lia).
    nia. }
  set (D := cond_Zopp sx a - cond_Zopp sy b).
  assert (HD : Z.abs D < 2 ^ (54 + t)).
  { replace (54 + t) with (1 + (53 + t)) by lia. rewrite Z.pow_add_r by lia.
    unfold D. destruct sx, sy; cbn [cond_Zopp]; lia. }
  destruct (decide (D = 0)) as [->|HD0]; [left; by eexists|right].
  pose proof (Zdigits2_upper (Z.abs D) (54 + t) ltac:(lia) ltac:(lia)) as Hdig.
  destruct (binary_normalize_normal D ez HD0) as (s & m & e & -> & Hm & He).
  { unfold t, ez in *. lia. }
  exists s, m, e. split; [done|]. split; [done|]. unfold t, ez in *. lia.
Qed.

(** The double of the ratio line, for a quotient that is a normal
    double of moderate size. *)
Lemma ratio_is_number m e :
  Zpos (digits2_pos m) = 53 → -1000 ≤ e ≤ 900 →
  is_number (Float.mul
               (Float.sub (S754_finite false 4503599627370496 (-52))
                  (S754_finite false m e))
               (S754_finite false 7036874417766400 (-46))) = true.
Proof.
  intros Hm He.
  change (Float.mul ?a ?b) with (SFmul 53 1024 a b).
  change (Float.sub ?a ?b) with (SFsub 53 1024 a b).
  destruct (SFsub_normal false 4503599627370496 (-52) false m e)
    as [[s ->]|(s & m3 & e3 & -> & Hm3 & He3)]; [done|done|lia|lia|done|].
  destruct (SFmul_normal s m3 e3 false 7036874417766400 (-46))
    as (m4 & e4 & _ & He4 & ->); [done|done|lia|].
  by replace (e4 <=? 971) with true by lia.
Qed.

Lemma format_f_1_shape x :
  is_number x = true →
  ∃ s n, Float.format_f 1 x
         = Float.sign s +:+ pretty (n / 10) +:+ "." +:+ Float.fraction 1 n ∧
         String.length (Float.fraction 1 n) = 1%nat.
Proof.
  destruct x as [s|s| |s m e]; try done; intros _; cbn [Float.format_f].
  - exists s, 0. split; [done|]. apply fraction_1_length.
  - exists s, (Float.scaled 1 m e). split; [done|]. apply fraction_1_length.
Qed.

(** X9: for sizes below [2^900], a source that is not empty and an
    archive of any size, the ratio line is a number: the quotient of
    the two sizes is a zero or a finite double, so is one minus the
    quotient times a hundred, and the line is that double printed as a
    sign, an integer part, a point and one decimal digit, followed by a
    percent sign; neither [nan] nor [inf] nor an exception can come out. *)
Theorem compression_ratio_defined c o :
  0 ≤ c < 2 ^ 900 → 0 < o < 2 ^ 900 →
  ∃ q x,
    Float.int_truediv c o = Ok q ∧ is_number q = true ∧
    x = Float.mul (Float.sub (S754_finite false 4503599627370496 (-52)) q)
          (S754_finite false 7036874417766400 (-46)) ∧
    is_number x = true ∧
    compression_ratio c o = Ok (Float.format_f 1 x +:+ "%") ∧
    ∃ s n, Float.format_f 1 x
           = Float.sign s +:+ pretty (n / 10) +:+ "." +:+ Float.fraction 1 n ∧
           String.length (Float.fraction 1 n) = 1%nat.
Proof.
  intros Hc Ho.
  assert (Hq : ∃ q, Float.int_truediv c o = Ok q ∧ is_number q = true ∧
                    is_number (Float.mul
                                 (Float.sub (S754_finite false 4503599627370496 (-52)) q)
                                 (S754_finite false 7036874417766400 (-46))) = true).
  { destruct (decide (c = 0)) as [->|Hne].
    - exists (S754_zero false). split; [apply int_truediv_0; lia|].
      split; [done|]. by vm_compute.
    - pose proof (Zdigits2_lt_pow c 900 ltac:(lia) ltac:(lia)) as Dc.
      pose proof (Zdigits2_lt_pow o 900 ltac:(lia) ltac:(lia)) as Do.
      destruct (SFdiv_int_normal c o) as (m & e & Hm & He & Heq); [lia..|].
      replace (e <=? 971) with true in Heq by lia.
      exists (S754_finite false m e). split.
      { unfold Float.int_truediv. replace (o =? 0) with false by lia.
        change (SFdiv Float.prec Float.emax) with (SFdiv 53 1024).
        by rewrite Heq. }
      split; [done|]. apply ratio_is_number; [done|lia]. }
  destruct Hq as (q & Hq & Hnq & Hnx).
  eexists q, _. split; [done|]. split; [done|]. split; [reflexivity|].
  split; [done|]. split; [by apply compression_ratio_Ok|].
  by apply format_f_1_shape.
Qed.

Lemma compression_ratio_defined_witness :
  ∃ q x,
    Float.int_truediv 400 2013 = Ok q ∧ is_number q = true ∧
    x = Float.mul (Float.sub (S754_finite false 4503599627370496 (-52)) q)
          (S754_finite false 7036874417766400 (-46)) ∧
    is_number x = true ∧
    compression_ratio 400 2013 = Ok (Float.format_f 1 x +:+ "%") ∧
    ∃ s n, Float.format_f 1 x
           = Float.sign s +:+ pretty (n / 10) +:+ "." +:+ Float.fraction 1 n ∧
           String.length (Float.fraction 1 n) = 1%nat.
Proof.
  apply compression_ratio_defined; split; try lia;
    apply (Z.lt_le_trans _ (2 ^ 11)); try apply Z.pow_le_mono_r; lia.
Defined.

(** ** The archive and the files that can be opened *)

Lemma can_open_below ENV source_dir E src rel :
  source ENV = Some src → wf_dir src = true → rel ∈ found E src →
  can_open ENV source_dir (below source_dir rel) = readable_at src rel.
Proof.
  intros Hsrc Hwf Hrel. unfold can_open, readable_at.
  rewrite (fs_lookup_below _ _ src) by done.
  by destruct (found_spec E src rel Hwf Hrel) as (_ & _ & sz & r & ->).
Qed.

Lemma can_open_found ENV source_dir E src :
  source ENV = Some src → wf_dir src = true →
  Forall (λ p, can_open ENV source_dir p = true)
    (map (below source_dir) (found E src))
  ↔ Forall (λ rel, readable_at src rel = true) (found E src).
Proof.
  intros Hsrc Hwf. rewrite map_fmap, Forall_fmap, !Forall_forall.
  split; intros H rel Hrel; specialize (H rel Hrel); cbn in *;
    by rewrite (can_open_below _ _ E src) in *.
Qed.

Lemma first_unreadable {A} (P : A → bool) l :
  ¬ Forall (λ x, P x = true) l →
  ∃ pre bad post, l = pre ++ bad :: post ∧
                  Forall (λ x, P x = true) pre ∧ P bad = false.
Proof.
  induction l as [|x l IH]; intros H; [by destruct H|].
  destruct (P x) eqn:Hx.
  - destruct IH as (pre & bad & post & -> & Hpre & Hbad).
    { intros Hl. apply H. by constructor. }
    exists (x :: pre), bad, post. split; [done|]. split; [by constructor|done].
  - by exists [], x, l.
Qed.

(** The archive of a run in which every discovered file can be opened. *)
Lemma main_archive_at ENV a disk src :
  source ENV = Some src → wf_dir src = true →
  Forall (λ rel, readable_at src rel = true) (found (main_patterns a) src) →
  found (main_patterns a) src ≠ [] →
  archives (main ENV a (initial disk None)).2
  = <[Path_str (main_zip_path ENV a) :=
       map (str_join "/") (found (main_patterns a) src)]> disk.
Proof.
  intros Hsrc Hwfd Hread Hne.
  rewrite (main_written_at ENV a disk src) by done.
  match goal with |- context [try_except_Exception ?m ?h ?W] =>
    destruct (try_except_Exception m h W) as [r w'] eqn:Hrest end.
  apply same_disk_after_loop in Hrest as [Ha _]. cbn [snd]. by rewrite Ha.
Qed.




(** ** What a normal return of [main] stands for *)

(** X7: success is never reported for an incomplete archive.  When
    [main] returns in a run that no Ctrl-C reaches, the discovery has
    returned files, each of them could be opened, the statistics were
    computed, and the run has done this: the archive at [zip_path],
    whatever was there before, lists the relative paths of the
    discovered files in discovery order, every other archive is as it
    was, and after the discovery the output is the start line, one
    progress line per file numbered from 1 with the number of files as
    total, the success line and the statistics table. *)
Theorem success_means_complete ENV a disk :
  wf_source (source ENV) = true →
  (main ENV a (initial disk None)).1 = Ok () →
  ∃ rels total w1 stats shown,
    discover ENV (arg_source a) (main_patterns a) (discovering disk None)
    = (Ok (map (below (arg_source a)) rels, total), w1) ∧
    rels ≠ [] ∧
    Forall (λ rel, can_open ENV (arg_source a) (below (arg_source a) rel) = true)
      rels ∧
    make_stats ENV (arg_source a) (map (below (arg_source a)) rels) total
    = Ok stats ∧
    archives (main ENV a (initial disk None)).2
    = <[Path_str (main_zip_path ENV a) := map (str_join "/") rels]> disk ∧
    stdout (main ENV a (initial disk None)).2
    = stdout w1 ++ [StartingCompression] ++
      progress_lines (length rels) 1 rels ++ [Created shown; Stats stats] ∧
    run ENV a (initial disk None) = (0, (main ENV a (initial disk None)).2).
Proof.
  intros Hwf Hrun.
  destruct (source ENV) as [src|] eqn:Hsrc.
  2:{ exfalso.
      assert (Hnone : discover ENV (arg_source a) (main_patterns a)
                        (discovering disk None)
                      = (Ok ([], 0), discovering disk None))
        by (unfold discover; by rewrite Hsrc).
      by rewrite (main_no_files ENV a disk None _ _ Hnone) in Hrun. }
  assert (Hwfd : wf_dir src = true) by (by destruct src).
  pose proof (discover_run ENV (arg_source a) (main_patterns a) src
                (discovering disk None) Hsrc Hwfd eq_refl) as Hdisc.
  set (rels := found (main_patterns a) src) in *.
  destruct (decide (rels = [])) as [Hnil|Hne].
  { exfalso. rewrite Hnil in Hdisc.
    by rewrite (main_no_files ENV a disk None _ _ Hdisc) in Hrun. }
  destruct (decide (Forall (λ rel, readable_at src rel = true) rels))
    as [Hread|Hbad].
  2:{ exfalso.
      apply (first_unreadable (readable_at src)) in Hbad
        as (pre & bad & post & Hfound & Hpre & Hbad).
      by rewrite (main_unreadable ENV a disk src pre bad post
                    Hsrc Hwfd Hfound Hpre Hbad) in Hrun. }
  pose proof (main_written_at ENV a disk src Hsrc Hwfd Hread Hne) as Hmain.
  fold rels in Hmain.
  destruct (make_stats ENV (arg_source a) (map (below (arg_source a)) rels)
              (sum_sizes (map (size_at src) rels))) as [stats|e] eqn:Hstats.
  - unfold try_except_Exception, lift, mbind, M_bind, print in Hmain.
    cbn [stdout made_dirs archives pending_sigint] in Hmain.
    exists rels, (sum_sizes (map (size_at src) rels)),
      (said (counters 0 (length rels)) (discovering disk None)), stats,
      (Path_str (main_zip_path ENV a)).
    split; [exact Hdisc|]. split; [done|].
    split; [by apply (can_open_found ENV (arg_source a) _ src Hsrc Hwfd),
              (proj1 (Forall_fmap _ _ _)) in Hread|].
    split; [exact Hstats|].
    rewrite (run_of_main _ _ _ _ _ Hmain) by done.
    rewrite Hmain. cbn [snd stdout archives exit_code].
    split; [done|]. split; [|done]. cbn [said discovering stdout].
    unfold counters. by rewrite <- !app_assoc.
  - exfalso. pose proof (make_stats_raises _ _ _ _ e Hstats) as He.
    unfold try_except_Exception, lift, mbind, M_bind, print, sys_exit, raise
      in Hmain. rewrite He in Hmain. by rewrite Hmain in Hrun.
Qed.

Lemma success_means_complete_witness :
  ∃ rels total w1 stats shown,
    discover (Sample.env_of (Some Sample.project) 400) "/home/u/proj"
      (main_patterns (Sample.arguments "" true)) (discovering ∅ None)
    = (Ok (map (below "/home/u/proj") rels, total), w1) ∧
    rels ≠ [] ∧
    Forall (λ rel, can_open (Sample.env_of (Some Sample.project) 400)
                     "/home/u/proj" (below "/home/u/proj" rel) = true) rels ∧
    make_stats (Sample.env_of (Some Sample.project) 400) "/home/u/proj"
      (map (below "/home/u/proj") rels) total = Ok stats ∧
    archives (main (Sample.env_of (Some Sample.project) 400)
                (Sample.arguments "" true) (initial ∅ None)).2
    = <[ "out/proj.zip" := map (str_join "/") rels ]> ∅ ∧
    stdout (main (Sample.env_of (Some Sample.project) 400)
              (Sample.arguments "" true) (initial ∅ None)).2
    = stdout w1 ++ [StartingCompression] ++
      progress_lines (length rels) 1 rels ++ [Created shown; Stats stats] ∧
    run (Sample.env_of (Some Sample.project) 400) (Sample.arguments "" true)
      (initial ∅ None)
    = (0, (main (Sample.env_of (Some Sample.project) 400)
             (Sample.arguments "" true) (initial ∅ None)).2).
Proof.
  apply (success_means_complete (Sample.env_of (Some Sample.project) 400)
           (Sample.arguments "" true) ∅); by vm_compute.
Defined.

(** ** The archive name *)

Lemma zfill_2_writes r : 0 ≤ r < 100 → writes 2 r (zfill 2 (pretty r)).
Proof.
  intros Hr.
  assert (Hall : Forall (λ r : Z,
            String.length (zfill 2 (pretty r)) = 2%nat ∧
            all_digits (zfill 2 (pretty r)) = true ∧
            decimal (zfill 2 (pretty r)) = r) (seqZ 0 100)).
  { apply (bool_decide_unpack _). vm_compute. exact I. }
  rewrite Forall_forall in Hall. apply Hall, elem_of_seqZ. lia.
Qed.

Lemma zfill_4_writes y : 1000 ≤ y ≤ 9999 → writes 4 y (zfill 4 (pretty y)).
Proof.
  intros Hy.
  assert (Hall : Forall (λ y : Z,
            String.length (zfill 4 (pretty y)) = 4%nat ∧
            all_digits (zfill 4 (pretty y)) = true ∧
            decimal (zfill 4 (pretty y)) = y) (seqZ 1000 9000)).
  { apply (bool_decide_unpack _). vm_compute. exact I. }
  rewrite Forall_forall in Hall. apply Hall, elem_of_seqZ. lia.
Qed.

(** The timestamp writes the clock: year, month, day, an underscore,
    hour, minute and second, each in decimal digits at its full width. *)
Lemma strftime_writes t :
  valid_datetime t →
  ∃ Y M D h m s,
    strftime t = Y +:+ M +:+ D +:+ "_" +:+ h +:+ m +:+ s ∧
    writes 4 (year t) Y ∧ writes 2 (month t) M ∧ writes 2 (day t) D ∧
    writes 2 (hour t) h ∧ writes 2 (minute t) m ∧ writes 2 (second t) s.
Proof.
  intros (Hy & Hmo & Hd & Hh & Hmi & Hs).
  exists (zfill 4 (pretty (year t))), (zfill 2 (pretty (month t))),
    (zfill 2 (pretty (day t))), (zfill 2 (pretty (hour t))),
    (zfill 2 (pretty (minute t))), (zfill 2 (pretty (second t))).
  split; [done|].
  repeat split; first [apply zfill_4_writes|apply zfill_2_writes]; lia.
Qed.

Lemma base_name_join top name :
  proper_name name = true →
  base_name None (os_path_join top name) = name ∧
  base_name (Some "") (os_path_join top name) = name.
Proof.
  intros Hn. unfold base_name. cbn [String.eqb].
  by rewrite Path_of_join, Path_name_app.
Qed.


